(** * Critical Path Method scheduler of [app.py]

    A shallow embedding of [calculate_cpm], of the length guard of the
    [calculate] route and of the figure built by [create_network_diagram],
    followed by the properties of the schedule and of the figure they
    produce.

    Python values are modelled as follows.
    - [int] is [Z] (unbounded); a number that is an [int] or
      [float('inf')] is a [num].
    - [str] is [string], read as a sequence of code points below 256.
    - an exception is a value of [exn]; a computation that may raise has
      type [result A].
    - the [dict] of activity records is an association list in insertion
      order with at most one entry per key; each record is an [activity]. *)

From Stdlib Require Import List ZArith NArith String Ascii Bool Arith Lia.
From Stdlib Require Import DecimalString.
Import ListNotations.
Open Scope string_scope.
Open Scope list_scope.
Open Scope Z_scope.

(** ** Exceptions and fallible computations *)

Inductive exn : Type :=
| KeyError (key : string)
| ValueError (arg : string)
| IndexError.


Inductive result (A : Type) : Type :=
| OK (a : A)
| Raise (e : exn).
Arguments OK {A} a.
Arguments Raise {A} e.

Definition bind {A B : Type} (c : result A) (k : A -> result B) : result B :=
  match c with
  | OK a => k a
  | Raise e => Raise e
  end.

Notation "x <- c ;; k" := (bind c (fun x => k))
  (at level 61, c at next level, right associativity).

(** [for x in xs: s = body(x, s)], stopping at the first exception. *)
Fixpoint for_each {A S : Type} (xs : list A) (body : A -> S -> result S) (s : S)
  : result S :=
  match xs with
  | [] => OK s
  | x :: xs' => s' <- body x s ;; for_each xs' body s'
  end.

(** [[f(x) for x in xs]], elements evaluated left to right. *)
Fixpoint comprehension {A B : Type} (f : A -> result B) (xs : list A)
  : result (list B) :=
  match xs with
  | [] => OK []
  | x :: xs' => y <- f x ;; ys <- comprehension f xs' ;; OK (y :: ys)
  end.

(** [xs[i]] for a list and [0 <= i]. *)
Definition list_getitem {A : Type} (xs : list A) (i : nat) : result A :=
  match nth_error xs i with
  | Some x => OK x
  | None => Raise IndexError
  end.

(** ** Numbers: [int] or [float('inf')] *)

Inductive num : Type :=
| Int (z : Z)
| Inf.

(** [x == y] *)
Definition num_eqb (x y : num) : bool :=
  match x, y with
  | Int a, Int b => a =? b
  | Inf, Inf => true
  | _, _ => false
  end.

(** [x < y] *)
Definition num_ltb (x y : num) : bool :=
  match x, y with
  | Int a, Int b => a <? b
  | Int _, Inf => true
  | Inf, _ => false
  end.

(** [min(x, y)]: the first argument unless the second is strictly smaller. *)
Definition py_min (x y : num) : num :=
  if num_ltb y x then y else x.

(** [x - d] for an [int] [d]. *)
Definition num_sub (x : num) (d : Z) : num :=
  match x with
  | Int a => Int (a - d)
  | Inf => Inf
  end.

(** Order on [num] with [Inf] on top, used in statements. *)
Definition num_le (x y : num) : Prop :=
  match x, y with
  | Int a, Int b => a <= b
  | _, Inf => True
  | Inf, Int _ => False
  end.

(** [max(xs)] of a list of [int]; [ValueError] on the empty list. *)
Definition py_max (xs : list Z) : result Z :=
  match xs with
  | [] => Raise (ValueError "max() arg is an empty sequence")
  | x :: xs' => OK (fold_left Z.max xs' x)
  end.

(** ** Strings: [int(s)] and [s.split(',')] *)

(** The characters that [int] skips around a number: the ASCII white
    space (tab to carriage return, and the space) and, in a string that is
    not pure ASCII, the two Latin-1 spaces 133 and 160, which [int] first
    turns into spaces. *)
Definition is_space (c : ascii) : bool :=
  let n := nat_of_ascii c in
  (((9 <=? n) && (n <=? 13)) || (n =? 32) || (n =? 133) || (n =? 160))%nat.

Definition digit_val (c : ascii) : option Z :=
  let n := nat_of_ascii c in
  if ((48 <=? n) && (n <=? 57))%nat then Some (Z.of_nat n - 48) else None.

Fixpoint lstrip (cs : list ascii) : list ascii :=
  match cs with
  | c :: cs' => if is_space c then lstrip cs' else cs
  | [] => []
  end.

Definition strip (cs : list ascii) : list ascii :=
  rev (lstrip (rev (lstrip cs))).

(** Decimal digits with single underscores between digits. [prev] tells
    whether the previous character was a digit. *)
Fixpoint digits_value (acc : Z) (prev : bool) (cs : list ascii) : option Z :=
  match cs with
  | [] => if prev then Some acc else None
  | c :: cs' =>
      match digit_val c with
      | Some v => digits_value (10 * acc + v) true cs'
      | None =>
          if (Ascii.eqb c "_" && prev)%bool then digits_value acc false cs'
          else None
      end
  end.

(** The interpreter's default limit on the number of digits of a decimal
    string that is converted to an [int] or made from one
    ([sys.int_info.default_max_str_digits]). *)
Definition max_str_digits : nat := 4300.

(** The number of decimal digits among [cs]. *)
Definition count_digits (cs : list ascii) : nat :=
  List.length (filter (fun c => match digit_val c with
                                | Some _ => true
                                | None => false
                                end) cs).

(** [int(s)] in base 10: surrounding whitespace, an optional sign, digits,
    at most [max_str_digits] of them. [None] stands for the [ValueError]
    raised by [int]. Code points from 256 on (other Unicode digits and
    spaces) are outside the model. *)
Definition py_int (s : string) : option Z :=
  match strip (list_ascii_of_string s) with
  | c :: cs =>
      if (max_str_digits <? count_digits (c :: cs))%nat then None
      else if Ascii.eqb c "-" then option_map Z.opp (digits_value 0 false cs)
      else if Ascii.eqb c "+" then digits_value 0 false cs
      else digits_value 0 false (c :: cs)
  | [] => None
  end.

Definition int_of_str (s : string) : result Z :=
  match py_int s with
  | Some z => OK z
  | None => Raise (ValueError s)
  end.

(** [s.split(',')] *)
Fixpoint split_comma (s : string) : list string :=
  match s with
  | EmptyString => [EmptyString]
  | String c s' =>
      if Ascii.eqb c "," then EmptyString :: split_comma s'
      else match split_comma s' with
           | w :: ws => String c w :: ws
           | [] => [String c EmptyString]
           end
  end.

(** ** Activity records and the activity dictionary *)

Record activity : Type := mkActivity {
  duration : Z;
  predecessors : list string;
  earliest_start : Z;
  earliest_finish : Z;
  latest_start : num;
  latest_finish : num
}.

Definition set_earliest_start (v : Z) (r : activity) : activity :=
  mkActivity (duration r) (predecessors r) v (earliest_finish r)
             (latest_start r) (latest_finish r).

Definition set_earliest_finish (v : Z) (r : activity) : activity :=
  mkActivity (duration r) (predecessors r) (earliest_start r) v
             (latest_start r) (latest_finish r).

Definition set_latest_start (v : num) (r : activity) : activity :=
  mkActivity (duration r) (predecessors r) (earliest_start r)
             (earliest_finish r) v (latest_finish r).

Definition set_latest_finish (v : num) (r : activity) : activity :=
  mkActivity (duration r) (predecessors r) (earliest_start r)
             (earliest_finish r) (latest_start r) v.

Definition dict : Type := list (string * activity).

Definition keys (d : dict) : list string := map fst d.

Fixpoint dict_get (d : dict) (k : string) : option activity :=
  match d with
  | [] => None
  | (k', v) :: d' => if String.eqb k' k then Some v else dict_get d' k
  end.

(** [d[k] = v]: an existing key keeps its position, a new key goes last. *)
Fixpoint dict_set (d : dict) (k : string) (v : activity) : dict :=
  match d with
  | [] => [(k, v)]
  | (k', v') :: d' =>
      if String.eqb k' k then (k', v) :: d' else (k', v') :: dict_set d' k v
  end.

(** [d[k]] *)
Definition getitem (d : dict) (k : string) : result activity :=
  match dict_get d k with
  | Some r => OK r
  | None => Raise (KeyError k)
  end.

(** [d[k][field] = value], written as a function on the record. *)
Definition store (d : dict) (k : string) (f : activity -> activity)
  : result dict :=
  r <- getitem d k ;; OK (dict_set d k (f r)).

(** ** [calculate_cpm] *)

(** Lines 10-18: one iteration of the loop that builds [activity_dict].
    The right-hand side is evaluated before the key. *)
Definition build_step (activities durations predecessors : list string)
  (i : nat) (d : dict) : result dict :=
  s <- list_getitem durations i ;;
  n <- int_of_str s ;;
  ps <- list_getitem predecessors i ;;
  let preds := if String.eqb ps "" then [] else split_comma ps in
  a <- list_getitem activities i ;;
  OK (dict_set d a (mkActivity n preds 0 0 Inf Inf)).

Definition build (activities durations predecessors : list string)
  : result dict :=
  for_each (seq 0 (List.length activities))
           (build_step activities durations predecessors) [].

(** Lines 22-28: the forward-pass body for one activity. *)
Definition forward_step (a : string) (d : dict) : result dict :=
  r <- getitem d a ;;
  match predecessors r with
  | [] =>
      d <- store d a (set_earliest_start 0) ;;
      r <- getitem d a ;;
      store d a (set_earliest_finish (duration r))
  | _ :: _ =>
      r <- getitem d a ;;
      es_times <- comprehension
                    (fun p => rp <- getitem d p ;; OK (earliest_finish rp))
                    (predecessors r) ;;
      m <- py_max es_times ;;
      d <- store d a (set_earliest_start m) ;;
      r <- getitem d a ;;
      r' <- getitem d a ;;
      store d a (set_earliest_finish (earliest_start r + duration r'))
  end.

Definition forward_pass (d : dict) : result dict :=
  for_each (keys d) forward_step d.

(** Lines 33-35: anchor the latest finish if still unbounded, then set the
    latest start. *)
Definition anchor (a : string) (d : dict) : result dict :=
  r <- getitem d a ;;
  d <- (if num_eqb (latest_finish r) Inf
        then r <- getitem d a ;;
             store d a (set_latest_finish (Int (earliest_finish r)))
        else OK d) ;;
  r <- getitem d a ;;
  r' <- getitem d a ;;
  store d a (set_latest_start (num_sub (latest_finish r) (duration r'))).

(** Lines 37-38: tighten predecessor [p] of [a]. *)
Definition tighten (a p : string) (d : dict) : result dict :=
  rp <- getitem d p ;;
  ra <- getitem d a ;;
  d <- store d p (set_latest_finish
                    (py_min (latest_finish rp) (latest_start ra))) ;;
  rp <- getitem d p ;;
  rp' <- getitem d p ;;
  store d p (set_latest_start (num_sub (latest_finish rp) (duration rp'))).

(** Lines 33-38: the backward-pass body for one activity. *)
Definition visit (a : string) (d : dict) : result dict :=
  d <- anchor a d ;;
  r <- getitem d a ;;
  for_each (predecessors r) (tighten a) d.

Definition backward_pass (d : dict) : result dict :=
  let all_activities := keys d in
  for_each (rev all_activities) visit d.

(** Lines 40-43. *)
Definition critical_step (d : dict) (a : string) (critical_path : list string)
  : result (list string) :=
  r <- getitem d a ;;
  r' <- getitem d a ;;
  if num_eqb (Int (earliest_start r)) (latest_start r')
  then OK (critical_path ++ [a])
  else OK critical_path.

Definition critical_path (d : dict) : result (list string) :=
  for_each (keys d) (critical_step d) [].

Definition calculate_cpm (activities durations predecessors : list string)
  : result (list string * dict) :=
  d <- build activities durations predecessors ;;
  d <- forward_pass d ;;
  d <- backward_pass d ;;
  cp <- critical_path d ;;
  OK (cp, d).

(** ** [create_network_diagram] *)

(** The function fills four auxiliary dictionaries ([depth],
    [levels], [x_positions], [y_positions]) and then adds the traces of
    the figure. The dictionaries are association lists in insertion order,
    like [dict]; the figure is the list of its traces in the order they
    are added. [go.Scatter] and [fig.add_trace] are taken to record
    their arguments; the layout settings are constants. The serialisation
    by [pio.to_html] belongs to the plotting library and is a parameter
    of the model (see the route below). *)

Section Assoc.
Context {K V : Type} (eqb : K -> K -> bool).

Fixpoint assoc_get (m : list (K * V)) (k : K) : option V :=
  match m with
  | [] => None
  | (k', v) :: m' => if eqb k' k then Some v else assoc_get m' k
  end.

(** [m[k] = v] *)
Fixpoint assoc_set (m : list (K * V)) (k : K) (v : V) : list (K * V) :=
  match m with
  | [] => [(k, v)]
  | (k', v') :: m' =>
      if eqb k' k then (k', v) :: m' else (k', v') :: assoc_set m' k v
  end.
End Assoc.

(** [m[k]] for a plain dictionary with string keys. *)
Definition str_getitem (m : list (string * Z)) (k : string) : result Z :=
  match assoc_get String.eqb m k with
  | Some v => OK v
  | None => Raise (KeyError k)
  end.

(** [m[k]] for a [defaultdict] read where the key is present or the
    default is all that is used. *)
Definition get_default {K V : Type} (eqb : K -> K -> bool) (m : list (K * V))
           (k : K) (default : V) : V :=
  match assoc_get eqb m k with
  | Some v => v
  | None => default
  end.

(** [x in xs] for a list of strings. *)
Definition str_in (x : string) (xs : list string) : bool :=
  existsb (String.eqb x) xs.

(** [enumerate(xs)] *)
Definition enumerate {A : Type} (xs : list A) : list (Z * A) :=
  combine (map Z.of_nat (seq 0 (List.length xs))) xs.

(** Line 51. *)
Definition initial_depth (d : dict) : list (string * Z) :=
  fold_left (fun depth a => assoc_set String.eqb depth a 0) (keys d) [].

(** Line 54. *)
Definition depth_step (a p : string) (depth : list (string * Z))
  : result (list (string * Z)) :=
  da <- str_getitem depth a ;;
  dp <- str_getitem depth p ;;
  OK (assoc_set String.eqb depth a (Z.max da (dp + 1))).

(** Lines 51-54. *)
Definition diagram_depth (d : dict) : result (list (string * Z)) :=
  for_each (keys d)
           (fun a depth =>
              r <- getitem d a ;;
              for_each (predecessors r) (depth_step a) depth)
           (initial_depth d).

(** Lines 57-59. *)
Definition diagram_levels (depth : list (string * Z)) : list (Z * list string) :=
  fold_left (fun levels ad =>
               assoc_set Z.eqb levels (snd ad)
                         (get_default Z.eqb levels (snd ad) [] ++ [fst ad]))
            depth [].

(** Lines 66-67, for one activity of a level. *)
Definition place (level : Z) (yx : list (string * Z) * list (Z * Z))
           (ia : Z * string) : list (string * Z) * list (Z * Z) :=
  (assoc_set String.eqb (fst yx) (snd ia) (- level),
   assoc_set Z.eqb (snd yx) level (get_default Z.eqb (snd yx) level 0 + 1)).

(** Lines 62-67. *)
Definition first_positions (levels : list (Z * list string))
  : list (string * Z) * list (Z * Z) :=
  fold_left (fun yx la => fold_left (place (fst la)) (enumerate (snd la)) yx)
            levels ([], []).

(** Lines 71-74, for one level with its count. *)
Definition spread (levels : list (Z * list string)) (y : list (string * Z))
           (lc : Z * Z) : list (string * Z) :=
  let step := 5 in
  let start := (- ((snd lc - 1) * step)) / 2 in
  fold_left (fun y ia => assoc_set String.eqb y (snd ia) (start + fst ia * step))
            (enumerate (get_default Z.eqb levels (fst lc) [])) y.

(** Lines 62-74: the final [y_positions]. *)
Definition diagram_positions (levels : list (Z * list string))
  : list (string * Z) :=
  let yx := first_positions levels in
  fold_left (spread levels) (snd yx) (fst yx).

(** The decimal writing of an [int], and the number of its digits. *)
Definition decimal (z : Z) : string := NilZero.string_of_int (Z.to_int z).

Definition digits_of (z : Z) : nat :=
  Decimal.nb_digits (N.to_uint (Z.abs_N z)).

Definition digit_limit : string :=
  "Exceeds the limit (4300 digits) for integer string conversion; use sys.set_int_max_str_digits() to increase the limit".

(** [str(n)] for an [int], as an f-string field makes it: [ValueError]
    when [n] has more than [max_str_digits] digits. *)
Definition str_int (z : Z) : result string :=
  if (max_str_digits <? digits_of z)%nat then Raise (ValueError digit_limit)
  else OK (decimal z).

(** The same for a number; [float('inf')] prints as [inf]. *)
Definition str_num (x : num) : result string :=
  match x with
  | Int z => str_int z
  | Inf => OK "inf"
  end.

(** A call of [go.Scatter]: a marker with its label (lines 79-88) or a
    line (lines 94-100). Only the arguments that vary are kept; the mode,
    the marker size 20, the text position and the hover mode are fixed by
    the kind of trace. *)
Inductive trace : Type :=
| Marker (x y : Z) (text color hovertext : string)
| Line (x0 x1 y0 y1 : Z) (color : string) (width : Z).

(** Line 87: the fields of the f-string are converted from left to
    right. *)
Definition hover (details : activity) : result string :=
  es <- str_int (earliest_start details) ;;
  ef <- str_int (earliest_finish details) ;;
  ls <- str_num (latest_start details) ;;
  lf <- str_num (latest_finish details) ;;
  OK ("ES: " ++ es ++ "<br>EF: " ++ ef
      ++ "<br>LS: " ++ ls ++ "<br>LF: " ++ lf)%string.

(** Lines 91-100: the line from one predecessor. *)
Definition edge_step (d : dict) (critical_path : list string)
           (y_positions : list (string * Z)) (a : string) (details : activity)
           (p : string) (fig : list trace) : result (list trace) :=
  rp <- getitem d p ;;
  let pred_es := earliest_start rp in
  pred_y <- str_getitem y_positions p ;;
  let line_color :=
    if (str_in p critical_path && str_in a critical_path)%bool then "red"
    else "black" in
  y <- str_getitem y_positions a ;;
  OK (fig ++ [Line pred_es (earliest_start details) pred_y y line_color
                   (if String.eqb line_color "red" then 2 else 1)]).

(** Lines 77-100: the traces of one activity. *)
Definition node_step (d : dict) (critical_path : list string)
           (y_positions : list (string * Z)) (ad : string * activity)
           (fig : list trace) : result (list trace) :=
  let (a, details) := ad in
  let is_critical := str_in a critical_path in
  y <- str_getitem y_positions a ;;
  hovertext <- hover details ;;
  let fig := fig ++ [Marker (earliest_start details) y a
                            (if is_critical then "red" else "blue")
                            hovertext] in
  for_each (predecessors details)
           (edge_step d critical_path y_positions a details) fig.

(** Lines 48-112: the figure that is handed to [pio.to_html]. *)
Definition network_figure (d : dict) (critical_path : list string)
  : result (list trace) :=
  depth <- diagram_depth d ;;
  let levels := diagram_levels depth in
  let y_positions := diagram_positions levels in
  for_each d (node_step d critical_path y_positions) [].

(** ** The [/calculate] route *)

(** What the route answers: the page rendered from the result template, or
    a plain text. *)
Inductive response : Type :=
| ResultPage (html : string)
| Text (body : string).

(** The two calls that leave the source. [pio.to_html(fig,
    full_html=False)] belongs to the plotting library, and
    [render_template('result.html', result=..., details=...,
    network_diagram=..., activities=..., durations=..., predecessors=...,
    zip=zip)] renders a template that is not part of the source. What
    they return or raise is taken as given. *)
Definition html_writer : Type := list trace -> result string.

Definition renderer : Type :=
  list string -> dict -> string ->
  list string -> list string -> list string -> result string.

Section Route.

Variable to_html : html_writer.
Variable render_template : renderer.

(** Lines 47-115. *)
Definition create_network_diagram (d : dict) (critical_path : list string)
  : result string :=
  fig <- network_figure d critical_path ;;
  to_html fig.

(** Lines 122-132. *)
Definition calculate (activities durations predecessors : list string)
  : result response :=
  if ((List.length activities =? List.length durations)
      && (List.length durations =? List.length predecessors))%nat
  then
    ret <- calculate_cpm activities durations predecessors ;;
    let (cpm_result, activity_details) := (ret : list string * dict) in
    network_diagram_html <-
      create_network_diagram activity_details cpm_result ;;
    page <- render_template cpm_result activity_details network_diagram_html
                            activities durations predecessors ;;
    OK (ResultPage page)
  else OK (Text "Error: Mismatch in input lengths.").

End Route.

(** * Vocabulary of the statements *)

(** [lift R s s']: same keys in the same order, and the records under each
    key are related by [R]. *)
Definition lift (R : activity -> activity -> Prop) (s s' : dict) : Prop :=
  keys s' = keys s /\
  forall k r, dict_get s k = Some r -> exists r', dict_get s' k = Some r' /\ R r r'.

(** Every predecessor named by a record is a key of the dictionary. *)
Definition closed_prop (d : dict) : Prop :=
  forall a r p, dict_get d a = Some r -> In p (predecessors r) ->
                dict_get d p <> None.

Definition mem (k : string) (ks : list string) : bool :=
  existsb (String.eqb k) ks.

Definition closed (d : dict) : bool :=
  forallb (fun a => match dict_get d a with
                    | Some r => forallb (fun p => mem p (keys d)) (predecessors r)
                    | None => true
                    end) (keys d).

(** The insertion order is a topological order of the predecessor graph:
    every predecessor of an activity is a key inserted strictly before it. *)
Fixpoint topo_from (seen : list string) (d : dict) : bool :=
  match d with
  | [] => true
  | (a, r) :: d' =>
      forallb (fun p => mem p seen) (predecessors r) && topo_from (a :: seen) d'
  end.

Definition topo_order (d : dict) : bool := topo_from [] d.

Definition topo_prop (d : dict) : Prop :=
  forall l1 x l2 r, keys d = l1 ++ x :: l2 -> dict_get d x = Some r ->
                    forall p, In p (predecessors r) -> In p l1.

(** No record names [l] as a predecessor. *)
Definition is_sink (d : dict) (l : string) : bool :=
  forallb (fun a => match dict_get d a with
                    | Some r => negb (mem l (predecessors r))
                    | None => true
                    end) (keys d).

(** The record written by a forward-pass step that found [m] as earliest
    start. *)
Definition fw_record (m : Z) (r : activity) : activity :=
  set_earliest_finish (m + duration r) (set_earliest_start m r).

(** The record written by lines 33-35. *)
Definition anchored (r : activity) : activity :=
  let lf := if num_eqb (latest_finish r) Inf then Int (earliest_finish r)
            else latest_finish r in
  set_latest_start (num_sub lf (duration r)) (set_latest_finish lf r).

(** The record written by lines 37-38 when the visited activity has latest
    start [v]. *)
Definition tightened (v : num) (r : activity) : activity :=
  let lf := py_min (latest_finish r) v in
  set_latest_start (num_sub lf (duration r)) (set_latest_finish lf r).

(** What the forward pass leaves alone in a record. *)
Definition fw_keeps (r r' : activity) : Prop :=
  duration r' = duration r /\ predecessors r' = predecessors r /\
  latest_start r' = latest_start r /\ latest_finish r' = latest_finish r.

(** What one or more backward-pass updates do to a record: durations,
    predecessors and earliest times stay, the latest finish does not grow,
    and the latest start stays in step with it. *)
Definition bw_keeps (r r' : activity) : Prop :=
  duration r' = duration r /\ predecessors r' = predecessors r /\
  earliest_start r' = earliest_start r /\
  earliest_finish r' = earliest_finish r /\
  num_le (latest_finish r') (latest_finish r) /\
  (latest_start r = num_sub (latest_finish r) (duration r) ->
   latest_start r' = num_sub (latest_finish r') (duration r')).

(** The list of earliest finishes read on line 26. *)
Definition ef_list (d : dict) (ps : list string) : result (list Z) :=
  comprehension (fun p => rp <- getitem d p ;; OK (earliest_finish rp)) ps.

(** The test of line 42 on the record under [a]. *)
Definition is_critical (d : dict) (a : string) : bool :=
  match dict_get d a with
  | Some r => num_eqb (Int (earliest_start r)) (latest_start r)
  | None => false
  end.

(** Keys of a dictionary filled from [names] in order: each name at its
    first occurrence. *)
Definition first_occurrences (names : list string) : list string :=
  fold_left (fun ks a => if mem a ks then ks else ks ++ [a]) names [].

(** The earliest times of record [r] are those the forward pass promises,
    read against the records of state [s]: with no predecessor the activity
    starts at 0; otherwise its earliest start is the largest earliest finish
    among its predecessors (an upper bound that one of them attains). *)
Definition es_ok (s : dict) (r : activity) : Prop :=
  (predecessors r = [] ->
   earliest_start r = 0 /\ earliest_finish r = duration r) /\
  (predecessors r <> [] ->
   (forall p, In p (predecessors r) ->
              exists rp, dict_get s p = Some rp /\
                         earliest_finish rp <= earliest_start r) /\
   (exists p rp, In p (predecessors r) /\ dict_get s p = Some rp /\
                 earliest_finish rp = earliest_start r) /\
   earliest_finish r = earliest_start r + duration r).

(** The record of a freshly built activity (lines 11-18). *)
Definition new_record (n : Z) (ps : string) : activity :=
  mkActivity n (if String.eqb ps "" then [] else split_comma ps) 0 0 Inf Inf.

(** The building loop read as a walk down the three lists in step; it is
    shown below to agree with the indexed loop of [build]. *)
Fixpoint build_zip (acts durs preds : list string) (d : dict) : result dict :=
  match acts with
  | [] => OK d
  | a :: acts' =>
      match durs with
      | [] => Raise IndexError
      | s :: durs' =>
          n <- int_of_str s ;;
          match preds with
          | [] => Raise IndexError
          | ps :: preds' =>
              build_zip acts' durs' preds' (dict_set d a (new_record n ps))
          end
      end
  end.

(** A record as the building loop leaves it. *)
Definition fresh (r : activity) : Prop :=
  earliest_start r = 0 /\ earliest_finish r = 0 /\
  latest_start r = Inf /\ latest_finish r = Inf.

(** The backward pass as the sequence of its elementary updates: one
    [Anchor] per visited activity, followed by one [Tighten] per
    predecessor of that activity. *)
Inductive bw_op : Type :=
| Anchor (a : string)
| Tighten (a p : string).

Definition run_op (o : bw_op) (d : dict) : result dict :=
  match o with
  | Anchor a => anchor a d
  | Tighten a p => tighten a p d
  end.

Definition run_ops (ops : list bw_op) (d : dict) : result dict :=
  for_each ops run_op d.

Definition preds_of (d : dict) (a : string) : list string :=
  match dict_get d a with
  | Some r => predecessors r
  | None => []
  end.

Definition visit_ops (d : dict) (a : string) : list bw_op :=
  Anchor a :: map (Tighten a) (preds_of d a).

Definition backward_ops (d : dict) : list bw_op :=
  flat_map (visit_ops d) (rev (keys d)).

(** ** Sample inputs *)

(** A plotting library and a template that never fail: the first writes an
    empty division, the second returns the diagram it is given. *)
Definition sample_to_html : html_writer := fun _ => OK "<div></div>".

Definition sample_render : renderer := fun _ _ html _ _ _ => OK html.

(** Scenario C: A (2) and B (5) without predecessors, C (3) after both. *)
Definition scenario_names : list string := ["A"; "B"; "C"].
Definition scenario_durations : list string := ["2"; "5"; "3"].
Definition scenario_predecessors : list string := [""; ""; "A,B"].

Definition scenario_built : dict :=
  [("A", mkActivity 2 [] 0 0 Inf Inf);
   ("B", mkActivity 5 [] 0 0 Inf Inf);
   ("C", mkActivity 3 ["A"; "B"] 0 0 Inf Inf)].

Definition scenario_forward : dict :=
  [("A", mkActivity 2 [] 0 2 Inf Inf);
   ("B", mkActivity 5 [] 0 5 Inf Inf);
   ("C", mkActivity 3 ["A"; "B"] 5 8 Inf Inf)].

(** The backward pass on [scenario_forward] after its first update
    (anchoring C) and after its second (tightening A from C). *)
Definition scenario_after_1 : dict :=
  [("A", mkActivity 2 [] 0 2 Inf Inf);
   ("B", mkActivity 5 [] 0 5 Inf Inf);
   ("C", mkActivity 3 ["A"; "B"] 5 8 (Int 5) (Int 8))].

Definition scenario_after_2 : dict :=
  [("A", mkActivity 2 [] 0 2 (Int 3) (Int 5));
   ("B", mkActivity 5 [] 0 5 Inf Inf);
   ("C", mkActivity 3 ["A"; "B"] 5 8 (Int 5) (Int 8))].

Definition scenario_schedule : dict :=
  [("A", mkActivity 2 [] 0 2 (Int 3) (Int 5));
   ("B", mkActivity 5 [] 0 5 (Int 0) (Int 5));
   ("C", mkActivity 3 ["A"; "B"] 5 8 (Int 5) (Int 8))].

(** ** Vocabulary of the further properties *)

(** [','.join(xs)] *)
Fixpoint join_comma (xs : list string) : string :=
  match xs with
  | [] => ""
  | [x] => x
  | x :: xs' => x ++ String "," (join_comma xs')
  end.

(** The string holds no comma. *)
Definition no_comma (s : string) : Prop :=
  ~ In ","%char (list_ascii_of_string s).

(** Every duration of the dictionary is at least 0. *)
Definition nonneg_durations (d : dict) : bool :=
  forallb (fun kr => 0 <=? duration (snd kr)) d.

(** The earliest finish that the forward pass reads for predecessor [p]
    when the activities of [before] have been visited and state [s] holds
    their final records: the recorded value for a visited predecessor, the
    initial 0 for any other. *)
Definition seen_ef (s : dict) (before : list string) (p : string) : Z :=
  if mem p before
  then match dict_get s p with
       | Some rp => earliest_finish rp
       | None => 0
       end
  else 0.

(** The update [o] of the backward pass over [d] follows a precedence edge
    of [d]. *)
Definition op_on_edge (d : dict) (o : bw_op) : Prop :=
  match o with
  | Anchor _ => True
  | Tighten a p => In p (preds_of d a)
  end.

(** ** Vocabulary of the diagram properties *)

(** The activities recorded at depth [lv], in insertion order. *)
Definition members (depth : list (string * Z)) (lv : Z) : list string :=
  map fst (filter (fun ad => snd ad =? lv) depth).

(** The vertical offset given to the [i]-th of [n] activities of a
    level (lines 71-74). *)
Definition offset (n : nat) (i : nat) : Z :=
  (- ((Z.of_nat n - 1) * 5)) / 2 + Z.of_nat i * 5.

(** The four times of the record can be written within the digit
    limit. *)
Definition printable_int (z : Z) : bool :=
  negb (max_str_digits <? digits_of z)%nat.

Definition printable_num (x : num) : bool :=
  match x with
  | Int z => printable_int z
  | Inf => true
  end.

Definition printable_record (r : activity) : bool :=
  printable_int (earliest_start r) && printable_int (earliest_finish r)
  && printable_num (latest_start r) && printable_num (latest_finish r).

Definition printable (d : dict) : bool :=
  forallb (fun ad => printable_record (snd ad)) d.

(** The hover text of a record whose times can be written. *)
Definition hover_text (r : activity) : string :=
  ("ES: " ++ decimal (earliest_start r)
   ++ "<br>EF: " ++ decimal (earliest_finish r)
   ++ "<br>LS: " ++ match latest_start r with
                    | Int z => decimal z
                    | Inf => "inf"
                    end
   ++ "<br>LF: " ++ match latest_finish r with
                    | Int z => decimal z
                    | Inf => "inf"
                    end)%string.

(** The traces that the figure holds for one activity: its marker, then
    one line from each predecessor, with the vertical positions read
    from [ypos]. *)
Definition traces_of (d : dict) (cp : list string) (ypos : string -> Z)
           (ad : string * activity) : list trace :=
  Marker (earliest_start (snd ad)) (ypos (fst ad)) (fst ad)
         (if str_in (fst ad) cp then "red" else "blue") (hover_text (snd ad))
  :: map (fun p =>
            let both := (str_in p cp && str_in (fst ad) cp)%bool in
            Line (match dict_get d p with
                  | Some rp => earliest_start rp
                  | None => 0
                  end)
                 (earliest_start (snd ad)) (ypos p) (ypos (fst ad))
                 (if both then "red" else "black") (if both then 2 else 1))
         (predecessors (snd ad)).

(** The writes of the whole loop of lines 70-74, level by level. *)
Definition spread_all (levels : list (Z * list string))
  : list (string * Z) :=
  flat_map (fun la =>
              map (fun ia => (snd ia,
                              (- ((Z.of_nat (List.length (snd la)) - 1) * 5)) / 2
                              + fst ia * 5))
                  (enumerate (snd la)))
           levels.

(** * Properties *)

(** ** The dictionary *)

Lemma dict_get_set_same (d : dict) (k : string) (v : activity) :
  dict_get (dict_set d k v) k = Some v.
Proof.
  induction d as [|[k' v'] d IH]; simpl.
  - now rewrite String.eqb_refl.
  - destruct (String.eqb k' k) eqn:E; simpl; rewrite E; auto.
Qed.

Lemma dict_get_set_other (d : dict) (k k' : string) (v : activity) :
  k <> k' -> dict_get (dict_set d k v) k' = dict_get d k'.
Proof.
  intros Hne. induction d as [|[k0 v0] d IH]; simpl.
  - apply String.eqb_neq in Hne. now rewrite Hne.
  - destruct (String.eqb k0 k) eqn:E; simpl.
    + apply String.eqb_eq in E. subst k0.
      apply String.eqb_neq in Hne. now rewrite Hne.
    + now rewrite IH.
Qed.

Lemma dict_get_set (d : dict) (k k' : string) (v : activity) :
  dict_get (dict_set d k v) k' = if String.eqb k k' then Some v else dict_get d k'.
Proof.
  destruct (String.eqb k k') eqn:E.
  - apply String.eqb_eq in E. subst. apply dict_get_set_same.
  - apply String.eqb_neq in E. now apply dict_get_set_other.
Qed.

Lemma dict_get_keys (d : dict) (k : string) :
  In k (keys d) <-> dict_get d k <> None.
Proof.
  induction d as [|[k' v'] d IH]; simpl.
  - split; [tauto | congruence].
  - destruct (String.eqb k' k) eqn:E.
    + apply String.eqb_eq in E. split; [discriminate | auto].
    + apply String.eqb_neq in E. rewrite <- IH. tauto.
Qed.

Lemma dict_get_some_keys (d : dict) (k : string) (r : activity) :
  dict_get d k = Some r -> In k (keys d).
Proof. intros H. apply dict_get_keys. congruence. Qed.

Lemma keys_dict_get (d : dict) (k : string) :
  In k (keys d) -> exists r, dict_get d k = Some r.
Proof.
  intros H. apply dict_get_keys in H.
  destruct (dict_get d k) as [r|]; [eauto | congruence].
Qed.

Lemma keys_set_present (d : dict) (k : string) (v : activity) :
  In k (keys d) -> keys (dict_set d k v) = keys d.
Proof.
  induction d as [|[k' v'] d IH]; simpl; intros H; [tauto|].
  destruct (String.eqb k' k) eqn:E; simpl; [reflexivity|].
  apply String.eqb_neq in E. f_equal. apply IH. tauto.
Qed.

Lemma keys_set_absent (d : dict) (k : string) (v : activity) :
  ~ In k (keys d) -> keys (dict_set d k v) = keys d ++ [k].
Proof.
  induction d as [|[k' v'] d IH]; simpl; intros H; [reflexivity|].
  destruct (String.eqb k' k) eqn:E.
  - apply String.eqb_eq in E. tauto.
  - simpl. f_equal. apply IH. tauto.
Qed.

Lemma getitem_some (d : dict) (k : string) (r : activity) :
  dict_get d k = Some r -> getitem d k = OK r.
Proof. unfold getitem. now intros ->. Qed.

Lemma getitem_none (d : dict) (k : string) :
  dict_get d k = None -> getitem d k = Raise (KeyError k).
Proof. unfold getitem. now intros ->. Qed.

Lemma store_some (d : dict) (k : string) (f : activity -> activity) (r : activity) :
  dict_get d k = Some r -> store d k f = OK (dict_set d k (f r)).
Proof. unfold store. intros H. now rewrite (getitem_some _ _ _ H). Qed.

Lemma dict_set_set (d : dict) (k : string) (v v' : activity) :
  dict_set (dict_set d k v) k v' = dict_set d k v'.
Proof.
  induction d as [|[k0 v0] d IH]; simpl.
  - now rewrite String.eqb_refl.
  - destruct (String.eqb k0 k) eqn:E; simpl; rewrite E; [reflexivity|].
    now rewrite IH.
Qed.

(** ** Loops *)

Lemma for_each_app {A S : Type} (l1 l2 : list A) (body : A -> S -> result S) (s : S) :
  for_each (l1 ++ l2) body s = (s' <- for_each l1 body s ;; for_each l2 body s').
Proof.
  revert s. induction l1 as [|x l1 IH]; intros s; simpl; [reflexivity|].
  destruct (body x s); simpl; auto.
Qed.

(** A loop whose body succeeds under an invariant indexed by the elements
    already visited runs to completion and establishes the invariant for
    the whole list. *)
Lemma for_each_total {A S : Type} (body : A -> S -> result S) :
  forall (xs : list A) (P : list A -> S -> Prop) (s0 : S),
    P [] s0 ->
    (forall l1 x l2 s, xs = l1 ++ x :: l2 -> P l1 s ->
                       exists s', body x s = OK s' /\ P (l1 ++ [x]) s') ->
    exists s', for_each xs body s0 = OK s' /\ P xs s'.
Proof.
  induction xs as [|x xs IH]; intros P s0 H0 Hstep; simpl.
  - eauto.
  - destruct (Hstep [] x xs s0 eq_refl H0) as (s1 & E1 & P1).
    rewrite E1. simpl.
    apply (IH (fun l => P (x :: l)) s1 P1).
    intros l1 y l2 s -> Hs.
    apply (Hstep (x :: l1) y l2 s eq_refl Hs).
Qed.

(** The same rule for a loop that is only known to have returned. *)
Lemma for_each_partial {A S : Type} (body : A -> S -> result S) :
  forall (xs : list A) (P : list A -> S -> Prop) (s0 s1 : S),
    P [] s0 ->
    (forall l1 x l2 s s', xs = l1 ++ x :: l2 -> P l1 s ->
                          body x s = OK s' -> P (l1 ++ [x]) s') ->
    for_each xs body s0 = OK s1 -> P xs s1.
Proof.
  induction xs as [|x xs IH]; intros P s0 s1 H0 Hstep; simpl.
  - now intros [= <-].
  - destruct (body x s0) as [s'|e] eqn:E; simpl; [|discriminate].
    apply (IH (fun l => P (x :: l)) s' s1).
    + apply (Hstep [] x xs s0 s' eq_refl H0 E).
    + intros l1 y l2 s s2 -> Hs Hb.
      apply (Hstep (x :: l1) y l2 s s2 eq_refl Hs Hb).
Qed.

(** ** Relations between two states of the dictionary *)

Lemma lift_refl (R : activity -> activity -> Prop) (s : dict) :
  (forall r, R r r) -> lift R s s.
Proof. intros HR. split; [reflexivity|]. intros k r H. eauto. Qed.

Lemma lift_trans (R : activity -> activity -> Prop) (s1 s2 s3 : dict) :
  (forall a b c, R a b -> R b c -> R a c) ->
  lift R s1 s2 -> lift R s2 s3 -> lift R s1 s3.
Proof.
  intros HR [K1 H1] [K2 H2]. split; [congruence|].
  intros k r Hk. destruct (H1 k r Hk) as (r2 & Hk2 & R12).
  destruct (H2 k r2 Hk2) as (r3 & Hk3 & R23). eauto.
Qed.

Lemma lift_set (R : activity -> activity -> Prop) (s : dict) (k : string)
      (r r' : activity) :
  (forall r, R r r) -> dict_get s k = Some r -> R r r' ->
  lift R s (dict_set s k r').
Proof.
  intros HR Hk Hr. split.
  - apply keys_set_present. eapply dict_get_some_keys; eauto.
  - intros k0 r0 H0. rewrite dict_get_set.
    destruct (String.eqb k k0) eqn:E.
    + apply String.eqb_eq in E. subst k0. exists r'. split; [reflexivity|].
      congruence.
    + eauto.
Qed.

Lemma lift_none (R : activity -> activity -> Prop) (s s' : dict) (k : string) :
  lift R s s' -> dict_get s k = None -> dict_get s' k = None.
Proof.
  intros [K _] H. destruct (dict_get s' k) eqn:E; [|reflexivity].
  apply dict_get_some_keys in E. rewrite K in E.
  apply dict_get_keys in E. congruence.
Qed.

Lemma lift_weaken (R R' : activity -> activity -> Prop) (s s' : dict) :
  (forall a b, R a b -> R' a b) -> lift R s s' -> lift R' s s'.
Proof.
  intros HR [K H]. split; [assumption|].
  intros k r Hk. destruct (H k r Hk) as (r' & ? & ?). eauto.
Qed.

(** ** Elementary steps *)

Lemma mem_In (k : string) (ks : list string) : mem k ks = true <-> In k ks.
Proof.
  unfold mem. rewrite existsb_exists. split.
  - intros (x & Hx & E). apply String.eqb_eq in E. now subst.
  - intros H. exists k. split; [assumption | apply String.eqb_refl].
Qed.

Lemma fold_max_spec (es : list Z) (e : Z) :
  In (fold_left Z.max es e) (e :: es) /\
  forall y, In y (e :: es) -> y <= fold_left Z.max es e.
Proof.
  revert e. induction es as [|x es IH]; intros e; simpl.
  - split; [auto | intros y [<-|[]]; lia].
  - destruct (IH (Z.max e x)) as [Hin Hub]. split.
    + destruct Hin as [Hin|Hin]; [|auto].
      destruct (Z.max_spec e x) as [[_ E]|[_ E]]; rewrite E in *; auto.
    + pose proof (Hub _ (or_introl eq_refl)) as Hm.
      intros y [Hy|[Hy|Hy]]; [lia | lia | apply Hub; now right].
Qed.

Lemma Forall2_In_l {A B : Type} (R : A -> B -> Prop) (l : list A) (l' : list B) :
  Forall2 R l l' -> forall x, In x l -> exists y, In y l' /\ R x y.
Proof.
  induction 1 as [|a b l l' Hab _ IH]; intros x Hx; [destruct Hx|].
  destruct Hx as [<-|Hx].
  - exists b. simpl. auto.
  - destruct (IH x Hx) as (y & ? & ?). exists y. simpl. auto.
Qed.

Lemma Forall2_In_r {A B : Type} (R : A -> B -> Prop) (l : list A) (l' : list B) :
  Forall2 R l l' -> forall y, In y l' -> exists x, In x l /\ R x y.
Proof.
  induction 1 as [|a b l l' Hab _ IH]; intros y Hy; [destruct Hy|].
  destruct Hy as [<-|Hy].
  - exists a. simpl. auto.
  - destruct (IH y Hy) as (x & ? & ?). exists x. simpl. auto.
Qed.

Lemma ef_list_cases (d : dict) (ps : list string) :
  (exists es, ef_list d ps = OK es /\
              Forall2 (fun p e => exists rp, dict_get d p = Some rp /\
                                             earliest_finish rp = e) ps es) \/
  (exists p, ef_list d ps = Raise (KeyError p) /\ In p ps /\ dict_get d p = None).
Proof.
  unfold ef_list. induction ps as [|p ps IH]; simpl.
  - left. exists []. split; [reflexivity | constructor].
  - destruct (dict_get d p) as [rp|] eqn:E.
    + rewrite (getitem_some _ _ _ E). simpl.
      destruct IH as [(es & Hes & Hall)|(q & Hq & Hin & Hnone)].
      * left. rewrite Hes. simpl. exists (earliest_finish rp :: es).
        split; [reflexivity|]. constructor; eauto.
      * right. rewrite Hq. simpl. exists q. auto.
    + right. rewrite (getitem_none _ _ E). simpl. exists p. auto.
Qed.

Lemma forward_step_cases (d : dict) (a : string) (r : activity) :
  dict_get d a = Some r ->
  (exists m, forward_step a d = OK (dict_set d a (fw_record m r)) /\
             (predecessors r = [] -> m = 0) /\
             (predecessors r <> [] ->
              (forall p, In p (predecessors r) ->
                         exists rp, dict_get d p = Some rp /\
                                    earliest_finish rp <= m) /\
              (exists p rp, In p (predecessors r) /\ dict_get d p = Some rp /\
                            earliest_finish rp = m))) \/
  (exists p, forward_step a d = Raise (KeyError p) /\
             In p (predecessors r) /\ dict_get d p = None).
Proof.
  intros Ha. unfold forward_step. rewrite (getitem_some _ _ _ Ha). simpl.
  destruct (predecessors r) as [|p0 ps] eqn:Hp.
  - left. exists 0. rewrite (store_some _ _ _ _ Ha). simpl.
    rewrite (getitem_some _ _ _ (dict_get_set_same _ _ _)). simpl.
    rewrite (store_some _ _ _ _ (dict_get_set_same _ _ _)).
    rewrite dict_set_set. split; [reflexivity|]. split; congruence.
  - destruct (ef_list_cases d (p0 :: ps))
      as [(es & Hes & Hall)|(q & Hq & Hin & Hnone)]; unfold ef_list in *.
    + left. rewrite Hes. simpl.
      inversion Hall as [|p0' e ps' es' He Hrest]; subst.
      simpl. exists (fold_left Z.max es' e).
      rewrite (store_some _ _ _ _ Ha). simpl.
      rewrite (getitem_some _ _ _ (dict_get_set_same _ _ _)). simpl.
      rewrite (store_some _ _ _ _ (dict_get_set_same _ _ _)).
      rewrite dict_set_set. split; [reflexivity|]. split; [discriminate|].
      intros _. destruct (fold_max_spec es' e) as [Hin Hub].
      assert (Hall' : Forall2 (fun p e => exists rp, dict_get d p = Some rp /\
                                                     earliest_finish rp = e)
                              (p0 :: ps) (e :: es')) by (constructor; auto).
      split.
      * intros p Hpin.
        destruct (Forall2_In_l _ _ _ Hall' p Hpin) as (y & Hy & rp & Hrp & <-).
        exists rp. split; [assumption|]. apply Hub. assumption.
      * destruct (Forall2_In_r _ _ _ Hall' _ Hin) as (p & Hpin & rp & Hrp & Hef).
        exists p, rp. auto.
    + right. rewrite Hq. simpl. exists q. auto.
Qed.

(** ** The forward pass *)

Lemma fw_keeps_refl (r : activity) : fw_keeps r r.
Proof. unfold fw_keeps. auto. Qed.

Lemma fw_keeps_trans (a b c : activity) :
  fw_keeps a b -> fw_keeps b c -> fw_keeps a c.
Proof. unfold fw_keeps. intuition congruence. Qed.

Lemma fw_keeps_record (m : Z) (r : activity) : fw_keeps r (fw_record m r).
Proof. unfold fw_keeps. simpl. auto. Qed.

Lemma lift_some_back (R : activity -> activity -> Prop) (s s' : dict)
      (k : string) (r' : activity) :
  lift R s s' -> dict_get s' k = Some r' ->
  exists r, dict_get s k = Some r /\ R r r'.
Proof.
  intros L H. destruct (dict_get s k) as [r|] eqn:E.
  - destruct (proj2 L k r E) as (r2 & H2 & HR). exists r. split; congruence.
  - rewrite (lift_none _ _ _ _ L E) in H. discriminate.
Qed.

(** The forward loop over keys of [d], started in a state that differs
    from [d] only in earliest times, either runs to completion (and then
    every predecessor met on the way is a key) or raises [KeyError] on a
    predecessor that is not a key. *)
Lemma forward_loop_cases (d : dict) :
  forall (l : list string) (s : dict),
    lift fw_keeps d s -> incl l (keys d) ->
    (exists s', for_each l forward_step s = OK s' /\ lift fw_keeps d s' /\
                forall a r p, In a l -> dict_get d a = Some r ->
                              In p (predecessors r) -> dict_get d p <> None) \/
    (exists a r p, for_each l forward_step s = Raise (KeyError p) /\
                   In a l /\ dict_get d a = Some r /\
                   In p (predecessors r) /\ dict_get d p = None).
Proof.
  induction l as [|x l IH]; intros s L Hincl.
  - left. exists s. simpl. split; [reflexivity|]. split; [exact L|].
    intros a r p [].
  - assert (Hx : In x (keys d)) by (apply Hincl; now left).
    destruct (keys_dict_get _ _ Hx) as (r0 & Hr0).
    destruct (proj2 L x r0 Hr0) as (r & Hr & K).
    assert (Hpreds : predecessors r = predecessors r0) by apply K.
    simpl. destruct (forward_step_cases s x r Hr)
      as [(m & Hstep & _ & Hm)|(p & Hstep & Hin & Hnone)].
    + rewrite Hstep. simpl.
      assert (L1 : lift fw_keeps d (dict_set s x (fw_record m r))).
      { eapply lift_trans; [apply fw_keeps_trans | exact L |].
        apply (lift_set fw_keeps s x r); auto using fw_keeps_refl, fw_keeps_record. }
      assert (Hhere : forall p, In p (predecessors r0) -> dict_get d p <> None).
      { intros p Hp Hnone. rewrite <- Hpreds in Hp.
        destruct (predecessors r) as [|q qs] eqn:E; [destruct Hp|].
        assert (Hne : q :: qs <> []) by discriminate.
        destruct (Hm Hne) as [Hall _].
        destruct (Hall p Hp) as (rp & Hrp & _).
        rewrite (lift_none _ _ _ _ L Hnone) in Hrp. discriminate. }
      destruct (IH _ L1 (fun y Hy => Hincl y (or_intror Hy)))
        as [(s' & Hs' & L' & Hall)|(a & ra & p & Hs' & Ha & Hra & Hp & Hnone)].
      * left. exists s'. split; [assumption|]. split; [assumption|].
        intros a ra p [<-|Ha] Hra Hp; [|eauto].
        apply Hhere. congruence.
      * right. exists a, ra, p. auto.
    + rewrite Hstep. simpl. right. exists x, r0, p. repeat split; auto.
      * congruence.
      * destruct (dict_get d p) as [rp|] eqn:E; [|reflexivity].
        destruct (proj2 L p rp E) as (rp' & Hrp' & _). congruence.
Qed.

Lemma closed_reflect (d : dict) : closed d = true <-> closed_prop d.
Proof.
  unfold closed, closed_prop. rewrite forallb_forall. split.
  - intros H a r p Ha Hp. specialize (H a (dict_get_some_keys _ _ _ Ha)).
    rewrite Ha in H. rewrite forallb_forall in H.
    apply dict_get_keys. apply mem_In. auto.
  - intros H a Ha. destruct (dict_get d a) as [r|] eqn:E; [|reflexivity].
    apply forallb_forall. intros p Hp. apply mem_In. apply dict_get_keys. eauto.
Qed.

Lemma closed_prop_lift (R : activity -> activity -> Prop) (s s' : dict) :
  (forall a b, R a b -> predecessors b = predecessors a) ->
  lift R s s' -> closed_prop s -> closed_prop s'.
Proof.
  intros HR L C a r' p Ha Hp.
  destruct (lift_some_back _ _ _ _ _ L Ha) as (r & Hr & Rr).
  rewrite (HR _ _ Rr) in Hp. specialize (C a r p Hr Hp).
  destruct (dict_get s p) as [rp|] eqn:E; [|congruence].
  destruct (proj2 L p rp E) as (rp' & -> & _). discriminate.
Qed.

(** The forward pass returns exactly on closed dictionaries; otherwise it
    raises [KeyError] on a missing predecessor. *)
Lemma forward_pass_cases (d : dict) :
  (closed_prop d /\ exists d1, forward_pass d = OK d1 /\ lift fw_keeps d d1) \/
  (exists a r p, forward_pass d = Raise (KeyError p) /\ dict_get d a = Some r /\
                 In p (predecessors r) /\ dict_get d p = None).
Proof.
  unfold forward_pass.
  destruct (forward_loop_cases d (keys d) d (lift_refl _ _ fw_keeps_refl)
                               (incl_refl _))
    as [(s' & Hs' & L' & Hall)|(a & ra & p & Hs' & Ha & Hra & Hp & Hnone)].
  - left. split; [|eauto]. intros a r p Ha Hp.
    apply (Hall a r p); auto. eapply dict_get_some_keys; eauto.
  - right. exists a, ra, p. auto.
Qed.

(** After one forward step on [x], the record of [x] satisfies
    [EF = ES + duration] and every other record is untouched. *)
Lemma forward_step_ok (s s' : dict) (x : string) :
  forward_step x s = OK s' ->
  exists r m, dict_get s x = Some r /\ s' = dict_set s x (fw_record m r).
Proof.
  intros H. destruct (dict_get s x) as [r|] eqn:E.
  - destruct (forward_step_cases s x r E) as [(m & Hm & _)|(p & Hp & _)].
    + exists r, m. split; congruence.
    + congruence.
  - unfold forward_step in H. rewrite (getitem_none _ _ E) in H. discriminate.
Qed.

Lemma forward_pass_finish (d d1 : dict) :
  forward_pass d = OK d1 ->
  forall k r, dict_get d1 k = Some r ->
              earliest_finish r = earliest_start r + duration r.
Proof.
  intros H.
  assert (P : keys d1 = keys d /\
              forall a, In a (keys d) -> forall r, dict_get d1 a = Some r ->
                earliest_finish r = earliest_start r + duration r).
  { unfold forward_pass in H. revert H.
    apply (for_each_partial forward_step (keys d)
             (fun l s => keys s = keys d /\
                         forall a, In a l -> forall r, dict_get s a = Some r ->
                           earliest_finish r = earliest_start r + duration r)).
    - split; [reflexivity | intros a []].
    - intros l1 x l2 s s' Hk [Ks Hs] Hstep.
      destruct (forward_step_ok _ _ _ Hstep) as (r & m & Hr & ->). split.
      + rewrite <- Ks. apply keys_set_present. eapply dict_get_some_keys; eauto.
      + intros a Ha r' Hr'. rewrite dict_get_set in Hr'.
        destruct (String.eqb x a) eqn:E.
        * injection Hr' as <-. reflexivity.
        * apply in_app_or in Ha. destruct Ha as [Ha|[->|[]]]; [eauto|].
          rewrite String.eqb_refl in E. discriminate. }
  destruct P as [K P]. intros k r Hk. apply (P k); auto.
  rewrite <- K. eapply dict_get_some_keys; eauto.
Qed.

(** *** Topological insertion order *)

Lemma topo_from_prop (d : dict) :
  forall seen, topo_from seen d = true -> NoDup (keys d) ->
  forall l1 x l2 r, keys d = l1 ++ x :: l2 -> dict_get d x = Some r ->
  forall p, In p (predecessors r) -> In p seen \/ In p l1.
Proof.
  induction d as [|[a ra] d IH]; intros seen Ht Hnd l1 x l2 r Hk Hx p Hp.
  - destruct l1; discriminate.
  - simpl in Ht. apply andb_true_iff in Ht. destruct Ht as [Hhere Hrest].
    simpl in Hk, Hnd, Hx. inversion Hnd as [|? ? Hnotin Hnd']; subst.
    destruct l1 as [|b l1]; simpl in Hk; injection Hk as Hb Hk.
    + subst x. rewrite String.eqb_refl in Hx. injection Hx as <-.
      left. rewrite forallb_forall in Hhere. apply mem_In. auto.
    + subst b. destruct (String.eqb a x) eqn:E.
      * apply String.eqb_eq in E. subst x. exfalso. apply Hnotin.
        rewrite Hk. apply in_or_app. right. now left.
      * destruct (IH (a :: seen) Hrest Hnd' l1 x l2 r Hk Hx p Hp) as [[<-|H]|H].
        -- right. now left.
        -- now left.
        -- right. now right.
Qed.

Lemma topo_order_prop (d : dict) :
  topo_order d = true -> NoDup (keys d) -> topo_prop d.
Proof.
  intros Ht Hnd l1 x l2 r Hk Hx p Hp.
  destruct (topo_from_prop d [] Ht Hnd l1 x l2 r Hk Hx p Hp) as [[]|H].
  exact H.
Qed.

Lemma topo_prefix (d : dict) (l1 l2 : list string) (x : string) :
  topo_prop d -> keys d = l1 ++ x :: l2 ->
  forall a r p, In a (l1 ++ [x]) -> dict_get d a = Some r ->
                In p (predecessors r) -> In p l1.
Proof.
  intros Ht Hk a r p Ha Hr Hp. apply in_app_or in Ha.
  destruct Ha as [Ha|[<-|[]]].
  - destruct (in_split _ _ Ha) as (la & lb & ->).
    rewrite <- app_assoc in Hk. simpl in Hk.
    apply in_or_app. left. apply (Ht la a (lb ++ x :: l2) r Hk Hr p Hp).
  - apply (Ht l1 x l2 r Hk Hr p Hp).
Qed.

Lemma topo_closed (d : dict) : topo_prop d -> closed_prop d.
Proof.
  intros Ht a r p Ha Hp.
  destruct (in_split _ _ (dict_get_some_keys _ _ _ Ha)) as (l1 & l2 & Hk).
  apply dict_get_keys. rewrite Hk. apply in_or_app. left.
  apply (Ht l1 a l2 r Hk Ha p Hp).
Qed.

Lemma NoDup_split_notin (l1 l2 : list string) (x : string) :
  NoDup (l1 ++ x :: l2) -> ~ In x l1 /\ ~ In x l2.
Proof.
  intros H. apply NoDup_remove_2 in H. split; intros Hin; apply H;
    apply in_or_app; auto.
Qed.

Lemma es_ok_frame (s s' : dict) (r : activity) :
  (forall p, In p (predecessors r) -> dict_get s' p = dict_get s p) ->
  es_ok s r -> es_ok s' r.
Proof.
  intros Hf [H0 H1]. split; [assumption|]. intros Hne.
  destruct (H1 Hne) as (Hub & (q & rq & Hq & Hrq & Heq) & Hef).
  split; [|split; [|assumption]].
  - intros p Hp. rewrite (Hf p Hp). auto.
  - exists q, rq. rewrite (Hf q Hq). auto.
Qed.

(** On a dictionary whose insertion order is topological the forward pass
    returns, and every record then has the promised earliest times. *)
Lemma forward_pass_topo (d : dict) :
  NoDup (keys d) -> topo_prop d ->
  exists d1, forward_pass d = OK d1 /\ lift fw_keeps d d1 /\
             forall a r, dict_get d1 a = Some r -> es_ok d1 r.
Proof.
  intros Hnd Ht.
  destruct (for_each_total forward_step (keys d)
              (fun l s => lift fw_keeps d s /\
                          forall a, In a l -> forall r, dict_get s a = Some r ->
                                                        es_ok s r) d)
    as (d1 & Hd1 & L1 & Hall).
  - split; [apply lift_refl, fw_keeps_refl | intros a []].
  - intros l1 x l2 s Hk [L Hs].
    rewrite Hk in Hnd. destruct (NoDup_split_notin _ _ _ Hnd) as [Hx1 _].
    assert (Hxk : In x (keys d)).
    { rewrite Hk. apply in_or_app. right. now left. }
    destruct (keys_dict_get _ _ Hxk) as (r0 & Hr0).
    destruct (proj2 L x r0 Hr0) as (r & Hr & K).
    assert (Hin1 : forall a ra p, In a (l1 ++ [x]) -> dict_get s a = Some ra ->
                                  In p (predecessors ra) -> In p l1).
    { intros a ra p Ha Hra Hp.
      destruct (lift_some_back _ _ _ _ _ L Hra) as (ra0 & Hra0 & Ka).
      apply (topo_prefix d l1 l2 x Ht Hk a ra0 p Ha Hra0).
      destruct Ka as (_ & <- & _). exact Hp. }
    assert (Hneq : forall p, In p l1 -> String.eqb x p = false).
    { intros p Hp. apply String.eqb_neq. intros ->. auto. }
    assert (Hxin : In x (l1 ++ [x])) by (apply in_or_app; right; now left).
    destruct (forward_step_cases s x r Hr)
      as [(m & Hstep & Hm0 & Hm)|(p & Hstep & Hin & Hnone)].
    + exists (dict_set s x (fw_record m r)). split; [assumption|]. split.
      * eapply lift_trans; [apply fw_keeps_trans | exact L |].
        apply (lift_set fw_keeps s x r); auto using fw_keeps_refl, fw_keeps_record.
      * intros a Ha ra Hra.
        assert (Hframe : forall q, In q l1 ->
                   dict_get (dict_set s x (fw_record m r)) q = dict_get s q).
        { intros q Hq. rewrite dict_get_set, (Hneq q Hq). reflexivity. }
        rewrite dict_get_set in Hra. destruct (String.eqb x a) eqn:E.
        -- apply String.eqb_eq in E. subst a. injection Hra as <-.
           assert (Hpx : forall q, In q (predecessors r) -> In q l1).
           { intros q Hq. apply (Hin1 x r q Hxin Hr Hq). }
           split; simpl.
           ++ intros Hnil. rewrite (Hm0 Hnil). auto.
           ++ intros Hne. destruct (Hm Hne) as (Hub & q & rq & Hq & Hrq & Heq).
              split; [|split; [|reflexivity]].
              ** intros p Hp. rewrite (Hframe p (Hpx p Hp)). auto.
              ** exists q, rq. rewrite (Hframe q (Hpx q Hq)). auto.
        -- assert (Ha1 : In a l1).
           { apply in_app_or in Ha. destruct Ha as [Ha|[->|[]]]; [assumption|].
             rewrite String.eqb_refl in E. discriminate. }
           apply (es_ok_frame s); [|apply (Hs a Ha1 ra Hra)].
           intros p Hp. apply Hframe. apply (Hin1 a ra p); auto.
    + exfalso. assert (Hp1 : In p l1).
      { apply (Hin1 x r p Hxin Hr Hin). }
      assert (Hpk : In p (keys s)).
      { rewrite (proj1 L), Hk. apply in_or_app. now left. }
      apply dict_get_keys in Hpk. congruence.
  - exists d1. unfold forward_pass. split; [assumption|]. split; [assumption|].
    intros a r Hr. apply (Hall a); auto.
    rewrite <- (proj1 L1). eapply dict_get_some_keys; eauto.
Qed.

(** ** The backward pass *)

Lemma num_le_refl (x : num) : num_le x x.
Proof. destruct x; simpl; auto. lia. Qed.

Lemma num_le_trans (x y z : num) : num_le x y -> num_le y z -> num_le x z.
Proof. destruct x, y, z; simpl; auto; try tauto. lia. Qed.

Lemma num_le_finite (x y : num) : num_le x y -> y <> Inf -> x <> Inf.
Proof. destruct x, y; simpl; congruence || tauto. Qed.

Lemma py_min_le_l (x y : num) : num_le (py_min x y) x.
Proof.
  unfold py_min. destruct (num_ltb y x) eqn:E; [|apply num_le_refl].
  destruct x, y; simpl in *; auto; try discriminate.
  apply Z.ltb_lt in E. lia.
Qed.

Lemma py_min_le_r (x y : num) : num_le (py_min x y) y.
Proof.
  unfold py_min. destruct (num_ltb y x) eqn:E; [apply num_le_refl|].
  destruct x, y; simpl in *; auto; try discriminate.
  apply Z.ltb_ge in E. lia.
Qed.

Lemma bw_keeps_refl (r : activity) : bw_keeps r r.
Proof. unfold bw_keeps. auto 10 using num_le_refl. Qed.

Lemma bw_keeps_trans (a b c : activity) :
  bw_keeps a b -> bw_keeps b c -> bw_keeps a c.
Proof.
  unfold bw_keeps. intros (D1 & P1 & S1 & F1 & L1 & I1) (D2 & P2 & S2 & F2 & L2 & I2).
  repeat split; try congruence; eauto using num_le_trans.
Qed.

Lemma bw_keeps_anchored (r : activity) : bw_keeps r (anchored r).
Proof.
  unfold bw_keeps, anchored. simpl. repeat split; auto.
  destruct (latest_finish r); simpl; auto. lia.
Qed.

Lemma bw_keeps_tightened (v : num) (r : activity) : bw_keeps r (tightened v r).
Proof.
  unfold bw_keeps, tightened. simpl. repeat split; auto using py_min_le_l.
Qed.

Lemma anchor_some (d : dict) (a : string) (r : activity) :
  dict_get d a = Some r -> anchor a d = OK (dict_set d a (anchored r)).
Proof.
  intros Ha. unfold anchor, anchored. rewrite (getitem_some _ _ _ Ha). simpl.
  destruct (num_eqb (latest_finish r) Inf) eqn:E.
  - rewrite (store_some _ _ _ _ Ha). simpl.
    rewrite (getitem_some _ _ _ (dict_get_set_same _ _ _)). simpl.
    rewrite (store_some _ _ _ _ (dict_get_set_same _ _ _)).
    now rewrite dict_set_set.
  - simpl. rewrite (getitem_some _ _ _ Ha). simpl.
    rewrite (store_some _ _ _ _ Ha). now destruct r.
Qed.

Lemma anchor_none (d : dict) (a : string) :
  dict_get d a = None -> anchor a d = Raise (KeyError a).
Proof. intros Ha. unfold anchor. now rewrite (getitem_none _ _ Ha). Qed.

Lemma tighten_some (d : dict) (a p : string) (ra rp : activity) :
  dict_get d p = Some rp -> dict_get d a = Some ra ->
  tighten a p d = OK (dict_set d p (tightened (latest_start ra) rp)).
Proof.
  intros Hp Ha. unfold tighten, tightened.
  rewrite (getitem_some _ _ _ Hp). simpl. rewrite (getitem_some _ _ _ Ha). simpl.
  rewrite (store_some _ _ _ _ Hp). simpl.
  rewrite (getitem_some _ _ _ (dict_get_set_same _ _ _)). simpl.
  rewrite (store_some _ _ _ _ (dict_get_set_same _ _ _)).
  now rewrite dict_set_set.
Qed.

Lemma tighten_none (d : dict) (a p : string) :
  dict_get d p = None -> tighten a p d = Raise (KeyError p).
Proof. intros Hp. unfold tighten. now rewrite (getitem_none _ _ Hp). Qed.

Lemma anchored_finite (r : activity) : latest_finish (anchored r) <> Inf.
Proof.
  unfold anchored. simpl. destruct (latest_finish r); simpl; discriminate.
Qed.

(** One visit of the backward pass, in a state where the visited activity
    and its predecessors are keys. *)
Lemma visit_total (s : dict) (x : string) (r : activity) :
  dict_get s x = Some r ->
  (forall p, In p (predecessors r) -> dict_get s p <> None) ->
  exists s',
    visit x s = OK s' /\ lift bw_keeps s s' /\
    (forall k, k <> x -> ~ In k (predecessors r) -> dict_get s' k = dict_get s k) /\
    (exists rx, dict_get s' x = Some rx /\ latest_finish rx <> Inf) /\
    (~ In x (predecessors r) ->
     dict_get s' x = Some (anchored r) /\
     forall p, In p (predecessors r) ->
               exists rp, dict_get s' p = Some rp /\
                          num_le (latest_finish rp) (latest_start (anchored r))).
Proof.
  intros Hx Hps. unfold visit. rewrite (anchor_some _ _ _ Hx). simpl.
  set (s1 := dict_set s x (anchored r)).
  assert (Hx1 : dict_get s1 x = Some (anchored r)) by apply dict_get_set_same.
  assert (L1 : lift bw_keeps s s1).
  { apply (lift_set bw_keeps s x r); auto using bw_keeps_refl, bw_keeps_anchored. }
  rewrite (getitem_some _ _ _ Hx1). simpl.
  change (predecessors (anchored r)) with (predecessors r).
  destruct (for_each_total (tighten x) (predecessors r)
              (fun l t =>
                 lift bw_keeps s1 t /\
                 (forall k, ~ In k l -> dict_get t k = dict_get s1 k) /\
                 (~ In x (predecessors r) ->
                  forall p, In p l ->
                    exists rp, dict_get t p = Some rp /\
                      num_le (latest_finish rp) (latest_start (anchored r)))) s1)
    as (s' & Hs' & L' & Hframe & Hedge).
  - split; [apply lift_refl, bw_keeps_refl|]. split; [reflexivity|].
    intros _ p [].
  - intros l1 p l2 t Hk (Lt & Ft & Et).
    assert (Hp : In p (predecessors r)).
    { rewrite Hk. apply in_or_app. right. now left. }
    destruct (dict_get s p) as [rp0|] eqn:Hp0; [|exfalso; now apply (Hps p Hp)].
    destruct (proj2 L1 p rp0 Hp0) as (rp1 & Hp1 & _).
    destruct (proj2 Lt p rp1 Hp1) as (rp & Hpt & _).
    destruct (proj2 Lt x _ Hx1) as (rx & Hxt & _).
    exists (dict_set t p (tightened (latest_start rx) rp)).
    split; [apply (tighten_some _ _ _ _ _ Hpt Hxt)|]. split; [|split].
    + eapply lift_trans; [apply bw_keeps_trans | exact Lt |].
      apply (lift_set bw_keeps t p rp); auto using bw_keeps_refl, bw_keeps_tightened.
    + intros k Hk1. rewrite dict_get_set.
      destruct (String.eqb p k) eqn:E.
      * apply String.eqb_eq in E. subst k. exfalso. apply Hk1.
        apply in_or_app. right. now left.
      * apply Ft. intros Hin. apply Hk1. apply in_or_app. now left.
    + intros Hnx q Hq. rewrite dict_get_set.
      assert (Hrx : rx = anchored r).
      { assert (Hxl : ~ In x l1).
        { intros Hin. apply Hnx. rewrite Hk. apply in_or_app. now left. }
        rewrite (Ft x Hxl), Hx1 in Hxt. congruence. }
      destruct (String.eqb p q) eqn:E.
      * exists (tightened (latest_start rx) rp). split; [reflexivity|].
        rewrite Hrx. unfold tightened at 1. simpl. apply py_min_le_r.
      * apply Et; [assumption|]. apply in_app_or in Hq.
        destruct Hq as [Hq|[->|[]]]; [assumption|].
        rewrite String.eqb_refl in E. discriminate.
  - exists s'. split; [assumption|]. split; [|split; [|split]].
    + eapply lift_trans; [apply bw_keeps_trans | exact L1 | exact L'].
    + intros k Hkx Hkp. rewrite (Hframe k Hkp). unfold s1.
      apply dict_get_set_other. congruence.
    + destruct (proj2 L' x _ Hx1) as (rx & Hrx & K). exists rx.
      split; [assumption|]. eapply num_le_finite; [apply K|].
      apply anchored_finite.
    + intros Hnx. split; [|auto]. now rewrite (Hframe x Hnx).
Qed.

Lemma visit_none (s : dict) (x : string) :
  dict_get s x = None -> visit x s = Raise (KeyError x).
Proof. intros H. unfold visit. now rewrite (anchor_none _ _ H). Qed.

Lemma bw_keeps_preds (a b : activity) : bw_keeps a b -> predecessors b = predecessors a.
Proof. intros K. apply K. Qed.

Lemma fw_keeps_preds (a b : activity) : fw_keeps a b -> predecessors b = predecessors a.
Proof. intros K. apply K. Qed.

(** The visited activity and its predecessors are keys of every state that
    [lift]s a closed dictionary. *)
Lemma closed_visit_ready (d s : dict) (x : string) :
  closed_prop d -> lift bw_keeps d s -> In x (keys d) ->
  exists r, dict_get s x = Some r /\
            forall p, In p (predecessors r) -> dict_get s p <> None.
Proof.
  intros C L Hx. destruct (keys_dict_get _ _ Hx) as (r0 & Hr0).
  destruct (proj2 L x r0 Hr0) as (r & Hr & K). exists r. split; [assumption|].
  intros p Hp. apply (closed_prop_lift bw_keeps d s bw_keeps_preds L C x r p Hr Hp).
Qed.

(** On a closed dictionary the backward pass returns; it only tightens,
    and leaves every latest finish finite. *)
Lemma backward_total (d : dict) :
  closed_prop d ->
  exists d2, backward_pass d = OK d2 /\ lift bw_keeps d d2 /\
             forall k r, dict_get d2 k = Some r -> latest_finish r <> Inf.
Proof.
  intros C. unfold backward_pass.
  destruct (for_each_total visit (rev (keys d))
              (fun l s => lift bw_keeps d s /\
                          forall a, In a l -> forall r, dict_get s a = Some r ->
                                                        latest_finish r <> Inf) d)
    as (d2 & Hd2 & L2 & Hfin).
  - split; [apply lift_refl, bw_keeps_refl | intros a []].
  - intros l1 x l2 s Hk [L Hs].
    assert (Hx : In x (keys d)).
    { apply in_rev. rewrite Hk. apply in_or_app. right. now left. }
    destruct (closed_visit_ready d s x C L Hx) as (r & Hr & Hps).
    destruct (visit_total s x r Hr Hps) as (s' & Hv & L' & _ & (rx & Hrx & Hfx) & _).
    exists s'. split; [assumption|]. split.
    + eapply lift_trans; [apply bw_keeps_trans | exact L | exact L'].
    + intros a Ha ra Hra. apply in_app_or in Ha. destruct Ha as [Ha|[->|[]]].
      * destruct (lift_some_back _ _ _ _ _ L' Hra) as (ra0 & Hra0 & K).
        eapply num_le_finite; [apply K | eauto].
      * congruence.
  - exists d2. split; [assumption|]. split; [assumption|].
    intros k r Hr. apply (Hfin k); auto. apply -> in_rev.
    rewrite <- (proj1 L2). eapply dict_get_some_keys; eauto.
Qed.

Lemma rev_split_keys (ks l1 l2 : list string) (x : string) :
  rev ks = l1 ++ x :: l2 -> ks = rev l2 ++ x :: rev l1.
Proof.
  intros H. rewrite <- (rev_involutive ks), H, rev_app_distr. simpl.
  now rewrite <- app_assoc.
Qed.

(** With a topological insertion order, every precedence edge ends the
    backward pass with the predecessor's latest finish at or before the
    successor's latest start. *)
Lemma backward_topo (d : dict) :
  NoDup (keys d) -> topo_prop d ->
  exists d2, backward_pass d = OK d2 /\ lift bw_keeps d d2 /\
             forall a ra p, dict_get d2 a = Some ra -> In p (predecessors ra) ->
               exists rp, dict_get d2 p = Some rp /\
                          num_le (latest_finish rp) (latest_start ra).
Proof.
  intros Hnd Ht. pose proof (topo_closed d Ht) as C. unfold backward_pass.
  destruct (for_each_total visit (rev (keys d))
              (fun l s => lift bw_keeps d s /\
                 forall a, In a l -> forall ra, dict_get s a = Some ra ->
                 forall p, In p (predecessors ra) ->
                   exists rp, dict_get s p = Some rp /\
                              num_le (latest_finish rp) (latest_start ra)) d)
    as (d2 & Hd2 & L2 & Hedge).
  - split; [apply lift_refl, bw_keeps_refl | intros a []].
  - intros l1 x l2 s Hk [L Hs].
    apply rev_split_keys in Hk.
    assert (Hx : In x (keys d)).
    { rewrite Hk. apply in_or_app. right. now left. }
    rewrite Hk in Hnd.
    assert (Hdisj : forall q, In q (rev l2) -> q <> x /\ ~ In q l1).
    { intros q Hq. apply NoDup_remove in Hnd. destruct Hnd as [Hnd' Hnx].
      split.
      - intros ->. apply Hnx. apply in_or_app. now left.
      - intros Hq1. apply in_rev in Hq1.
        destruct (in_split _ _ Hq) as (u & v & Hu). rewrite Hu in Hnd'.
        rewrite <- app_assoc in Hnd'. simpl in Hnd'.
        apply NoDup_remove_2 in Hnd'. apply Hnd'.
        apply in_or_app. right. apply in_or_app. now right. }
    destruct (closed_visit_ready d s x C L Hx) as (r & Hr & Hps).
    assert (Hpx : forall p, In p (predecessors r) -> In p (rev l2)).
    { intros p Hp. destruct (lift_some_back _ _ _ _ _ L Hr) as (r0 & Hr0 & K).
      apply (Ht (rev l2) x (rev l1) r0 Hk Hr0).
      rewrite <- (bw_keeps_preds _ _ K). exact Hp. }
    assert (Hnx : ~ In x (predecessors r)).
    { intros Hin. destruct (Hdisj x (Hpx x Hin)) as [Hne _]. now apply Hne. }
    destruct (visit_total s x r Hr Hps)
      as (s' & Hv & L' & Hframe & _ & Hanch).
    destruct (Hanch Hnx) as [Hx' Hedge'].
    exists s'. split; [assumption|]. split.
    + eapply lift_trans; [apply bw_keeps_trans | exact L | exact L'].
    + intros a Ha ra Hra p Hp. apply in_app_or in Ha.
      destruct Ha as [Ha|[->|[]]].
      * assert (Hsame : dict_get s' a = dict_get s a).
        { apply Hframe.
          - intros ->. apply NoDup_remove_2 in Hnd. apply Hnd.
            apply in_or_app. right. now apply -> in_rev.
          - intros Hin. destruct (Hdisj a (Hpx a Hin)) as [_ Hn]. now apply Hn. }
        rewrite Hsame in Hra.
        destruct (Hs a Ha ra Hra p Hp) as (rp & Hrp & Hle).
        destruct (proj2 L' p rp Hrp) as (rp' & Hrp' & K).
        exists rp'. split; [assumption|].
        eapply num_le_trans; [apply K | exact Hle].
      * rewrite Hx' in Hra. injection Hra as <-. apply Hedge'. exact Hp.
  - exists d2. split; [assumption|]. split; [assumption|].
    intros a ra p Hra Hp. apply (Hedge a); auto. apply -> in_rev.
    rewrite <- (proj1 L2). eapply dict_get_some_keys; eauto.
Qed.

(** When the last key is nobody's predecessor, it is anchored by the first
    visit of the backward pass and never touched again. *)
Lemma backward_sink_last (d : dict) (ks : list string) (l : string) (rl : activity) :
  closed_prop d -> NoDup (keys d) -> keys d = ks ++ [l] ->
  (forall a r, dict_get d a = Some r -> ~ In l (predecessors r)) ->
  dict_get d l = Some rl ->
  exists d2, backward_pass d = OK d2 /\ lift bw_keeps d d2 /\
             dict_get d2 l = Some (anchored rl).
Proof.
  intros C Hnd Hk Hsink Hl. unfold backward_pass.
  rewrite Hk, rev_app_distr. simpl.
  assert (Hlk : In l (keys d)) by (eapply dict_get_some_keys; eauto).
  destruct (visit_total d l rl Hl (fun p => C l rl p Hl))
    as (s1 & Hv & L1 & _ & _ & Hanch).
  destruct (Hanch (Hsink l rl Hl)) as [Hl1 _].
  rewrite Hv. simpl. rewrite Hk in Hnd.
  destruct (for_each_total visit (rev ks)
              (fun _ s => lift bw_keeps d s /\ dict_get s l = Some (anchored rl)) s1)
    as (d2 & Hd2 & L2 & Hl2); [auto | | eauto].
  intros l1 x l2 s Hr [L Hs].
  assert (Hxin : In x ks).
  { apply in_rev. rewrite Hr. apply in_or_app. right. now left. }
  assert (Hx : In x (keys d)).
  { rewrite Hk. apply in_or_app. now left. }
  destruct (closed_visit_ready d s x C L Hx) as (r & Hrx & Hps).
  destruct (visit_total s x r Hrx Hps) as (s' & Hv' & L' & Hframe & _).
  exists s'. split; [assumption|]. split.
  - eapply lift_trans; [apply bw_keeps_trans | exact L | exact L'].
  - rewrite Hframe; [assumption | |].
    + intros ->. apply NoDup_remove_2 in Hnd. apply Hnd.
      rewrite app_nil_r. exact Hxin.
    + destruct (lift_some_back _ _ _ _ _ L Hrx) as (r0 & Hr0 & K).
      rewrite (bw_keeps_preds _ _ K). apply (Hsink x r0 Hr0).
Qed.

(** ** Building the dictionary *)

Lemma build_loop_zip (acts : list string) :
  forall durs preds pa pd pp d,
    List.length pa = List.length pd -> List.length pd = List.length pp ->
    for_each (seq (List.length pa) (List.length acts))
             (build_step (pa ++ acts) (pd ++ durs) (pp ++ preds)) d
    = build_zip acts durs preds d.
Proof.
  induction acts as [|a acts IH]; intros durs preds pa pd pp d H1 H2;
    [reflexivity|].
  cbn [List.length seq for_each build_zip]. unfold build_step at 1.
  unfold list_getitem.
  rewrite (nth_error_app2 pd durs) by lia.
  rewrite (nth_error_app2 pp preds) by lia.
  rewrite (nth_error_app2 pa (a :: acts)) by lia.
  replace (List.length pa - List.length pd)%nat with 0%nat by lia.
  replace (List.length pa - List.length pp)%nat with 0%nat by lia.
  rewrite Nat.sub_diag.
  destruct durs as [|s durs]; [reflexivity|]. cbn [nth_error bind].
  destruct (int_of_str s) as [n|e]; [|reflexivity]. cbn [bind].
  destruct preds as [|ps preds]; [reflexivity|]. cbn [nth_error bind].
  fold (new_record n ps).
  specialize (IH durs preds (pa ++ [a]) (pd ++ [s]) (pp ++ [ps])
                 (dict_set d a (new_record n ps))).
  rewrite <- !app_assoc in IH. cbn [app] in IH.
  rewrite !length_app in IH. cbn [List.length] in IH.
  replace (List.length pa + 1)%nat with (S (List.length pa)) in IH by lia.
  apply IH; lia.
Qed.

Lemma build_is_zip (acts durs preds : list string) :
  build acts durs preds = build_zip acts durs preds [].
Proof. apply (build_loop_zip acts durs preds [] [] [] []); reflexivity. Qed.

Lemma keys_set (d : dict) (k : string) (v : activity) :
  keys (dict_set d k v) = if mem k (keys d) then keys d else keys d ++ [k].
Proof.
  destruct (mem k (keys d)) eqn:E.
  - apply keys_set_present. now apply mem_In.
  - apply keys_set_absent. intros H. apply mem_In in H. congruence.
Qed.

Lemma build_zip_facts (acts : list string) :
  forall durs preds d d',
    build_zip acts durs preds d = OK d' ->
    (NoDup (keys d) -> NoDup (keys d')) /\
    ((forall k r, dict_get d k = Some r -> fresh r) ->
     forall k r, dict_get d' k = Some r -> fresh r) /\
    keys d' = fold_left (fun ks a => if mem a ks then ks else ks ++ [a])
                        acts (keys d).
Proof.
  induction acts as [|a acts IH]; intros durs preds d d' H; simpl in H.
  - injection H as <-. auto.
  - destruct durs as [|s durs]; [discriminate|].
    destruct (int_of_str s) as [n|e]; [|discriminate]. simpl in H.
    destruct preds as [|ps preds]; [discriminate|].
    destruct (IH _ _ _ _ H) as (Hnd & Hfresh & Hkeys). split; [|split].
    + intros Hd. apply Hnd. rewrite keys_set.
      destruct (mem a (keys d)) eqn:E; [assumption|].
      apply NoDup_app; [assumption | repeat constructor; intros [] |].
      intros x Hx [<-|[]]. apply mem_In in Hx. congruence.
    + intros Hd. apply Hfresh. intros k r. rewrite dict_get_set.
      destruct (String.eqb a k); [|apply Hd].
      intros [= <-]. unfold fresh, new_record. simpl. auto.
    + rewrite Hkeys, keys_set. reflexivity.
Qed.

Lemma build_facts (acts durs preds : list string) (d0 : dict) :
  build acts durs preds = OK d0 ->
  NoDup (keys d0) /\ (forall k r, dict_get d0 k = Some r -> fresh r) /\
  keys d0 = first_occurrences acts.
Proof.
  rewrite build_is_zip. intros H.
  destruct (build_zip_facts _ _ _ _ _ H) as (Hnd & Hfresh & Hkeys).
  split; [apply Hnd; constructor|]. split; [|exact Hkeys].
  apply Hfresh. intros k r. discriminate.
Qed.

Lemma first_occurrences_nodup (names : list string) :
  NoDup names -> first_occurrences names = names.
Proof.
  unfold first_occurrences. intros H.
  assert (G : forall pre, NoDup (pre ++ names) ->
            fold_left (fun ks a => if mem a ks then ks else ks ++ [a]) names pre
            = pre ++ names).
  { clear H. induction names as [|a names IH]; intros pre H; simpl.
    - now rewrite app_nil_r.
    - destruct (mem a pre) eqn:E.
      + apply mem_In in E. apply NoDup_remove_2 in H. exfalso. apply H.
        apply in_or_app. now left.
      + rewrite IH; rewrite <- app_assoc; simpl; auto. }
  apply (G [] H).
Qed.

(** A duration that [int] rejects stops the building loop with
    [ValueError], whatever comes after it. *)
Lemma build_zip_bad_duration (acts : list string) :
  forall durs preds d,
    List.length acts = List.length durs ->
    List.length durs = List.length preds ->
    (exists s, In s durs /\ py_int s = None) ->
    exists s, build_zip acts durs preds d = Raise (ValueError s) /\
              In s durs /\ py_int s = None.
Proof.
  induction acts as [|a acts IH]; intros durs preds d H1 H2 (s0 & Hin & Hbad).
  - destruct durs; [destruct Hin | discriminate].
  - destruct durs as [|s durs]; [discriminate|].
    destruct preds as [|ps preds]; [discriminate|].
    simpl. unfold int_of_str. destruct (py_int s) as [n|] eqn:E.
    + simpl. destruct Hin as [<-|Hin]; [congruence|].
      destruct (IH durs preds (dict_set d a (new_record n ps)))
        as (s' & Hs' & Hin' & Hbad'); simpl in *; try lia; eauto.
    + exists s. simpl. auto.
Qed.

(** ** The critical path *)

Lemma num_eqb_eq (x y : num) : num_eqb x y = true <-> x = y.
Proof.
  destruct x, y; simpl; split; try congruence; auto.
  - intros H. apply Z.eqb_eq in H. congruence.
  - intros [= ->]. apply Z.eqb_refl.
Qed.

Lemma critical_loop (d : dict) :
  forall l acc, incl l (keys d) ->
    for_each l (critical_step d) acc = OK (acc ++ filter (is_critical d) l).
Proof.
  induction l as [|a l IH]; intros acc Hincl; cbn [for_each filter].
  - now rewrite app_nil_r.
  - destruct (keys_dict_get d a (Hincl a (or_introl eq_refl))) as (r & Hr).
    unfold critical_step at 1, is_critical at 1.
    rewrite (getitem_some _ _ _ Hr), Hr. cbn [bind].
    destruct (num_eqb (Int (earliest_start r)) (latest_start r)); cbn [bind].
    + rewrite IH by (intros y Hy; apply Hincl; now right).
      now rewrite <- app_assoc.
    + apply IH. intros y Hy. apply Hincl. now right.
Qed.

Lemma critical_path_filter (d : dict) :
  critical_path d = OK (filter (is_critical d) (keys d)).
Proof. unfold critical_path. apply (critical_loop d (keys d) []), incl_refl. Qed.

(** ** The whole computation *)

Lemma calculate_cpm_ok (acts durs preds : list string) (d0 d1 d2 : dict) :
  build acts durs preds = OK d0 -> forward_pass d0 = OK d1 ->
  backward_pass d1 = OK d2 ->
  calculate_cpm acts durs preds = OK (filter (is_critical d2) (keys d2), d2).
Proof.
  intros H0 H1 H2. unfold calculate_cpm. rewrite H0. simpl. rewrite H1. simpl.
  rewrite H2. simpl. now rewrite critical_path_filter.
Qed.

Lemma calculate_cpm_inv (acts durs preds cp : list string) (d : dict) :
  calculate_cpm acts durs preds = OK (cp, d) ->
  exists d0 d1, build acts durs preds = OK d0 /\ forward_pass d0 = OK d1 /\
                backward_pass d1 = OK d /\
                cp = filter (is_critical d) (keys d).
Proof.
  unfold calculate_cpm. intros H.
  destruct (build acts durs preds) as [d0|] eqn:H0; [|discriminate].
  simpl in H. destruct (forward_pass d0) as [d1|] eqn:H1; [|discriminate].
  simpl in H. destruct (backward_pass d1) as [d2|] eqn:H2; [|discriminate].
  simpl in H. rewrite critical_path_filter in H. simpl in H.
  injection H as <- <-. exists d0, d1. auto.
Qed.

(** ** The backward pass, update by update *)

Lemma for_each_map {A B S : Type} (f : A -> B) (body : B -> S -> result S)
      (l : list A) (s : S) :
  for_each (map f l) body s = for_each l (fun x => body (f x)) s.
Proof.
  revert s. induction l as [|x l IH]; intros s; simpl; [reflexivity|].
  destruct (body (f x) s); simpl; auto.
Qed.

Lemma run_op_ok (o : bw_op) (s s' : dict) :
  run_op o s = OK s' ->
  exists k r r', dict_get s k = Some r /\ s' = dict_set s k r' /\
                 bw_keeps r r' /\
                 latest_start r' = num_sub (latest_finish r') (duration r').
Proof.
  destruct o as [a|a p]; simpl; intros H.
  - destruct (dict_get s a) as [r|] eqn:E.
    + rewrite (anchor_some _ _ _ E) in H. injection H as <-.
      exists a, r, (anchored r). auto using bw_keeps_anchored.
    + rewrite (anchor_none _ _ E) in H. discriminate.
  - destruct (dict_get s p) as [rp|] eqn:Ep.
    + destruct (dict_get s a) as [ra|] eqn:Ea.
      * rewrite (tighten_some _ _ _ _ _ Ep Ea) in H. injection H as <-.
        exists p, rp, (tightened (latest_start ra) rp).
        auto using bw_keeps_tightened.
      * unfold tighten in H. rewrite (getitem_some _ _ _ Ep) in H. simpl in H.
        rewrite (getitem_none _ _ Ea) in H. discriminate.
    + rewrite (tighten_none _ _ _ Ep) in H. discriminate.
Qed.

Lemma run_op_lift (o : bw_op) (s s' : dict) :
  run_op o s = OK s' -> lift bw_keeps s s'.
Proof.
  intros H. destruct (run_op_ok _ _ _ H) as (k & r & r' & Hk & -> & K & _).
  apply (lift_set bw_keeps s k r); auto using bw_keeps_refl.
Qed.

Lemma run_ops_lift (ops : list bw_op) (s s' : dict) :
  run_ops ops s = OK s' -> lift bw_keeps s s'.
Proof.
  unfold run_ops.
  apply (for_each_partial run_op ops (fun _ t => lift bw_keeps s t)).
  - apply lift_refl, bw_keeps_refl.
  - intros l1 o l2 t t' _ Lt Ho.
    eapply lift_trans; [apply bw_keeps_trans | exact Lt |].
    exact (run_op_lift o t t' Ho).
Qed.

Lemma visit_as_ops (d s : dict) (x : string) :
  lift bw_keeps d s -> visit x s = run_ops (visit_ops d x) s.
Proof.
  intros L. unfold visit_ops, run_ops, preds_of. cbn [for_each run_op].
  destruct (dict_get d x) as [r0|] eqn:E0.
  - destruct (proj2 L x r0 E0) as (r & Hr & K). unfold visit.
    rewrite (anchor_some _ _ _ Hr). cbn [bind].
    rewrite (getitem_some _ _ _ (dict_get_set_same _ _ _)). cbn [bind].
    change (predecessors (anchored r)) with (predecessors r).
    rewrite (bw_keeps_preds _ _ K), for_each_map. reflexivity.
  - rewrite (visit_none _ _ (lift_none _ _ _ _ L E0)).
    now rewrite (anchor_none _ _ (lift_none _ _ _ _ L E0)).
Qed.

Lemma backward_loop_ops (d : dict) :
  forall l s, lift bw_keeps d s ->
              for_each l visit s = run_ops (flat_map (visit_ops d) l) s.
Proof.
  induction l as [|x l IH]; intros s L; [reflexivity|].
  cbn [for_each flat_map]. unfold run_ops. rewrite for_each_app.
  fold (run_ops (visit_ops d x) s). rewrite <- (visit_as_ops d s x L).
  destruct (visit x s) as [s'|e] eqn:E; [|reflexivity]. cbn [bind].
  apply IH. eapply lift_trans; [apply bw_keeps_trans | exact L |].
  apply (run_ops_lift (visit_ops d x)). now rewrite <- (visit_as_ops d s x L).
Qed.

Lemma backward_pass_as_ops (d : dict) :
  backward_pass d = run_ops (backward_ops d) d.
Proof.
  unfold backward_pass, backward_ops.
  apply backward_loop_ops, lift_refl, bw_keeps_refl.
Qed.

Lemma firstn_snoc {A : Type} (l : list A) :
  forall n x, nth_error l n = Some x -> firstn (S n) l = firstn n l ++ [x].
Proof.
  induction l as [|y l IH]; intros [|n] x H; simpl in *; try discriminate.
  - now injection H as ->.
  - f_equal. now apply IH.
Qed.

Lemma firstn_S_cases {A : Type} (l : list A) (n : nat) :
  (exists x, nth_error l n = Some x /\ firstn (S n) l = firstn n l ++ [x]) \/
  firstn (S n) l = firstn n l.
Proof.
  destruct (nth_error l n) as [x|] eqn:E.
  - left. exists x. split; [reflexivity | now apply firstn_snoc].
  - right. apply nth_error_None in E.
    rewrite !firstn_all2 by lia. reflexivity.
Qed.

Lemma is_sink_reflect (d : dict) (l : string) :
  is_sink d l = true <->
  forall a r, dict_get d a = Some r -> ~ In l (predecessors r).
Proof.
  unfold is_sink. rewrite forallb_forall. split.
  - intros H a r Ha Hin. specialize (H a (dict_get_some_keys _ _ _ Ha)).
    rewrite Ha in H. apply mem_In in Hin. rewrite Hin in H. discriminate.
  - intros H a Ha. destruct (dict_get d a) as [r|] eqn:E; [|reflexivity].
    destruct (mem l (predecessors r)) eqn:M; [|reflexivity].
    apply mem_In in M. exfalso. eapply H; eauto.
Qed.

Lemma topo_prop_lift (R : activity -> activity -> Prop) (d s : dict) :
  (forall a b, R a b -> predecessors b = predecessors a) ->
  lift R d s -> topo_prop d -> topo_prop s.
Proof.
  intros HR L Ht l1 x l2 r Hk Hx p Hp.
  destruct (lift_some_back _ _ _ _ _ L Hx) as (r0 & Hr0 & K).
  rewrite (proj1 L) in Hk. rewrite (HR _ _ K) in Hp.
  apply (Ht l1 x l2 r0 Hk Hr0 p Hp).
Qed.

(** Both passes return on a closed dictionary that comes out of [build],
    and the state after each pass has the shape recorded here. *)
Lemma passes_on_closed (acts durs preds : list string) (d0 : dict) :
  build acts durs preds = OK d0 -> closed_prop d0 ->
  exists d1 d2,
    forward_pass d0 = OK d1 /\ backward_pass d1 = OK d2 /\
    lift fw_keeps d0 d1 /\ lift bw_keeps d1 d2 /\
    closed_prop d1 /\ NoDup (keys d1) /\
    (forall k r, dict_get d1 k = Some r ->
       earliest_finish r = earliest_start r + duration r /\
       latest_start r = Inf /\ latest_finish r = Inf) /\
    (forall k r, dict_get d2 k = Some r ->
       earliest_finish r = earliest_start r + duration r /\
       exists lf, latest_finish r = Int lf /\
                  latest_start r = Int (lf - duration r)).
Proof.
  intros Hb C0. destruct (build_facts _ _ _ _ Hb) as (Hnd & Hfresh & _).
  destruct (forward_pass_cases d0)
    as [(_ & d1 & H1 & L1)|(a & r & p & _ & Ha & Hp & Hnone)];
    [|exfalso; apply (C0 a r p Ha Hp Hnone)].
  assert (C1 : closed_prop d1).
  { apply (closed_prop_lift fw_keeps d0 d1 fw_keeps_preds L1 C0). }
  destruct (backward_total d1 C1) as (d2 & H2 & L2 & Hfin).
  assert (F1 : forall k r, dict_get d1 k = Some r ->
             earliest_finish r = earliest_start r + duration r /\
             latest_start r = Inf /\ latest_finish r = Inf).
  { intros k r Hr. split; [apply (forward_pass_finish d0 d1 H1 k r Hr)|].
    destruct (lift_some_back _ _ _ _ _ L1 Hr) as (r0 & Hr0 & K).
    destruct (Hfresh k r0 Hr0) as (_ & _ & Hls & Hlf).
    destruct K as (_ & _ & Kls & Klf). split; congruence. }
  exists d1, d2. repeat (split; [assumption|]).
  split; [now rewrite (proj1 L1)|]. split; [assumption|].
  intros k r Hr. destruct (lift_some_back _ _ _ _ _ L2 Hr) as (r1 & Hr1 & K).
  destruct (F1 k r1 Hr1) as (Hef & Hls & Hlf).
  destruct K as (Kd & _ & Kes & Kef & _ & Kinv). split; [congruence|].
  specialize (Hfin k r Hr). destruct (latest_finish r) as [lf|] eqn:E;
    [|congruence].
  exists lf. split; [reflexivity|]. rewrite Kinv.
  - reflexivity.
  - now rewrite Hls, Hlf.
Qed.

(** * The claims *)

(** C1. When the dictionary built from the input lists its activities in a
    topological order of the predecessor graph (so every predecessor is an
    earlier key), the forward pass returns a dictionary with the same
    keys, durations and predecessors in which every activity without
    predecessors has ES = 0 and EF = duration, and every activity with
    predecessors has ES equal to the largest EF among its predecessors
    (no predecessor finishes later, one finishes exactly then) and
    EF = ES + duration. *)
Theorem forward_pass_earliest_times
        (activities durations preds : list string) (d0 : dict) :
  build activities durations preds = OK d0 ->
  topo_order d0 = true ->
  exists d1,
    forward_pass d0 = OK d1 /\ lift fw_keeps d0 d1 /\
    forall a r, dict_get d1 a = Some r ->
      (predecessors r = [] ->
       earliest_start r = 0 /\ earliest_finish r = duration r) /\
      (predecessors r <> [] ->
       (forall p, In p (predecessors r) ->
          exists rp, dict_get d1 p = Some rp /\
                     earliest_finish rp <= earliest_start r) /\
       (exists p rp, In p (predecessors r) /\ dict_get d1 p = Some rp /\
                     earliest_finish rp = earliest_start r) /\
       earliest_finish r = earliest_start r + duration r).
Proof.
  intros Hb Ht. destruct (build_facts _ _ _ _ Hb) as (Hnd & _ & _).
  apply (forward_pass_topo d0 Hnd (topo_order_prop d0 Ht Hnd)).
Qed.

(** The forward pass on scenario C. *)
Lemma forward_pass_earliest_times_witness :
  build scenario_names scenario_durations scenario_predecessors
  = OK scenario_built /\
  topo_order scenario_built = true /\
  exists d1,
    forward_pass scenario_built = OK d1 /\ lift fw_keeps scenario_built d1 /\
    forall a r, dict_get d1 a = Some r ->
      (predecessors r = [] ->
       earliest_start r = 0 /\ earliest_finish r = duration r) /\
      (predecessors r <> [] ->
       (forall p, In p (predecessors r) ->
          exists rp, dict_get d1 p = Some rp /\
                     earliest_finish rp <= earliest_start r) /\
       (exists p rp, In p (predecessors r) /\ dict_get d1 p = Some rp /\
                     earliest_finish rp = earliest_start r) /\
       earliest_finish r = earliest_start r + duration r).
Proof.
  split; [reflexivity|]. split; [reflexivity|].
  apply (forward_pass_earliest_times
           scenario_names scenario_durations scenario_predecessors
           scenario_built); reflexivity.
Defined.

(** C2. When every predecessor named in the built dictionary is one of its
    keys, both passes complete, and every activity of the returned mapping
    satisfies EF = ES + duration and LS = LF - duration (with LF, hence
    LS, an integer and no longer the unbounded sentinel). *)
Theorem schedule_finish_start_invariants
        (activities durations preds : list string) (d0 : dict) :
  build activities durations preds = OK d0 ->
  closed d0 = true ->
  exists cp d,
    calculate_cpm activities durations preds = OK (cp, d) /\
    forall a r, dict_get d a = Some r ->
      earliest_finish r = earliest_start r + duration r /\
      exists lf, latest_finish r = Int lf /\
                 latest_start r = Int (lf - duration r).
Proof.
  intros Hb Hc. apply closed_reflect in Hc.
  destruct (passes_on_closed _ _ _ _ Hb Hc)
    as (d1 & d2 & H1 & H2 & _ & _ & _ & _ & _ & Hfinal).
  exists (filter (is_critical d2) (keys d2)), d2.
  split; [apply (calculate_cpm_ok _ _ _ d0 d1 d2); assumption | exact Hfinal].
Qed.

(** Both invariants on the schedule of scenario C. *)
Lemma schedule_finish_start_invariants_witness :
  build scenario_names scenario_durations scenario_predecessors
  = OK scenario_built /\
  closed scenario_built = true /\
  exists cp d,
    calculate_cpm scenario_names scenario_durations scenario_predecessors
    = OK (cp, d) /\
    forall a r, dict_get d a = Some r ->
      earliest_finish r = earliest_start r + duration r /\
      exists lf, latest_finish r = Int lf /\
                 latest_start r = Int (lf - duration r).
Proof.
  split; [reflexivity|]. split; [reflexivity|].
  apply (schedule_finish_start_invariants
           scenario_names scenario_durations scenario_predecessors
           scenario_built); reflexivity.
Defined.

(** C3. When the built dictionary lists its activities in a topological
    order of the predecessor graph, both passes complete and every
    precedence edge (p -> a) of the returned mapping satisfies
    EF(p) <= ES(a) and LF(p) <= LS(a), all four being integers. *)
Theorem precedence_edges_respected
        (activities durations preds : list string) (d0 : dict) :
  build activities durations preds = OK d0 ->
  topo_order d0 = true ->
  exists cp d,
    calculate_cpm activities durations preds = OK (cp, d) /\
    forall a ra p, dict_get d a = Some ra -> In p (predecessors ra) ->
      exists rp lf ls,
        dict_get d p = Some rp /\
        earliest_finish rp <= earliest_start ra /\
        latest_finish rp = Int lf /\ latest_start ra = Int ls /\ lf <= ls.
Proof.
  intros Hb Ht. destruct (build_facts _ _ _ _ Hb) as (Hnd & _ & _).
  pose proof (topo_order_prop d0 Ht Hnd) as T0.
  destruct (passes_on_closed _ _ _ _ Hb (topo_closed d0 T0))
    as (d1 & d2 & H1 & H2 & L1 & L2 & C1 & Hnd1 & _ & Hfinal).
  destruct (forward_pass_topo d0 Hnd T0) as (d1' & H1' & _ & Hes).
  assert (d1' = d1) by congruence. subst d1'.
  pose proof (topo_prop_lift fw_keeps d0 d1 fw_keeps_preds L1 T0) as T1.
  destruct (backward_topo d1 Hnd1 T1) as (d2' & H2' & _ & Hedge).
  assert (d2' = d2) by congruence. subst d2'.
  exists (filter (is_critical d2) (keys d2)), d2.
  split; [apply (calculate_cpm_ok _ _ _ d0 d1 d2); assumption|].
  intros a ra p Hra Hp.
  destruct (Hedge a ra p Hra Hp) as (rp & Hrp & Hle).
  destruct (Hfinal p rp Hrp) as (_ & lf & Hlf & _).
  destruct (Hfinal a ra Hra) as (_ & lfa & _ & Hls).
  exists rp, lf, (lfa - duration ra). repeat (split; [assumption|]).
  split.
  - destruct (lift_some_back _ _ _ _ _ L2 Hra) as (ra1 & Hra1 & Ka).
    destruct (lift_some_back _ _ _ _ _ L2 Hrp) as (rp1 & Hrp1 & Kp).
    destruct Ka as (_ & Kpreds & Kes & _). destruct Kp as (_ & _ & _ & Kef & _).
    rewrite Kes, Kef. rewrite Kpreds in Hp.
    destruct (Hes a ra1 Hra1) as [_ Hne].
    destruct Hne as (Hub & _).
    { intros E. rewrite E in Hp. destruct Hp. }
    destruct (Hub p Hp) as (rp1' & Hrp1' & Hle1). congruence.
  - split; [assumption|]. split; [assumption|].
    rewrite Hlf, Hls in Hle. exact Hle.
Qed.

(** The edges A -> C and B -> C of scenario C. *)
Lemma precedence_edges_respected_witness :
  build scenario_names scenario_durations scenario_predecessors
  = OK scenario_built /\
  topo_order scenario_built = true /\
  exists cp d,
    calculate_cpm scenario_names scenario_durations scenario_predecessors
    = OK (cp, d) /\
    forall a ra p, dict_get d a = Some ra -> In p (predecessors ra) ->
      exists rp lf ls,
        dict_get d p = Some rp /\
        earliest_finish rp <= earliest_start ra /\
        latest_finish rp = Int lf /\ latest_start ra = Int ls /\ lf <= ls.
Proof.
  split; [reflexivity|]. split; [reflexivity|].
  apply (precedence_edges_respected
           scenario_names scenario_durations scenario_predecessors
           scenario_built); reflexivity.
Defined.

(** C4. Whenever the scheduler returns, the critical path holds exactly the
    activities whose ES equals LS and nothing else decides membership; it
    lists them in the order of the keys of the returned mapping, which is
    the order in which the activity names were first supplied. *)
Theorem critical_path_zero_slack_in_order
        (activities durations preds cp : list string) (d : dict) :
  calculate_cpm activities durations preds = OK (cp, d) ->
  (forall a, In a cp <->
             exists r, dict_get d a = Some r /\
                       Int (earliest_start r) = latest_start r) /\
  cp = filter (is_critical d) (keys d) /\
  keys d = first_occurrences activities /\
  (NoDup activities -> keys d = activities).
Proof.
  intros H. destruct (calculate_cpm_inv _ _ _ _ _ H)
    as (d0 & d1 & Hb & H1 & H2 & Hcp).
  destruct (build_facts _ _ _ _ Hb) as (_ & _ & Hk0).
  assert (Hk : keys d = first_occurrences activities).
  { destruct (forward_pass_cases d0)
      as [(_ & d1' & H1' & L1)|(a & r & p & Hr & _)]; [|congruence].
    assert (d1' = d1) by congruence. subst d1'.
    rewrite backward_pass_as_ops in H2. apply run_ops_lift in H2.
    now rewrite (proj1 H2), (proj1 L1). }
  split; [|split; [assumption|split; [assumption|]]].
  - intros a. rewrite Hcp, filter_In. unfold is_critical. split.
    + intros [Hin Hc]. destruct (dict_get d a) as [r|]; [|discriminate].
      exists r. split; [reflexivity | now apply num_eqb_eq].
    + intros (r & Hr & Heq). split; [eapply dict_get_some_keys; eauto|].
      rewrite Hr. now apply num_eqb_eq.
  - intros Hnd. now rewrite Hk, first_occurrences_nodup.
Qed.

(** The critical path B, C of scenario C. *)
Lemma critical_path_zero_slack_in_order_witness :
  calculate_cpm scenario_names scenario_durations scenario_predecessors
  = OK (["B"; "C"], scenario_schedule) /\
  (forall a, In a ["B"; "C"] <->
             exists r, dict_get scenario_schedule a = Some r /\
                       Int (earliest_start r) = latest_start r) /\
  ["B"; "C"] = filter (is_critical scenario_schedule) (keys scenario_schedule) /\
  keys scenario_schedule = first_occurrences scenario_names /\
  (NoDup scenario_names -> keys scenario_schedule = scenario_names).
Proof.
  split; [reflexivity|].
  apply (critical_path_zero_slack_in_order
           scenario_names scenario_durations scenario_predecessors
           ["B"; "C"] scenario_schedule).
  reflexivity.
Defined.

(** C5. On scenario C (A with duration 2 and B with duration 5, both without
    predecessors, then C with duration 3 after A and B) the scheduler
    returns A: ES 0, EF 2, LS 3; B: ES 0, EF 5, LS 0; C: ES 5, EF 8; and
    the critical path B, C. *)
Theorem scenario_C_schedule :
  calculate_cpm ["A"; "B"; "C"] ["2"; "5"; "3"] [""; ""; "A,B"]
  = OK (["B"; "C"],
        [("A", mkActivity 2 [] 0 2 (Int 3) (Int 5));
         ("B", mkActivity 5 [] 0 5 (Int 0) (Int 5));
         ("C", mkActivity 3 ["A"; "B"] 5 8 (Int 5) (Int 8))]).
Proof. reflexivity. Qed.

(** C6. When the three sequences do not all have the same length, the route
    answers with the rejection text and nothing else: the scheduler is not
    run (no exception of the scheduler can surface, whatever the contents
    of the sequences), neither the diagram nor the template is reached
    (whatever the plotting library and the template would do), and no
    result page, hence no schedule, is returned. *)
Theorem mismatched_lengths_rejected
        (to_html : html_writer) (render_template : renderer)
        (activities durations preds : list string) :
  ~ (List.length activities = List.length durations /\
     List.length durations = List.length preds) ->
  calculate to_html render_template activities durations preds
  = OK (Text "Error: Mismatch in input lengths.") /\
  (forall e, calculate to_html render_template activities durations preds
             <> Raise e) /\
  (forall page, calculate to_html render_template activities durations preds
                <> OK (ResultPage page)).
Proof.
  intros Hne.
  assert (E : calculate to_html render_template activities durations preds
              = OK (Text "Error: Mismatch in input lengths.")).
  { unfold calculate.
    destruct (Nat.eqb_spec (List.length activities) (List.length durations));
      [|reflexivity].
    destruct (Nat.eqb_spec (List.length durations) (List.length preds));
      [|reflexivity].
    exfalso. apply Hne. split; assumption. }
  rewrite E. split; [reflexivity|]. split; intros; discriminate.
Qed.

(** Scenario D: lengths 3, 3 and 2, with contents the scheduler would
    not accept. *)
Lemma mismatched_lengths_rejected_witness :
  ~ (List.length ["A"; "B"; "C"] = List.length ["2"; "x"; "3"] /\
     List.length ["2"; "x"; "3"] = List.length [""; "Z"]) /\
  calculate sample_to_html sample_render
            ["A"; "B"; "C"] ["2"; "x"; "3"] [""; "Z"]
  = OK (Text "Error: Mismatch in input lengths.") /\
  (forall e, calculate sample_to_html sample_render
                       ["A"; "B"; "C"] ["2"; "x"; "3"] [""; "Z"] <> Raise e) /\
  (forall page, calculate sample_to_html sample_render
                          ["A"; "B"; "C"] ["2"; "x"; "3"] [""; "Z"]
                <> OK (ResultPage page)).
Proof.
  assert (H : ~ (List.length ["A"; "B"; "C"] = List.length ["2"; "x"; "3"] /\
                 List.length ["2"; "x"; "3"] = List.length [""; "Z"])).
  { simpl. intros [_ H]. discriminate H. }
  split; [exact H|].
  exact (mismatched_lengths_rejected sample_to_html sample_render
           ["A"; "B"; "C"] ["2"; "x"; "3"] [""; "Z"] H).
Defined.




(** C8, as the code has it. When the three sequences have the same length
    and some duration is a string that [int] rejects, the scheduler (and
    with it the route, whatever the plotting library and the template
    would do) raises [ValueError] on such a string while building the
    dictionary: no pass runs and no schedule is returned. *)
Theorem unparsable_duration_raises_ValueError
        (to_html : html_writer) (render_template : renderer)
        (activities durations preds : list string) (s : string) :
  List.length activities = List.length durations ->
  List.length durations = List.length preds ->
  In s durations -> py_int s = None ->
  exists s', In s' durations /\ py_int s' = None /\
             build activities durations preds = Raise (ValueError s') /\
             calculate_cpm activities durations preds = Raise (ValueError s') /\
             calculate to_html render_template activities durations preds
             = Raise (ValueError s').
Proof.
  intros H1 H2 Hin Hbad.
  destruct (build_zip_bad_duration activities durations preds [] H1 H2
              (ex_intro _ s (conj Hin Hbad))) as (s' & Hs' & Hin' & Hbad').
  rewrite <- build_is_zip in Hs'.
  assert (Hc : calculate_cpm activities durations preds = Raise (ValueError s')).
  { unfold calculate_cpm. now rewrite Hs'. }
  exists s'. repeat (split; [assumption|]).
  unfold calculate. rewrite H1, H2, !Nat.eqb_refl. cbn [andb].
  now rewrite Hc.
Qed.

(** The duration abc. *)
Lemma unparsable_duration_raises_ValueError_witness :
  List.length ["A"; "B"] = List.length ["4"; "abc"] /\
  List.length ["4"; "abc"] = List.length [""; "A"] /\
  In "abc" ["4"; "abc"] /\ py_int "abc" = None /\
  exists s', In s' ["4"; "abc"] /\ py_int s' = None /\
             build ["A"; "B"] ["4"; "abc"] [""; "A"] = Raise (ValueError s') /\
             calculate_cpm ["A"; "B"] ["4"; "abc"] [""; "A"]
             = Raise (ValueError s') /\
             calculate sample_to_html sample_render
                       ["A"; "B"] ["4"; "abc"] [""; "A"]
             = Raise (ValueError s').
Proof.
  split; [reflexivity|]. split; [reflexivity|].
  split; [right; left; reflexivity|]. split; [reflexivity|].
  exact (unparsable_duration_raises_ValueError
           sample_to_html sample_render
           ["A"; "B"] ["4"; "abc"] [""; "A"] "abc"
           eq_refl eq_refl (or_intror (or_introl eq_refl)) eq_refl).
Defined.

(** C8, as stated, fails: the string -3 is a duration that is not a
    non-negative integer, yet [int] accepts it and the scheduler returns a
    schedule computed with the duration -3. *)
Lemma negative_duration_is_scheduled :
  py_int "-3" = Some (-3) /\
  calculate_cpm ["A"] ["-3"] [""]
  = OK (["A"], [("A", mkActivity (-3) [] 0 (-3) (Int 0) (Int (-3)))]) /\
  ~ (exists e, calculate_cpm ["A"] ["-3"] [""] = Raise e).
Proof.
  split; [reflexivity|]. split; [reflexivity|].
  intros (e & He). discriminate He.
Qed.

Lemma run_op_written (o : bw_op) (s s' : dict) :
  run_op o s = OK s' ->
  exists k r r', dict_get s k = Some r /\ s' = dict_set s k r' /\
                 (r' = anchored r \/
                  exists a ra, dict_get s a = Some ra /\
                               r' = tightened (latest_start ra) r).
Proof.
  destruct o as [a|a p]; simpl; intros H.
  - destruct (dict_get s a) as [r|] eqn:E.
    + rewrite (anchor_some _ _ _ E) in H. injection H as <-.
      exists a, r, (anchored r). auto.
    + rewrite (anchor_none _ _ E) in H. discriminate.
  - destruct (dict_get s p) as [rp|] eqn:Ep.
    + destruct (dict_get s a) as [ra|] eqn:Ea.
      * rewrite (tighten_some _ _ _ _ _ Ep Ea) in H. injection H as <-.
        exists p, rp, (tightened (latest_start ra) rp).
        split; [assumption|]. split; [reflexivity|]. right. exists a, ra. auto.
      * unfold tighten in H. rewrite (getitem_some _ _ _ Ep) in H. simpl in H.
        rewrite (getitem_none _ _ Ea) in H. discriminate.
    + rewrite (tighten_none _ _ _ Ep) in H. discriminate.
Qed.

(** C9. The backward pass is the run of its elementary updates (anchor the
    visited activity, then tighten each of its predecessors). Between the
    state reached after [n] updates and the state reached after one more,
    the latest finish of every activity stays or goes down, never up; a
    record that changed has its latest start equal to its latest finish
    minus its duration, and its new latest finish is either its own
    earliest finish replacing the unbounded sentinel, or the minimum of
    its previous latest finish and the latest start of the visited
    activity. *)
Theorem backward_updates_never_loosen
        (d : dict) (n : nat) (s s' : dict) (k : string) (r : activity) :
  run_ops (firstn n (backward_ops d)) d = OK s ->
  run_ops (firstn (S n) (backward_ops d)) d = OK s' ->
  dict_get s k = Some r ->
  backward_pass d = run_ops (backward_ops d) d /\
  exists r',
    dict_get s' k = Some r' /\
    num_le (latest_finish r') (latest_finish r) /\
    (r' = r \/
     (latest_start r' = num_sub (latest_finish r') (duration r') /\
      (latest_finish r' = (if num_eqb (latest_finish r) Inf
                           then Int (earliest_finish r) else latest_finish r) \/
       exists a ra, dict_get s a = Some ra /\
                    latest_finish r'
                    = py_min (latest_finish r) (latest_start ra)))).
Proof.
  intros Hs Hs' Hk. split; [apply backward_pass_as_ops|].
  destruct (firstn_S_cases (backward_ops d) n) as [(o & _ & E)|E];
    rewrite E in Hs'.
  - unfold run_ops in Hs'. rewrite for_each_app in Hs'.
    fold (run_ops (firstn n (backward_ops d)) d) in Hs'. rewrite Hs in Hs'.
    cbn [bind for_each] in Hs'.
    assert (Ho : run_op o s = OK s').
    { destruct (run_op o s); [exact Hs' | discriminate Hs']. }
    destruct (run_op_written _ _ _ Ho) as (k0 & r0 & r1 & Hk0 & -> & Hw).
    rewrite dict_get_set. destruct (String.eqb k0 k) eqn:Ek.
    + apply String.eqb_eq in Ek. subst k0.
      assert (r0 = r) by congruence. subst r0.
      exists r1. split; [reflexivity|].
      destruct Hw as [->|(a & ra & Ha & ->)].
      * split; [apply bw_keeps_anchored|]. right. split; [reflexivity|].
        left. reflexivity.
      * split; [apply bw_keeps_tightened|]. right. split; [reflexivity|].
        right. exists a, ra. split; [assumption | reflexivity].
    + exists r. split; [assumption|]. split; [apply num_le_refl | now left].
  - assert (s' = s) by congruence. subst s'.
    exists r. split; [assumption|]. split; [apply num_le_refl | now left].
Qed.

(** Scenario C between its first and its second update: A goes from the
    sentinel to latest finish 5. *)
Lemma backward_updates_never_loosen_witness :
  run_ops (firstn 1 (backward_ops scenario_forward)) scenario_forward
  = OK scenario_after_1 /\
  run_ops (firstn 2 (backward_ops scenario_forward)) scenario_forward
  = OK scenario_after_2 /\
  dict_get scenario_after_1 "A" = Some (mkActivity 2 [] 0 2 Inf Inf) /\
  backward_pass scenario_forward
  = run_ops (backward_ops scenario_forward) scenario_forward /\
  exists r',
    dict_get scenario_after_2 "A" = Some r' /\
    num_le (latest_finish r') Inf /\
    (r' = mkActivity 2 [] 0 2 Inf Inf \/
     (latest_start r' = num_sub (latest_finish r') (duration r') /\
      (latest_finish r' = Int 2 \/
       exists a ra, dict_get scenario_after_1 a = Some ra /\
                    latest_finish r' = py_min Inf (latest_start ra)))).
Proof.
  split; [reflexivity|]. split; [reflexivity|]. split; [reflexivity|].
  exact (backward_updates_never_loosen
           scenario_forward 1 scenario_after_1 scenario_after_2
           "A" (mkActivity 2 [] 0 2 Inf Inf) eq_refl eq_refl eq_refl).
Defined.

(** C10, as the code has it. When the built dictionary is closed and no
    record names its last key as a predecessor, both passes complete and
    the last activity ends with LF equal to its EF and LS equal to its ES,
    so it is on the critical path, which is therefore not empty; nothing
    is asked of the order of the other activities. *)
Theorem last_sink_is_critical
        (activities durations preds : list string) (d0 : dict)
        (ks : list string) (l : string) :
  build activities durations preds = OK d0 ->
  closed d0 = true ->
  keys d0 = ks ++ [l] ->
  is_sink d0 l = true ->
  exists cp d r,
    calculate_cpm activities durations preds = OK (cp, d) /\
    keys d = ks ++ [l] /\
    dict_get d l = Some r /\
    latest_finish r = Int (earliest_finish r) /\
    latest_start r = Int (earliest_start r) /\
    In l cp.
Proof.
  intros Hb Hc Hk Hsink. apply closed_reflect in Hc.
  destruct (passes_on_closed _ _ _ _ Hb Hc)
    as (d1 & d2 & H1 & H2 & L1 & L2 & C1 & Hnd1 & F1 & _).
  assert (Hk1 : keys d1 = ks ++ [l]) by (now rewrite (proj1 L1)).
  assert (Hl1 : In l (keys d1)).
  { rewrite Hk1. apply in_or_app. right. now left. }
  destruct (keys_dict_get _ _ Hl1) as (rl & Hrl).
  assert (Hsink1 : forall a r, dict_get d1 a = Some r -> ~ In l (predecessors r)).
  { intros a r Hr. destruct (lift_some_back _ _ _ _ _ L1 Hr) as (r0 & Hr0 & K).
    rewrite (fw_keeps_preds _ _ K).
    apply (proj1 (is_sink_reflect d0 l) Hsink a r0 Hr0). }
  destruct (backward_sink_last d1 ks l rl C1 Hnd1 Hk1 Hsink1 Hrl)
    as (d2' & H2' & _ & Hl2).
  assert (d2' = d2) by congruence. subst d2'.
  destruct (F1 l rl Hrl) as (Hef & _ & Hlf).
  assert (Hfin : latest_finish (anchored rl) = Int (earliest_finish (anchored rl))).
  { unfold anchored. rewrite Hlf. reflexivity. }
  assert (Hst : latest_start (anchored rl) = Int (earliest_start (anchored rl))).
  { unfold anchored. rewrite Hlf. simpl. f_equal. lia. }
  exists (filter (is_critical d2) (keys d2)), d2, (anchored rl).
  split; [apply (calculate_cpm_ok _ _ _ d0 d1 d2); assumption|].
  split; [now rewrite (proj1 L2)|]. split; [assumption|].
  split; [assumption|]. split; [assumption|].
  apply filter_In. split.
  - eapply dict_get_some_keys; eauto.
  - unfold is_critical. rewrite Hl2. apply num_eqb_eq. now rewrite Hst.
Qed.

(** C is last and nobody's predecessor in scenario C. *)
Lemma last_sink_is_critical_witness :
  build scenario_names scenario_durations scenario_predecessors
  = OK scenario_built /\
  closed scenario_built = true /\
  keys scenario_built = ["A"; "B"] ++ ["C"] /\
  is_sink scenario_built "C" = true /\
  exists cp d r,
    calculate_cpm scenario_names scenario_durations scenario_predecessors
    = OK (cp, d) /\
    keys d = ["A"; "B"] ++ ["C"] /\
    dict_get d "C" = Some r /\
    latest_finish r = Int (earliest_finish r) /\
    latest_start r = Int (earliest_start r) /\
    In "C" cp.
Proof.
  split; [reflexivity|]. split; [reflexivity|]. split; [reflexivity|].
  split; [reflexivity|].
  exact (last_sink_is_critical
           scenario_names scenario_durations scenario_predecessors
           scenario_built ["A"; "B"] "C" eq_refl eq_refl eq_refl eq_refl).
Defined.

(** C10, as stated, fails. With the single activity A (duration 5) naming
    itself as predecessor the passes complete, A ends with LF 0 against
    EF 5 and LS -5 against ES 0, and the critical path is empty. With A
    (duration 1) after B and B (duration 2) supplied in that order, the
    last activity B ends with LF 0 against EF 2 and is not on the
    critical path. *)
Lemma last_activity_not_always_critical :
  calculate_cpm ["A"] ["5"] ["A"]
  = OK ([], [("A", mkActivity 5 ["A"] 0 5 (Int (-5)) (Int 0))]) /\
  calculate_cpm ["A"; "B"] ["1"; "2"] ["B"; ""]
  = OK (["A"], [("A", mkActivity 1 ["B"] 0 1 (Int 0) (Int 1));
                ("B", mkActivity 2 [] 0 2 (Int (-2)) (Int 0))]).
Proof. split; reflexivity. Qed.

(** * Further properties of the scheduler *)

(** ** Outcomes of the route *)

Lemma build_zip_total (acts : list string) :
  forall durs preds d,
    List.length acts = List.length durs ->
    List.length durs = List.length preds ->
    (forall s, In s durs -> py_int s <> None) ->
    exists d', build_zip acts durs preds d = OK d'.
Proof.
  induction acts as [|a acts IH]; intros durs preds d H1 H2 Hp.
  - exists d. reflexivity.
  - destruct durs as [|s durs]; [discriminate|].
    destruct preds as [|ps preds]; [discriminate|].
    simpl. unfold int_of_str.
    destruct (py_int s) as [n|] eqn:E; [|exfalso; apply (Hp s); simpl; auto].
    simpl. apply IH; simpl in *; try lia. intros s' Hs'. apply Hp. now right.
Qed.

Lemma durations_parse_or_not (durs : list string) :
  (forall s, In s durs -> py_int s <> None) \/
  (exists s, In s durs /\ py_int s = None).
Proof.
  induction durs as [|s durs [IH|(s' & Hin & Hbad)]].
  - left. intros s [].
  - destruct (py_int s) as [n|] eqn:E.
    + left. intros s' [<-|Hs']; [congruence | auto].
    + right. exists s. simpl. auto.
  - right. exists s'. simpl. auto.
Qed.

(** ** Direct calls with sequences of different lengths *)

Lemma build_zip_surplus (acts : list string) :
  forall durs preds xd xp d,
    List.length durs = List.length acts ->
    List.length preds = List.length acts ->
    build_zip acts (durs ++ xd) (preds ++ xp) d = build_zip acts durs preds d.
Proof.
  induction acts as [|a acts IH]; intros durs preds xd xp d H1 H2;
    [reflexivity|].
  destruct durs as [|s durs]; [discriminate|].
  destruct preds as [|ps preds]; [discriminate|].
  simpl. destruct (int_of_str s) as [n|e]; [|reflexivity]. simpl.
  apply IH; simpl in *; lia.
Qed.

(** X2. Called with exactly one duration and one predecessor string per
    name, followed by any surplus of either, the scheduler ignores the
    surplus: the outcome is that of the call without it. *)
Theorem calculate_cpm_ignores_surplus
        (activities durations preds more_durations more_preds : list string) :
  List.length durations = List.length activities ->
  List.length preds = List.length activities ->
  calculate_cpm activities (durations ++ more_durations) (preds ++ more_preds)
  = calculate_cpm activities durations preds.
Proof.
  intros H1 H2. unfold calculate_cpm. rewrite !build_is_zip.
  now rewrite build_zip_surplus.
Qed.

(** Two names with their rows, then a third duration and two more
    predecessor strings. *)
Lemma calculate_cpm_ignores_surplus_witness :
  List.length ["3"; "4"] = List.length ["A"; "B"] /\
  List.length [""; "A"] = List.length ["A"; "B"] /\
  calculate_cpm ["A"; "B"] (["3"; "4"] ++ ["x"]) ([""; "A"] ++ ["Q"; "R"])
  = calculate_cpm ["A"; "B"] ["3"; "4"] [""; "A"].
Proof.
  split; [reflexivity|]. split; [reflexivity|].
  exact (calculate_cpm_ignores_surplus
           ["A"; "B"] ["3"; "4"] [""; "A"] ["x"] ["Q"; "R"] eq_refl eq_refl).
Defined.

Lemma build_zip_short (acts : list string) :
  forall durs preds d,
    (forall s, In s durs -> py_int s <> None) ->
    (List.length durs < List.length acts)%nat \/
    (List.length preds < List.length acts)%nat ->
    build_zip acts durs preds d = Raise IndexError.
Proof.
  induction acts as [|a acts IH]; intros durs preds d Hp Hlen.
  - simpl in Hlen. lia.
  - destruct durs as [|s durs]; [reflexivity|].
    simpl. unfold int_of_str.
    destruct (py_int s) as [n|] eqn:E; [|exfalso; apply (Hp s); simpl; auto].
    simpl. destruct preds as [|ps preds]; [reflexivity|].
    apply IH; [intros s' Hs'; apply Hp; now right | simpl in Hlen; lia].
Qed.

(** X3. Called with fewer durations or fewer predecessor strings than
    names, all the durations being integers, the scheduler raises
    [IndexError] while building the dictionary. *)
Theorem calculate_cpm_short_input_IndexError
        (activities durations preds : list string) :
  (forall s, In s durations -> py_int s <> None) ->
  (List.length durations < List.length activities)%nat \/
  (List.length preds < List.length activities)%nat ->
  calculate_cpm activities durations preds = Raise IndexError.
Proof.
  intros Hp Hlen. unfold calculate_cpm.
  now rewrite build_is_zip, (build_zip_short _ _ _ _ Hp Hlen).
Qed.

(** Three names, three durations, two predecessor strings. *)
Lemma calculate_cpm_short_input_IndexError_witness :
  (forall s, In s ["2"; "5"; "3"] -> py_int s <> None) /\
  ((List.length ["2"; "5"; "3"] < List.length ["A"; "B"; "C"])%nat \/
   (List.length [""; ""] < List.length ["A"; "B"; "C"])%nat) /\
  calculate_cpm ["A"; "B"; "C"] ["2"; "5"; "3"] [""; ""] = Raise IndexError.
Proof.
  assert (Hp : forall s, In s ["2"; "5"; "3"] -> py_int s <> None).
  { intros s [<-|[<-|[<-|[]]]]; discriminate. }
  assert (Hl : (List.length ["2"; "5"; "3"] < List.length ["A"; "B"; "C"])%nat \/
               (List.length [""; ""] < List.length ["A"; "B"; "C"])%nat).
  { right. apply Nat.ltb_lt. reflexivity. }
  split; [exact Hp|]. split; [exact Hl|].
  exact (calculate_cpm_short_input_IndexError
           ["A"; "B"; "C"] ["2"; "5"; "3"] [""; ""] Hp Hl).
Defined.

(** ** Rows of the input and records of the schedule *)

Lemma int_of_str_OK (s : string) (n : Z) :
  int_of_str s = OK n -> py_int s = Some n.
Proof.
  unfold int_of_str. destruct (py_int s); [now intros [= ->] | discriminate].
Qed.

Lemma build_zip_lookup (acts : list string) :
  forall durs preds d d',
    build_zip acts durs preds d = OK d' ->
    forall a,
      (~ In a acts -> dict_get d' a = dict_get d a) /\
      (forall i, nth_error acts i = Some a ->
                 (forall j, (i < j)%nat -> nth_error acts j <> Some a) ->
                 exists s ps n,
                   nth_error durs i = Some s /\ nth_error preds i = Some ps /\
                   py_int s = Some n /\
                   dict_get d' a = Some (new_record n ps)).
Proof.
  induction acts as [|a0 acts IH]; intros durs preds d d' H a.
  - simpl in H. injection H as <-. split; [reflexivity|].
    intros [|i] Hi; discriminate.
  - simpl in H. destruct durs as [|s0 durs]; [discriminate|].
    destruct (int_of_str s0) as [n0|] eqn:E0; [|discriminate].
    simpl in H. destruct preds as [|ps0 preds]; [discriminate|].
    destruct (IH _ _ _ _ H a) as [Hout Hin]. split.
    + intros Hn. rewrite Hout by (intros Hi; apply Hn; now right).
      apply dict_get_set_other. intros ->. apply Hn. now left.
    + intros [|i] Hi Hlast.
      * simpl in Hi. injection Hi as ->.
        exists s0, ps0, n0. repeat split; auto using int_of_str_OK.
        rewrite Hout; [apply dict_get_set_same|].
        intros Hi. destruct (In_nth_error _ _ Hi) as (j & Hj).
        apply (Hlast (S j)); [lia | exact Hj].
      * simpl in Hi. apply (Hin i Hi).
        intros j Hj. apply (Hlast (S j)). lia.
Qed.

Lemma forward_pass_ok_lift (d d1 : dict) :
  forward_pass d = OK d1 -> lift fw_keeps d d1.
Proof.
  intros H. destruct (forward_pass_cases d)
    as [(_ & d1' & H1 & L)|(a & r & p & Hr & _)]; congruence.
Qed.

Lemma backward_pass_ok_lift (d d2 : dict) :
  backward_pass d = OK d2 -> lift bw_keeps d d2.
Proof. rewrite backward_pass_as_ops. apply run_ops_lift. Qed.

(** X4. In a returned schedule the record of an activity carries the
    duration and the predecessor list of the last row that bears its
    name: the duration is the integer read from that row's duration
    string, the predecessors are the pieces of that row's predecessor
    string between commas (none for the empty string). Earlier rows of
    the same name are overwritten. *)
Theorem schedule_record_from_last_row
        (activities durations preds cp : list string) (d : dict)
        (i : nat) (a : string) :
  calculate_cpm activities durations preds = OK (cp, d) ->
  nth_error activities i = Some a ->
  (forall j, (i < j)%nat -> nth_error activities j <> Some a) ->
  exists s ps n r,
    nth_error durations i = Some s /\ nth_error preds i = Some ps /\
    py_int s = Some n /\ dict_get d a = Some r /\
    duration r = n /\
    predecessors r = (if String.eqb ps "" then [] else split_comma ps).
Proof.
  intros H Hi Hlast.
  destruct (calculate_cpm_inv _ _ _ _ _ H) as (d0 & d1 & Hb & H1 & H2 & _).
  rewrite build_is_zip in Hb.
  destruct (proj2 (build_zip_lookup _ _ _ _ _ Hb a) i Hi Hlast)
    as (s & ps & n & Hs & Hps & Hn & Hr0).
  destruct (proj2 (forward_pass_ok_lift _ _ H1) a _ Hr0) as (r1 & Hr1 & K1).
  destruct (proj2 (backward_pass_ok_lift _ _ H2) a _ Hr1) as (r2 & Hr2 & K2).
  exists s, ps, n, r2. repeat (split; [assumption|]).
  destruct K1 as (D1 & P1 & _). destruct K2 as (D2 & P2 & _).
  split; [now rewrite D2, D1 | now rewrite P2, P1].
Qed.

(** The name A twice: the second row decides. *)
Lemma schedule_record_from_last_row_witness :
  calculate_cpm ["A"; "B"; "A"] ["2"; "5"; "7"] [""; ""; "B"]
  = OK (["A"],
        [("A", mkActivity 7 ["B"] 0 7 (Int 0) (Int 7));
         ("B", mkActivity 5 [] 0 5 (Int (-5)) (Int 0))]) /\
  nth_error ["A"; "B"; "A"] 2 = Some "A" /\
  (forall j, (2 < j)%nat -> nth_error ["A"; "B"; "A"] j <> Some "A") /\
  exists s ps n r,
    nth_error ["2"; "5"; "7"] 2 = Some s /\
    nth_error [""; ""; "B"] 2 = Some ps /\
    py_int s = Some n /\
    dict_get [("A", mkActivity 7 ["B"] 0 7 (Int 0) (Int 7));
              ("B", mkActivity 5 [] 0 5 (Int (-5)) (Int 0))] "A" = Some r /\
    duration r = n /\
    predecessors r = (if String.eqb ps "" then [] else split_comma ps).
Proof.
  assert (Hlast : forall j, (2 < j)%nat ->
                            nth_error ["A"; "B"; "A"] j <> Some "A").
  { intros [|[|[|j]]] Hj; try (exfalso; apply Nat.ltb_lt in Hj; discriminate Hj).
    simpl. destruct j; discriminate. }
  split; [reflexivity|]. split; [reflexivity|]. split; [exact Hlast|].
  exact (schedule_record_from_last_row
           ["A"; "B"; "A"] ["2"; "5"; "7"] [""; ""; "B"] ["A"]
           [("A", mkActivity 7 ["B"] 0 7 (Int 0) (Int 7));
            ("B", mkActivity 5 [] 0 5 (Int (-5)) (Int 0))]
           2%nat "A" eq_refl eq_refl Hlast).
Defined.

(** ** The predecessor string *)

Lemma split_comma_nonempty (s : string) : split_comma s <> [].
Proof.
  destruct s as [|c s]; simpl; [discriminate|].
  destruct (Ascii.eqb c ","); [discriminate|].
  destruct (split_comma s); discriminate.
Qed.

Lemma join_comma_cons (x y : string) (ys : list string) :
  join_comma (x :: y :: ys) = (x ++ String "," (join_comma (y :: ys)))%string.
Proof. reflexivity. Qed.

Lemma join_split_comma (s : string) : join_comma (split_comma s) = s.
Proof.
  induction s as [|c s IH]; [reflexivity|]. simpl.
  destruct (Ascii.eqb c ",") eqn:E.
  - apply Ascii.eqb_eq in E. subst c.
    destruct (split_comma s) as [|w ws] eqn:Es;
      [now apply split_comma_nonempty in Es|].
    rewrite join_comma_cons, IH. reflexivity.
  - destruct (split_comma s) as [|w ws] eqn:Es;
      [now apply split_comma_nonempty in Es|].
    destruct ws as [|w' ws].
    + simpl in *. now rewrite IH.
    + rewrite join_comma_cons in *. rewrite <- IH. reflexivity.
Qed.

Lemma split_comma_no_comma (s : string) :
  forall w, In w (split_comma s) -> no_comma w.
Proof.
  unfold no_comma. induction s as [|c s IH]; simpl.
  - intros w [<-|[]]. simpl. tauto.
  - destruct (Ascii.eqb c ",") eqn:E.
    + intros w [<-|Hw]; [simpl; tauto | now apply IH].
    + destruct (split_comma s) as [|w0 ws].
      * intros w [<-|[]]. simpl. intros [->|[]].
        rewrite Ascii.eqb_refl in E. discriminate.
      * intros w [<-|Hw].
        -- simpl. intros [->|Hin];
             [rewrite Ascii.eqb_refl in E; discriminate|].
           apply (IH w0); [now left | exact Hin].
        -- apply IH. now right.
Qed.

(** X5. The predecessor list of a freshly built record loses nothing of
    its predecessor string and adds nothing to it: joined with commas it
    gives the string back, no predecessor name holds a comma, and the
    list is empty exactly for the empty string. Names are taken as they
    stand, without trimming. *)
Theorem predecessor_string_round_trip (n : Z) (ps : string) :
  join_comma (predecessors (new_record n ps)) = ps /\
  (forall p, In p (predecessors (new_record n ps)) -> no_comma p) /\
  (predecessors (new_record n ps) = [] <-> ps = "").
Proof.
  unfold new_record. simpl. destruct (String.eqb_spec ps "") as [->|Hne].
  - split; [reflexivity|]. split; [intros p []|]. tauto.
  - split; [apply join_split_comma|]. split; [apply split_comma_no_comma|].
    split; [intros H; now apply split_comma_nonempty in H | tauto].
Qed.

(** ** Activities that nobody waits for *)

(** An activity that no record names as predecessor keeps its record until
    its own visit, is anchored there, and is never touched again. *)
Lemma backward_sink (d : dict) (k : string) (rk : activity) :
  closed_prop d -> NoDup (keys d) ->
  (forall a r, dict_get d a = Some r -> ~ In k (predecessors r)) ->
  dict_get d k = Some rk ->
  exists d2, backward_pass d = OK d2 /\ lift bw_keeps d d2 /\
             dict_get d2 k = Some (anchored rk).
Proof.
  intros C Hnd Hsink Hk. unfold backward_pass.
  assert (Hnd' : NoDup (rev (keys d))) by now apply NoDup_rev.
  destruct (for_each_total visit (rev (keys d))
              (fun l s => lift bw_keeps d s /\
                          (In k l -> dict_get s k = Some (anchored rk)) /\
                          (~ In k l -> dict_get s k = Some rk)) d)
    as (d2 & Hd2 & L2 & Hin & _).
  - split; [apply lift_refl, bw_keeps_refl|]. split; [intros []|auto].
  - intros l1 x l2 s Hr (L & Hvis & Hnot).
    assert (Hx : In x (keys d)).
    { apply in_rev. rewrite Hr. apply in_or_app. right. now left. }
    rewrite Hr in Hnd'. destruct (NoDup_split_notin _ _ _ Hnd') as [Hx1 _].
    destruct (closed_visit_ready d s x C L Hx) as (r & Hrx & Hps).
    destruct (lift_some_back _ _ _ _ _ L Hrx) as (r0 & Hr0 & K).
    assert (Hkp : ~ In k (predecessors r)).
    { rewrite (bw_keeps_preds _ _ K). apply (Hsink x r0 Hr0). }
    destruct (visit_total s x r Hrx Hps) as (s' & Hv & L' & Hframe & _ & Hanch).
    exists s'. split; [assumption|]. split; [|split].
    + eapply lift_trans; [apply bw_keeps_trans | exact L | exact L'].
    + intros Hin. apply in_app_or in Hin. destruct Hin as [Hin|[->|[]]].
      * rewrite Hframe; [auto | intros -> | assumption]. now apply Hx1.
      * destruct (Hanch Hkp) as [Hk' _]. rewrite Hk'.
        rewrite (Hnot Hx1) in Hrx. congruence.
    + intros Hn. rewrite Hframe; [| intros -> | assumption].
      * apply Hnot. intros Hin. apply Hn. apply in_or_app. now left.
      * apply Hn. apply in_or_app. right. now left.
  - exists d2. split; [assumption|]. split; [assumption|].
    apply Hin. apply -> in_rev. eapply dict_get_some_keys; eauto.
Qed.

Lemma sink_critical_core
      (activities durations preds : list string) (d0 : dict) (k : string) :
  build activities durations preds = OK d0 ->
  closed_prop d0 ->
  In k (keys d0) ->
  (forall a r, dict_get d0 a = Some r -> ~ In k (predecessors r)) ->
  exists cp d r,
    calculate_cpm activities durations preds = OK (cp, d) /\
    dict_get d k = Some r /\
    latest_finish r = Int (earliest_finish r) /\
    latest_start r = Int (earliest_start r) /\
    In k cp.
Proof.
  intros Hb Hc Hk Hsink.
  destruct (passes_on_closed _ _ _ _ Hb Hc)
    as (d1 & d2 & H1 & H2 & L1 & L2 & C1 & Hnd1 & F1 & _).
  assert (Hk1 : In k (keys d1)) by (now rewrite (proj1 L1)).
  destruct (keys_dict_get _ _ Hk1) as (rk & Hrk).
  assert (Hsink1 : forall a r, dict_get d1 a = Some r -> ~ In k (predecessors r)).
  { intros a r Hr. destruct (lift_some_back _ _ _ _ _ L1 Hr) as (r0 & Hr0 & K).
    rewrite (fw_keeps_preds _ _ K). apply (Hsink a r0 Hr0). }
  destruct (backward_sink d1 k rk C1 Hnd1 Hsink1 Hrk) as (d2' & H2' & _ & Hk2).
  assert (d2' = d2) by congruence. subst d2'.
  destruct (F1 k rk Hrk) as (Hef & _ & Hlf).
  assert (Hfin : latest_finish (anchored rk) = Int (earliest_finish (anchored rk))).
  { unfold anchored. rewrite Hlf. reflexivity. }
  assert (Hst : latest_start (anchored rk) = Int (earliest_start (anchored rk))).
  { unfold anchored. rewrite Hlf. simpl. f_equal. lia. }
  exists (filter (is_critical d2) (keys d2)), d2, (anchored rk).
  split; [apply (calculate_cpm_ok _ _ _ d0 d1 d2); assumption|].
  split; [assumption|]. split; [assumption|]. split; [assumption|].
  apply filter_In. split.
  - eapply dict_get_some_keys; eauto.
  - unfold is_critical. rewrite Hk2. apply num_eqb_eq. now rewrite Hst.
Qed.

(** X6. In any order of the activities: when every named predecessor is
    an activity, an activity that no activity (itself included) names as
    predecessor ends with LF equal to its EF and LS equal to its ES, and
    is on the critical path. *)
Theorem every_sink_is_critical
        (activities durations preds : list string) (d0 : dict) (k : string) :
  build activities durations preds = OK d0 ->
  closed d0 = true ->
  mem k (keys d0) = true ->
  is_sink d0 k = true ->
  exists cp d r,
    calculate_cpm activities durations preds = OK (cp, d) /\
    dict_get d k = Some r /\
    latest_finish r = Int (earliest_finish r) /\
    latest_start r = Int (earliest_start r) /\
    In k cp.
Proof.
  intros Hb Hc Hk Hsink.
  apply (sink_critical_core activities durations preds d0 k Hb).
  - now apply closed_reflect.
  - now apply mem_In.
  - now apply is_sink_reflect.
Qed.

(** B after C, C first and nobody after B: B is critical although the
    order is not topological. *)
Lemma every_sink_is_critical_witness :
  build ["B"; "C"] ["4"; "1"] ["C"; ""]
  = OK [("B", mkActivity 4 ["C"] 0 0 Inf Inf);
        ("C", mkActivity 1 [] 0 0 Inf Inf)] /\
  closed [("B", mkActivity 4 ["C"] 0 0 Inf Inf);
          ("C", mkActivity 1 [] 0 0 Inf Inf)] = true /\
  mem "B" (keys [("B", mkActivity 4 ["C"] 0 0 Inf Inf);
                 ("C", mkActivity 1 [] 0 0 Inf Inf)]) = true /\
  is_sink [("B", mkActivity 4 ["C"] 0 0 Inf Inf);
           ("C", mkActivity 1 [] 0 0 Inf Inf)] "B" = true /\
  exists cp d r,
    calculate_cpm ["B"; "C"] ["4"; "1"] ["C"; ""] = OK (cp, d) /\
    dict_get d "B" = Some r /\
    latest_finish r = Int (earliest_finish r) /\
    latest_start r = Int (earliest_start r) /\
    In "B" cp.
Proof.
  split; [reflexivity|]. split; [reflexivity|]. split; [reflexivity|].
  split; [reflexivity|].
  exact (every_sink_is_critical
           ["B"; "C"] ["4"; "1"] ["C"; ""]
           [("B", mkActivity 4 ["C"] 0 0 Inf Inf);
            ("C", mkActivity 1 [] 0 0 Inf Inf)] "B"
           eq_refl eq_refl eq_refl eq_refl).
Defined.

(** ** Slack *)

Lemma py_min_cases (x y : num) : py_min x y = x \/ py_min x y = y.
Proof. unfold py_min. destruct (num_ltb y x); auto. Qed.

(** What every record satisfies throughout the backward pass when the
    earliest times respect the precedence edges. *)
Lemma run_op_slack (d s s' : dict) (o : bw_op) :
  lift bw_keeps d s ->
  (forall a ra p rp, dict_get d a = Some ra -> In p (predecessors ra) ->
                     dict_get d p = Some rp ->
                     earliest_finish rp <= earliest_start ra) ->
  op_on_edge d o ->
  (forall k r, dict_get s k = Some r ->
     num_le (Int (earliest_finish r)) (latest_finish r) /\
     latest_start r = num_sub (latest_finish r) (duration r) /\
     earliest_finish r = earliest_start r + duration r) ->
  run_op o s = OK s' ->
  forall k r, dict_get s' k = Some r ->
    num_le (Int (earliest_finish r)) (latest_finish r) /\
    latest_start r = num_sub (latest_finish r) (duration r) /\
    earliest_finish r = earliest_start r + duration r.
Proof.
  intros L E Hedge J Ho k r Hr. destruct o as [a|a p]; simpl in Ho.
  - destruct (dict_get s a) as [ra|] eqn:Ea;
      [|rewrite (anchor_none _ _ Ea) in Ho; discriminate].
    rewrite (anchor_some _ _ _ Ea) in Ho. injection Ho as <-.
    rewrite dict_get_set in Hr. destruct (String.eqb a k); [|now apply (J k)].
    injection Hr as <-. destruct (J a ra Ea) as (J1 & J2 & J3).
    unfold anchored. simpl. split; [|split; [reflexivity | assumption]].
    destruct (latest_finish ra); simpl in *; [assumption | lia].
  - destruct (dict_get s p) as [rp|] eqn:Ep;
      [|rewrite (tighten_none _ _ _ Ep) in Ho; discriminate].
    destruct (dict_get s a) as [ra|] eqn:Ea.
    2:{ unfold tighten in Ho. rewrite (getitem_some _ _ _ Ep) in Ho.
        simpl in Ho. rewrite (getitem_none _ _ Ea) in Ho. discriminate. }
    rewrite (tighten_some _ _ _ _ _ Ep Ea) in Ho. injection Ho as <-.
    rewrite dict_get_set in Hr. destruct (String.eqb p k); [|now apply (J k)].
    injection Hr as <-. destruct (J p rp Ep) as (J1 & J2 & J3).
    unfold tightened. simpl. split; [|split; [reflexivity | assumption]].
    destruct (py_min_cases (latest_finish rp) (latest_start ra)) as [->| ->];
      [assumption|].
    destruct (J a ra Ea) as (A1 & A2 & A3).
    destruct (lift_some_back _ _ _ _ _ L Ea) as (ra0 & Ha0 & Ka).
    destruct (lift_some_back _ _ _ _ _ L Ep) as (rp0 & Hp0 & Kp).
    simpl in Hedge. unfold preds_of in Hedge. rewrite Ha0 in Hedge.
    pose proof (E a ra0 p rp0 Ha0 Hedge Hp0) as Hle.
    destruct Ka as (_ & _ & Kes & _). destruct Kp as (_ & _ & _ & Kef & _).
    rewrite A2. destruct (latest_finish ra) as [lf|]; simpl in *; [lia | exact I].
Qed.

Lemma run_ops_slack (d : dict) :
  (forall a ra p rp, dict_get d a = Some ra -> In p (predecessors ra) ->
                     dict_get d p = Some rp ->
                     earliest_finish rp <= earliest_start ra) ->
  forall ops s s',
    Forall (op_on_edge d) ops -> lift bw_keeps d s ->
    (forall k r, dict_get s k = Some r ->
       num_le (Int (earliest_finish r)) (latest_finish r) /\
       latest_start r = num_sub (latest_finish r) (duration r) /\
       earliest_finish r = earliest_start r + duration r) ->
    run_ops ops s = OK s' ->
    forall k r, dict_get s' k = Some r ->
      num_le (Int (earliest_finish r)) (latest_finish r) /\
      latest_start r = num_sub (latest_finish r) (duration r) /\
      earliest_finish r = earliest_start r + duration r.
Proof.
  intros E. induction ops as [|o ops IH]; intros s s' Hall L J H.
  - injection H as <-. exact J.
  - unfold run_ops in H. cbn [for_each] in H.
    destruct (run_op o s) as [s1|] eqn:Ho; [|discriminate]. cbn [bind] in H.
    inversion Hall as [|? ? Ho1 Hrest]; subst.
    apply (IH s1 s' Hrest).
    + eapply lift_trans; [apply bw_keeps_trans | exact L |].
      exact (run_op_lift o s s1 Ho).
    + exact (run_op_slack d s s1 o L E Ho1 J Ho).
    + exact H.
Qed.

Lemma backward_ops_on_edges (d : dict) : Forall (op_on_edge d) (backward_ops d).
Proof.
  unfold backward_ops. apply Forall_forall. intros o Ho.
  apply in_flat_map in Ho. destruct Ho as (a & _ & [<-|Ho]); [exact I|].
  apply in_map_iff in Ho. destruct Ho as (p & <- & Hp). exact Hp.
Qed.

(** X7. When the built dictionary lists its activities in a topological
    order, no activity of the returned schedule has negative slack: its
    latest start and latest finish are integers with ES <= LS and
    EF <= LF. *)
Theorem slack_is_nonnegative
        (activities durations preds : list string) (d0 : dict) :
  build activities durations preds = OK d0 ->
  topo_order d0 = true ->
  exists cp d,
    calculate_cpm activities durations preds = OK (cp, d) /\
    forall a r, dict_get d a = Some r ->
      exists ls lf,
        latest_start r = Int ls /\ latest_finish r = Int lf /\
        earliest_start r <= ls /\ earliest_finish r <= lf.
Proof.
  intros Hb Ht. destruct (build_facts _ _ _ _ Hb) as (Hnd & _ & _).
  pose proof (topo_order_prop d0 Ht Hnd) as T0.
  destruct (passes_on_closed _ _ _ _ Hb (topo_closed d0 T0))
    as (d1 & d2 & H1 & H2 & L1 & L2 & C1 & Hnd1 & F1 & Hfinal).
  destruct (forward_pass_topo d0 Hnd T0) as (d1' & H1' & _ & Hes).
  assert (d1' = d1) by congruence. subst d1'.
  assert (E : forall a ra p rp, dict_get d1 a = Some ra ->
                In p (predecessors ra) -> dict_get d1 p = Some rp ->
                earliest_finish rp <= earliest_start ra).
  { intros a ra p rp Ha Hp Hrp. destruct (Hes a ra Ha) as [_ Hne].
    destruct Hne as (Hub & _); [intros E; rewrite E in Hp; destruct Hp|].
    destruct (Hub p Hp) as (rp' & Hrp' & Hle). congruence. }
  assert (J : forall k r, dict_get d2 k = Some r ->
                num_le (Int (earliest_finish r)) (latest_finish r) /\
                latest_start r = num_sub (latest_finish r) (duration r) /\
                earliest_finish r = earliest_start r + duration r).
  { apply (run_ops_slack d1 E (backward_ops d1) d1 d2).
    - apply backward_ops_on_edges.
    - apply lift_refl, bw_keeps_refl.
    - intros k r Hr. destruct (F1 k r Hr) as (Hef & Hls & Hlf).
      rewrite Hls, Hlf. simpl. auto.
    - now rewrite <- backward_pass_as_ops. }
  exists (filter (is_critical d2) (keys d2)), d2.
  split; [apply (calculate_cpm_ok _ _ _ d0 d1 d2); assumption|].
  intros a r Hr. destruct (Hfinal a r Hr) as (Hef & lf & Hlf & Hls).
  destruct (J a r Hr) as (J1 & _). rewrite Hlf in J1. simpl in J1.
  exists (lf - duration r), lf. repeat (split; [assumption|]). split; lia.
Qed.

(** Scenario C. *)
Lemma slack_is_nonnegative_witness :
  build scenario_names scenario_durations scenario_predecessors
  = OK scenario_built /\
  topo_order scenario_built = true /\
  exists cp d,
    calculate_cpm scenario_names scenario_durations scenario_predecessors
    = OK (cp, d) /\
    forall a r, dict_get d a = Some r ->
      exists ls lf,
        latest_start r = Int ls /\ latest_finish r = Int lf /\
        earliest_start r <= ls /\ earliest_finish r <= lf.
Proof.
  split; [reflexivity|]. split; [reflexivity|].
  exact (slack_is_nonnegative
           scenario_names scenario_durations scenario_predecessors
           scenario_built eq_refl eq_refl).
Defined.

(** ** A topological order always has a critical activity *)

Lemma last_in_suffix (l1 l2 ks : list string) (a l : string) :
  l1 ++ a :: l2 = ks ++ [l] -> In l (a :: l2).
Proof.
  intros H. apply (f_equal (@rev string)) in H.
  rewrite !rev_app_distr in H. simpl in H.
  apply in_rev. simpl.
  destruct (rev l2 ++ [a]) as [|h t] eqn:E.
  - destruct (rev l2); discriminate.
  - simpl in H. injection H as -> _. now left.
Qed.

Lemma NoDup_app_disjoint (l1 l2 : list string) (x : string) :
  NoDup (l1 ++ l2) -> In x l1 -> In x l2 -> False.
Proof.
  intros Hnd H1 H2. destruct (in_split _ _ H2) as (u & v & ->).
  rewrite app_assoc in Hnd. apply NoDup_remove_2 in Hnd. apply Hnd.
  apply in_or_app. left. apply in_or_app. now left.
Qed.

(** X8. When the built dictionary is not empty and lists its activities
    in a topological order, the returned critical path is not empty: the
    activity supplied last is on it. *)
Theorem topological_schedule_has_critical_activity
        (activities durations preds : list string) (d0 : dict) :
  build activities durations preds = OK d0 ->
  topo_order d0 = true ->
  d0 <> [] ->
  exists cp d ks l,
    calculate_cpm activities durations preds = OK (cp, d) /\
    keys d0 = ks ++ [l] /\ In l cp.
Proof.
  intros Hb Ht Hne. destruct (build_facts _ _ _ _ Hb) as (Hnd & _ & _).
  pose proof (topo_order_prop d0 Ht Hnd) as T0.
  assert (Hkne : keys d0 <> []).
  { destruct d0; [congruence | discriminate]. }
  destruct (exists_last Hkne) as (ks & l & Hk).
  assert (Hl : In l (keys d0)).
  { rewrite Hk. apply in_or_app. right. now left. }
  destruct (sink_critical_core activities durations preds d0 l Hb
              (topo_closed d0 T0) Hl) as (cp & d & r & Hc & _ & _ & _ & Hin).
  - intros a r Ha Hp.
    destruct (in_split _ _ (dict_get_some_keys _ _ _ Ha)) as (l1 & l2 & Hs).
    pose proof (T0 l1 a l2 r Hs Ha l Hp) as Hl1.
    rewrite Hs in Hnd. apply (NoDup_app_disjoint _ _ l Hnd Hl1).
    apply (last_in_suffix l1 l2 ks a l). congruence.
  - exists cp, d, ks, l. auto.
Qed.

(** Scenario C: C is supplied last. *)
Lemma topological_schedule_has_critical_activity_witness :
  build scenario_names scenario_durations scenario_predecessors
  = OK scenario_built /\
  topo_order scenario_built = true /\
  scenario_built <> [] /\
  exists cp d ks l,
    calculate_cpm scenario_names scenario_durations scenario_predecessors
    = OK (cp, d) /\
    keys scenario_built = ks ++ [l] /\ In l cp.
Proof.
  assert (Hne : scenario_built <> []) by discriminate.
  split; [reflexivity|]. split; [reflexivity|]. split; [exact Hne|].
  exact (topological_schedule_has_critical_activity
           scenario_names scenario_durations scenario_predecessors
           scenario_built eq_refl eq_refl Hne).
Defined.

(** ** Signs of the earliest times *)

Lemma dict_get_In (d : dict) (k : string) (r : activity) :
  dict_get d k = Some r -> In (k, r) d.
Proof.
  induction d as [|[k' v'] d IH]; simpl; [discriminate|].
  destruct (String.eqb k' k) eqn:E.
  - apply String.eqb_eq in E. intros [= ->]. subst. now left.
  - intros H. right. auto.
Qed.

Lemma forward_pass_nonneg (d d1 : dict) :
  (forall k r, dict_get d k = Some r ->
               0 <= duration r /\ 0 <= earliest_finish r) ->
  forward_pass d = OK d1 ->
  forall k r, dict_get d1 k = Some r ->
              0 <= earliest_start r <= earliest_finish r.
Proof.
  intros H0 H.
  assert (P : keys d1 = keys d /\
              (forall k r, dict_get d1 k = Some r ->
                           0 <= duration r /\ 0 <= earliest_finish r) /\
              forall a, In a (keys d) -> forall r, dict_get d1 a = Some r ->
                0 <= earliest_start r <= earliest_finish r).
  { unfold forward_pass in H. revert H.
    apply (for_each_partial forward_step (keys d)
             (fun l s => keys s = keys d /\
                (forall k r, dict_get s k = Some r ->
                             0 <= duration r /\ 0 <= earliest_finish r) /\
                forall a, In a l -> forall r, dict_get s a = Some r ->
                  0 <= earliest_start r <= earliest_finish r)).
    - split; [reflexivity|]. split; [exact H0 | intros a []].
    - intros l1 x l2 s s' Hk (Ks & Hall & Hvis) Hstep.
      destruct (dict_get s x) as [r|] eqn:Ex.
      2:{ unfold forward_step in Hstep.
          rewrite (getitem_none _ _ Ex) in Hstep. discriminate. }
      destruct (forward_step_cases s x r Ex)
        as [(m & Hm & Hm0 & Hm1)|(p & Hp & _)]; [|congruence].
      assert (s' = dict_set s x (fw_record m r)) by congruence. subst s'.
      assert (Hmpos : 0 <= m).
      { destruct (predecessors r) as [|q qs] eqn:Eq.
        - rewrite Hm0; [lia | reflexivity].
        - destruct Hm1 as (_ & p & rp & _ & Hrp & <-); [discriminate|].
          apply (Hall p rp Hrp). }
      destruct (Hall x r Ex) as [Hd _].
      split; [|split].
      + rewrite <- Ks. apply keys_set_present. eapply dict_get_some_keys; eauto.
      + intros k rk. rewrite dict_get_set. destruct (String.eqb x k); [|apply Hall].
        intros [= <-]. simpl. lia.
      + intros a Ha ra. rewrite dict_get_set. destruct (String.eqb x a) eqn:E.
        * intros [= <-]. simpl. lia.
        * intros Hra. apply in_app_or in Ha. destruct Ha as [Ha|[->|[]]]; [eauto|].
          rewrite String.eqb_refl in E. discriminate. }
  destruct P as (K & _ & P). intros k r Hr. apply (P k); auto.
  rewrite <- K. eapply dict_get_some_keys; eauto.
Qed.

(** X9. In any order of the activities: when no duration is negative,
    every activity of a returned schedule has 0 <= ES <= EF. *)
Theorem earliest_times_are_nonnegative
        (activities durations preds cp : list string) (d0 d : dict) :
  build activities durations preds = OK d0 ->
  nonneg_durations d0 = true ->
  calculate_cpm activities durations preds = OK (cp, d) ->
  forall a r, dict_get d a = Some r ->
              0 <= earliest_start r <= earliest_finish r.
Proof.
  intros Hb Hn H a r Hr.
  destruct (calculate_cpm_inv _ _ _ _ _ H) as (d0' & d1 & Hb' & H1 & H2 & _).
  assert (d0' = d0) by congruence. subst d0'.
  destruct (build_facts _ _ _ _ Hb) as (_ & Hfresh & _).
  destruct (lift_some_back _ _ _ _ _ (backward_pass_ok_lift _ _ H2) Hr)
    as (r1 & Hr1 & K).
  destruct K as (_ & _ & Kes & Kef & _). rewrite Kes, Kef.
  apply (forward_pass_nonneg d0 d1) with (k := a); [|assumption|assumption].
  intros k r0 Hr0. split.
  - unfold nonneg_durations in Hn. rewrite forallb_forall in Hn.
    specialize (Hn (k, r0) (dict_get_In _ _ _ Hr0)). simpl in Hn. lia.
  - destruct (Hfresh k r0 Hr0) as (_ & -> & _). lia.
Qed.

(** A after B, in that order, with durations 1 and 2. *)
Lemma earliest_times_are_nonnegative_witness :
  build ["A"; "B"] ["1"; "2"] ["B"; ""]
  = OK [("A", mkActivity 1 ["B"] 0 0 Inf Inf);
        ("B", mkActivity 2 [] 0 0 Inf Inf)] /\
  nonneg_durations [("A", mkActivity 1 ["B"] 0 0 Inf Inf);
                    ("B", mkActivity 2 [] 0 0 Inf Inf)] = true /\
  calculate_cpm ["A"; "B"] ["1"; "2"] ["B"; ""]
  = OK (["A"], [("A", mkActivity 1 ["B"] 0 1 (Int 0) (Int 1));
                ("B", mkActivity 2 [] 0 2 (Int (-2)) (Int 0))]) /\
  forall a r,
    dict_get [("A", mkActivity 1 ["B"] 0 1 (Int 0) (Int 1));
              ("B", mkActivity 2 [] 0 2 (Int (-2)) (Int 0))] a = Some r ->
    0 <= earliest_start r <= earliest_finish r.
Proof.
  split; [reflexivity|]. split; [reflexivity|]. split; [reflexivity|].
  exact (earliest_times_are_nonnegative
           ["A"; "B"] ["1"; "2"] ["B"; ""] ["A"]
           [("A", mkActivity 1 ["B"] 0 0 Inf Inf);
            ("B", mkActivity 2 [] 0 0 Inf Inf)]
           [("A", mkActivity 1 ["B"] 0 1 (Int 0) (Int 1));
            ("B", mkActivity 2 [] 0 2 (Int (-2)) (Int 0))]
           eq_refl eq_refl eq_refl).
Defined.

(** ** What the forward pass reads in an arbitrary order *)

Lemma ef_list_map (s : dict) (ps : list string) (es : list Z) :
  ef_list s ps = OK es ->
  es = map (fun p => match dict_get s p with
                     | Some rp => earliest_finish rp
                     | None => 0
                     end) ps.
Proof.
  intros H. destruct (ef_list_cases s ps) as [(es' & Hes & Hall)|(q & Hq & _)];
    [|congruence].
  assert (es' = es) by congruence. subst es'. clear H Hes.
  induction Hall as [|p e ps es (rp & Hrp & <-) _ IH]; [reflexivity|].
  simpl. rewrite Hrp. now f_equal.
Qed.

Lemma forward_step_max (s : dict) (a : string) (r : activity) (es : list Z) :
  dict_get s a = Some r -> predecessors r <> [] ->
  ef_list s (predecessors r) = OK es ->
  exists m, py_max es = OK m /\
            forward_step a s = OK (dict_set s a (fw_record m r)).
Proof.
  intros Ha Hne Hes. unfold forward_step. rewrite (getitem_some _ _ _ Ha).
  cbn [bind]. destruct (predecessors r) as [|p0 ps] eqn:Hp; [congruence|].
  unfold ef_list in Hes. rewrite Hes. cbn [bind].
  destruct es as [|e es].
  { simpl in Hes. destruct (getitem s p0); simpl in Hes; [|discriminate].
    destruct (comprehension _ ps); discriminate. }
  exists (fold_left Z.max es e). split; [reflexivity|]. cbn [py_max bind].
  rewrite (store_some _ _ _ _ Ha). cbn [bind].
  rewrite (getitem_some _ _ _ (dict_get_set_same _ _ _)). cbn [bind].
  rewrite (store_some _ _ _ _ (dict_get_set_same _ _ _)).
  now rewrite dict_set_set.
Qed.

Lemma snoc_split_cases (la lb l1 : list string) (a x : string) :
  l1 ++ [x] = la ++ a :: lb ->
  (la = l1 /\ a = x /\ lb = []) \/
  (exists lb', lb = lb' ++ [x] /\ l1 = la ++ a :: lb').
Proof.
  intros H. destruct lb as [|y lb] using rev_ind.
  - left. apply app_inj_tail in H. destruct H as [-> ->]. auto.
  - right. exists lb. clear IHlb. split.
    + f_equal. change (la ++ a :: lb ++ [y]) with (la ++ (a :: lb) ++ [y]) in H.
      rewrite app_assoc in H. apply app_inj_tail in H. destruct H as [_ ->].
      reflexivity.
    + change (la ++ a :: lb ++ [y]) with (la ++ (a :: lb) ++ [y]) in H.
      rewrite app_assoc in H. apply app_inj_tail in H. now destruct H as [-> _].
Qed.

Lemma seen_ef_frame (s s' : dict) (la : list string) (p : string) :
  (In p la -> option_map earliest_finish (dict_get s' p)
              = option_map earliest_finish (dict_get s p)) ->
  seen_ef s' la p = seen_ef s la p.
Proof.
  unfold seen_ef. destruct (mem p la) eqn:E; [|reflexivity].
  intros H. specialize (H (proj1 (mem_In _ _) E)).
  destruct (dict_get s' p), (dict_get s p); simpl in H; congruence.
Qed.

Lemma forward_pass_seen (d0 d1 : dict) :
  NoDup (keys d0) ->
  (forall k r, dict_get d0 k = Some r -> earliest_finish r = 0) ->
  forward_pass d0 = OK d1 ->
  forall l1 a l2 r,
    keys d0 = l1 ++ a :: l2 -> dict_get d1 a = Some r ->
    (predecessors r = [] -> earliest_start r = 0) /\
    (predecessors r <> [] ->
     py_max (map (seen_ef d1 l1) (predecessors r)) = OK (earliest_start r)).
Proof.
  intros Hnd H0 H.
  assert (P : forall la a lb r,
             keys d0 = la ++ a :: lb -> dict_get d1 a = Some r ->
             (predecessors r = [] -> earliest_start r = 0) /\
             (predecessors r <> [] ->
              py_max (map (seen_ef d1 la) (predecessors r))
              = OK (earliest_start r))).
  { unfold forward_pass in H. revert H.
    apply (for_each_partial forward_step (keys d0)
             (fun l s =>
                (forall k r, ~ In k l -> dict_get s k = Some r ->
                             earliest_finish r = 0) /\
                forall la a lb r,
                  l = la ++ a :: lb -> dict_get s a = Some r ->
                  (predecessors r = [] -> earliest_start r = 0) /\
                  (predecessors r <> [] ->
                   py_max (map (seen_ef s la) (predecessors r))
                   = OK (earliest_start r)))).
    - split; [intros k r _; apply H0|].
      intros la a lb r E. destruct la; discriminate.
    - intros l1 x l2 s s' Hk (Hun & Hvis) Hstep.
      rewrite Hk in Hnd. destruct (NoDup_split_notin _ _ _ Hnd) as [Hx1 _].
      destruct (dict_get s x) as [r|] eqn:Ex.
      2:{ unfold forward_step in Hstep.
          rewrite (getitem_none _ _ Ex) in Hstep. discriminate. }
      assert (Hs' : exists m, s' = dict_set s x (fw_record m r) /\
                (predecessors r = [] -> m = 0) /\
                (predecessors r <> [] ->
                 py_max (map (fun p => match dict_get s p with
                                       | Some rp => earliest_finish rp
                                       | None => 0
                                       end) (predecessors r)) = OK m)).
      { destruct (forward_step_cases s x r Ex)
          as [(m & Hm & Hm0 & _)|(p & Hp & _)]; [|congruence].
        exists m. split; [congruence|]. split; [assumption|]. intros Hne.
        destruct (ef_list_cases s (predecessors r))
          as [(es & Hes & _)|(q & Hq & Hin & Hnone)].
        - destruct (forward_step_max s x r es Ex Hne Hes) as (m' & Hmax & Hst).
          rewrite <- (ef_list_map _ _ _ Hes).
          assert (E : dict_set s x (fw_record m' r) = dict_set s x (fw_record m r))
            by congruence.
          apply (f_equal (fun t => dict_get t x)) in E.
          rewrite !dict_get_set_same in E. injection E as E _.
          now rewrite <- E.
        - exfalso. destruct (forward_step_cases s x r Ex)
            as [(m1 & _ & _ & Hm1)|(p & Hp & _)]; [|congruence].
          destruct (Hm1 Hne) as (Hub & _).
          destruct (Hub q Hin) as (rq & Hrq & _). congruence. }
      destruct Hs' as (m & -> & Hm0 & Hm1). split.
      + intros k rk Hn. rewrite dict_get_set.
        destruct (String.eqb x k) eqn:E.
        * apply String.eqb_eq in E. subst k. exfalso. apply Hn.
          apply in_or_app. right. now left.
        * apply Hun. intros Hin. apply Hn. apply in_or_app. now left.
      + intros la a lb ra Hsplit Hra.
        assert (Hfr : forall p, In p l1 ->
                  dict_get (dict_set s x (fw_record m r)) p = dict_get s p).
        { intros p Hp. apply dict_get_set_other. intros ->. auto. }
        destruct (snoc_split_cases la lb l1 a x Hsplit)
          as [(-> & -> & ->)|(lb' & -> & Hl1)].
        * rewrite dict_get_set_same in Hra. injection Hra as <-. simpl.
          split; [assumption|]. intros Hne. rewrite <- (Hm1 Hne). f_equal.
          apply map_ext_in. intros p Hp. unfold seen_ef.
          destruct (mem p l1) eqn:Em.
          -- apply mem_In in Em. now rewrite (Hfr p Em).
          -- destruct (dict_get s p) as [rp|] eqn:Ep; [|reflexivity].
             symmetry. apply (Hun p rp); [|assumption].
             intros Hin. apply mem_In in Hin. congruence.
        * assert (Ha1 : In a l1).
          { rewrite Hl1. apply in_or_app. right. now left. }
          rewrite (Hfr a Ha1) in Hra.
          destruct (Hvis la a lb' ra Hl1 Hra) as [V0 V1].
          split; [assumption|]. intros Hne. rewrite <- (V1 Hne). f_equal.
          apply map_ext. intros p. apply seen_ef_frame. intros Hp.
          rewrite Hfr; [reflexivity|]. rewrite Hl1. apply in_or_app. now left. }
  intros l1 a l2 r Hk Hr. apply (P l1 a l2 r Hk Hr).
Qed.

(** X10. In any order of the activities, the earliest start of an
    activity of a returned schedule is 0 when it has no predecessor, and
    otherwise the largest of the values read for its predecessors: the
    earliest finish of a predecessor supplied before the activity, and 0
    (the initial value, not the predecessor's earliest finish) for a
    predecessor supplied after it or for the activity itself. *)
Theorem earliest_start_sees_only_earlier_activities
        (activities durations preds cp : list string) (d : dict)
        (l1 l2 : list string) (a : string) (r : activity) :
  calculate_cpm activities durations preds = OK (cp, d) ->
  keys d = l1 ++ a :: l2 ->
  dict_get d a = Some r ->
  (predecessors r = [] -> earliest_start r = 0) /\
  (predecessors r <> [] ->
   py_max (map (seen_ef d l1) (predecessors r)) = OK (earliest_start r)).
Proof.
  intros H Hk Hr.
  destruct (calculate_cpm_inv _ _ _ _ _ H) as (d0 & d1 & Hb & H1 & H2 & _).
  destruct (build_facts _ _ _ _ Hb) as (Hnd & Hfresh & _).
  pose proof (forward_pass_ok_lift _ _ H1) as L1.
  pose proof (backward_pass_ok_lift _ _ H2) as L2.
  destruct (lift_some_back _ _ _ _ _ L2 Hr) as (r1 & Hr1 & K).
  assert (Hk0 : keys d0 = l1 ++ a :: l2).
  { now rewrite <- (proj1 L1), <- (proj1 L2). }
  destruct (forward_pass_seen d0 d1 Hnd
              (fun k r0 Hr0 => proj1 (proj2 (Hfresh k r0 Hr0))) H1
              l1 a l2 r1 Hk0 Hr1) as [V0 V1].
  destruct K as (_ & Kp & Kes & _). rewrite Kp, Kes.
  split; [assumption|]. intros Hne. rewrite <- (V1 Hne). f_equal.
  apply map_ext. intros p. apply seen_ef_frame. intros _.
  destruct (dict_get d1 p) as [rp1|] eqn:E1.
  - destruct (proj2 L2 p rp1 E1) as (rp2 & -> & Kq). simpl.
    f_equal. apply Kq.
  - now rewrite (lift_none _ _ _ _ L2 E1).
Qed.

(** A (duration 1) after B, supplied before B (duration 2): A starts at 0,
    not at the earliest finish 2 of B. *)
Lemma earliest_start_sees_only_earlier_activities_witness :
  calculate_cpm ["A"; "B"] ["1"; "2"] ["B"; ""]
  = OK (["A"], [("A", mkActivity 1 ["B"] 0 1 (Int 0) (Int 1));
                ("B", mkActivity 2 [] 0 2 (Int (-2)) (Int 0))]) /\
  keys [("A", mkActivity 1 ["B"] 0 1 (Int 0) (Int 1));
        ("B", mkActivity 2 [] 0 2 (Int (-2)) (Int 0))] = [] ++ "A" :: ["B"] /\
  dict_get [("A", mkActivity 1 ["B"] 0 1 (Int 0) (Int 1));
            ("B", mkActivity 2 [] 0 2 (Int (-2)) (Int 0))] "A"
  = Some (mkActivity 1 ["B"] 0 1 (Int 0) (Int 1)) /\
  (["B"] = [] -> 0 = 0) /\
  (["B"] <> [] ->
   py_max (map (seen_ef [("A", mkActivity 1 ["B"] 0 1 (Int 0) (Int 1));
                         ("B", mkActivity 2 [] 0 2 (Int (-2)) (Int 0))] [])
               ["B"]) = OK 0).
Proof.
  split; [reflexivity|]. split; [reflexivity|]. split; [reflexivity|].
  exact (earliest_start_sees_only_earlier_activities
           ["A"; "B"] ["1"; "2"] ["B"; ""] ["A"]
           [("A", mkActivity 1 ["B"] 0 1 (Int 0) (Int 1));
            ("B", mkActivity 2 [] 0 2 (Int (-2)) (Int 0))]
           [] ["B"] "A" (mkActivity 1 ["B"] 0 1 (Int 0) (Int 1))
           eq_refl eq_refl eq_refl).
Defined.


(** * Properties of the diagram *)

(** ** Association lists *)

Section AssocFacts.
Context {K V : Type} (eqb : K -> K -> bool).
Hypothesis eqb_eq : forall a b, eqb a b = true <-> a = b.

Lemma eqb_same (a : K) : eqb a a = true.
Proof. now apply eqb_eq. Qed.

Lemma eqb_diff (a b : K) : a <> b -> eqb a b = false.
Proof.
  intros H. destruct (eqb a b) eqn:E; [|reflexivity].
  apply eqb_eq in E. contradiction.
Qed.

Lemma assoc_get_set (m : list (K * V)) (k k' : K) (v : V) :
  assoc_get eqb (assoc_set eqb m k v) k'
  = if eqb k k' then Some v else assoc_get eqb m k'.
Proof.
  induction m as [|[k0 v0] m IH]; simpl.
  - reflexivity.
  - destruct (eqb k0 k) eqn:E; simpl.
    + apply eqb_eq in E. subst k0. destruct (eqb k k'); reflexivity.
    + rewrite IH. destruct (eqb k k') eqn:E'; [|reflexivity].
      apply eqb_eq in E'. subst k'. now rewrite E.
Qed.

Lemma assoc_get_keys (m : list (K * V)) (k : K) :
  In k (map fst m) <-> assoc_get eqb m k <> None.
Proof.
  induction m as [|[k0 v0] m IH]; simpl.
  - split; [tauto | congruence].
  - destruct (eqb k0 k) eqn:E.
    + apply eqb_eq in E. split; [discriminate | auto].
    + rewrite <- IH. split; [|tauto]. intros [->|H]; [|assumption].
      rewrite eqb_same in E. discriminate.
Qed.

Lemma assoc_keys_set_present (m : list (K * V)) (k : K) (v : V) :
  In k (map fst m) -> map fst (assoc_set eqb m k v) = map fst m.
Proof.
  induction m as [|[k0 v0] m IH]; simpl; intros H; [tauto|].
  destruct (eqb k0 k) eqn:E; simpl; [reflexivity|]. f_equal. apply IH.
  destruct H as [->|H]; [|assumption]. rewrite eqb_same in E. discriminate.
Qed.

Lemma assoc_set_absent (m : list (K * V)) (k : K) (v : V) :
  ~ In k (map fst m) -> assoc_set eqb m k v = m ++ [(k, v)].
Proof.
  induction m as [|[k0 v0] m IH]; simpl; intros H; [reflexivity|].
  destruct (eqb k0 k) eqn:E.
  - apply eqb_eq in E. tauto.
  - f_equal. apply IH. tauto.
Qed.

Lemma assoc_keys_set_nodup (m : list (K * V)) (k : K) (v : V) :
  NoDup (map fst m) -> NoDup (map fst (assoc_set eqb m k v)).
Proof.
  intros H. destruct (assoc_get eqb m k) as [v0|] eqn:E.
  - rewrite assoc_keys_set_present; [assumption|].
    apply assoc_get_keys. congruence.
  - assert (Hn : ~ In k (map fst m)).
    { intros Hin. apply assoc_get_keys in Hin. congruence. }
    rewrite (assoc_set_absent _ _ _ Hn), map_app. simpl.
    apply NoDup_app; [assumption | repeat constructor; intros [] |].
    intros x Hx [<-|[]]. contradiction.
Qed.

Lemma assoc_get_In (m : list (K * V)) (k : K) (v : V) :
  assoc_get eqb m k = Some v -> In (k, v) m.
Proof.
  induction m as [|[k0 v0] m IH]; simpl; [discriminate|].
  destruct (eqb k0 k) eqn:E.
  - apply eqb_eq in E. intros [= ->]. subst. now left.
  - intros H. right. auto.
Qed.

Lemma assoc_In_get (m : list (K * V)) (k : K) (v : V) :
  NoDup (map fst m) -> In (k, v) m -> assoc_get eqb m k = Some v.
Proof.
  induction m as [|[k0 v0] m IH]; simpl; intros Hnd Hin; [destruct Hin|].
  inversion Hnd as [|? ? Hnot Hnd']; subst.
  destruct Hin as [[= -> ->]|Hin].
  - now rewrite eqb_same.
  - destruct (eqb k0 k) eqn:E; [|auto].
    apply eqb_eq in E. subst k0. exfalso. apply Hnot.
    apply in_map_iff. exists (k, v). auto.
Qed.

Lemma assoc_get_writes_other (ws : list (K * V)) :
  forall (m : list (K * V)) (k : K),
    ~ In k (map fst ws) ->
    assoc_get eqb (fold_left (fun m w => assoc_set eqb m (fst w) (snd w)) ws m) k
    = assoc_get eqb m k.
Proof.
  induction ws as [|[k0 v0] ws IH]; intros m k Hn; [reflexivity|].
  simpl in *. rewrite IH by tauto. rewrite assoc_get_set.
  rewrite eqb_diff; [reflexivity | tauto].
Qed.

(** After a run of writes to distinct keys, a written key holds the
    value written to it. *)
Lemma assoc_get_writes (ws : list (K * V)) :
  forall (m : list (K * V)) (k : K) (v : V),
    NoDup (map fst ws) -> In (k, v) ws ->
    assoc_get eqb (fold_left (fun m w => assoc_set eqb m (fst w) (snd w)) ws m) k
    = Some v.
Proof.
  induction ws as [|[k0 v0] ws IH]; intros m k v Hnd Hin; [destruct Hin|].
  simpl in Hnd. inversion Hnd as [|? ? Hnot Hnd']; subst. simpl.
  destruct Hin as [[= -> ->]|Hin]; [|now apply IH].
  rewrite assoc_get_writes_other by assumption.
  rewrite assoc_get_set. now rewrite eqb_same.
Qed.
End AssocFacts.

(** ** Depths *)

Lemma str_getitem_some (m : list (string * Z)) (k : string) (v : Z) :
  assoc_get String.eqb m k = Some v -> str_getitem m k = OK v.
Proof. unfold str_getitem. now intros ->. Qed.

Lemma fold_set_fresh (ks : list string) :
  forall acc : list (string * Z),
    NoDup (map fst acc ++ ks) ->
    fold_left (fun m a => assoc_set String.eqb m a 0) ks acc
    = acc ++ map (fun a => (a, 0)) ks.
Proof.
  induction ks as [|a ks IH]; intros acc Hnd; simpl.
  - now rewrite app_nil_r.
  - assert (Hn : ~ In a (map fst acc)).
    { apply NoDup_remove_2 in Hnd. intros H. apply Hnd. apply in_or_app. now left. }
    rewrite (assoc_set_absent String.eqb String.eqb_eq _ _ _ Hn).
    rewrite IH.
    + now rewrite <- app_assoc.
    + rewrite map_app. simpl. rewrite <- app_assoc. exact Hnd.
Qed.

Lemma initial_depth_zero (d : dict) :
  NoDup (keys d) -> initial_depth d = map (fun a => (a, 0)) (keys d).
Proof. intros H. unfold initial_depth. now rewrite fold_set_fresh. Qed.

Lemma initial_depth_get (d : dict) (a : string) :
  NoDup (keys d) -> In a (keys d) ->
  assoc_get String.eqb (initial_depth d) a = Some 0.
Proof.
  intros Hnd Ha. apply (assoc_In_get String.eqb String.eqb_eq).
  - rewrite (initial_depth_zero d Hnd), map_map. simpl. now rewrite map_id.
  - rewrite (initial_depth_zero d Hnd). apply in_map_iff. exists a. auto.
Qed.

Lemma depth_step_some (depth : list (string * Z)) (a p : string) (da dp : Z) :
  assoc_get String.eqb depth a = Some da ->
  assoc_get String.eqb depth p = Some dp ->
  depth_step a p depth = OK (assoc_set String.eqb depth a (Z.max da (dp + 1))).
Proof.
  intros Ha Hp. unfold depth_step.
  now rewrite (str_getitem_some _ _ _ Ha), (str_getitem_some _ _ _ Hp).
Qed.

(** The inner loop of lines 53-54 for activity [x], whose predecessors
    [ps] are all recorded and different from [x]. *)
Lemma depth_inner (depth : list (string * Z)) (x : string) (ps : list string) :
  (forall a v, assoc_get String.eqb depth a = Some v -> 0 <= v) ->
  assoc_get String.eqb depth x = Some 0 ->
  (forall p, In p ps -> p <> x /\ assoc_get String.eqb depth p <> None) ->
  exists depth' da,
    for_each ps (depth_step x) depth = OK depth' /\
    map fst depth' = map fst depth /\
    (forall k, k <> x ->
               assoc_get String.eqb depth' k = assoc_get String.eqb depth k) /\
    assoc_get String.eqb depth' x = Some da /\ 0 <= da /\
    (ps = [] -> da = 0) /\
    (forall p, In p ps ->
               exists dp, assoc_get String.eqb depth p = Some dp /\ dp < da) /\
    (ps <> [] ->
     exists p dp, In p ps /\ assoc_get String.eqb depth p = Some dp /\
                  da = dp + 1).
Proof.
  intros Hpos Hx Hps.
  destruct (for_each_total (depth_step x) ps
              (fun l dep =>
                 map fst dep = map fst depth /\
                 (forall k, k <> x ->
                    assoc_get String.eqb dep k = assoc_get String.eqb depth k) /\
                 exists da, assoc_get String.eqb dep x = Some da /\ 0 <= da /\
                   (l = [] -> da = 0) /\
                   (forall p, In p l ->
                      exists dp, assoc_get String.eqb depth p = Some dp /\
                                 dp < da) /\
                   (l <> [] ->
                    exists p dp, In p l /\
                                 assoc_get String.eqb depth p = Some dp /\
                                 da = dp + 1)) depth)
    as (depth' & Hrun & Hk & Hfr & da & Hda & Hpos' & H0 & Hlt & Hatt).
  - split; [reflexivity|]. split; [reflexivity|]. exists 0.
    split; [assumption|]. split; [lia|]. split; [reflexivity|].
    split; [intros p []|congruence].
  - intros l1 p l2 dep Hsplit (Hk & Hfr & da & Hda & Hpos' & H0 & Hlt & Hatt).
    assert (Hp : In p ps) by (rewrite Hsplit; apply in_or_app; right; now left).
    destruct (Hps p Hp) as [Hne Hsome].
    destruct (assoc_get String.eqb depth p) as [dp|] eqn:Edp; [|congruence].
    assert (Hdp : assoc_get String.eqb dep p = Some dp) by (now rewrite Hfr).
    pose proof (Hpos p dp Edp) as Hdp0.
    exists (assoc_set String.eqb dep x (Z.max da (dp + 1))).
    split; [apply (depth_step_some _ _ _ _ _ Hda Hdp)|]. split; [|split].
    + rewrite <- Hk. apply (assoc_keys_set_present String.eqb String.eqb_eq).
      apply (assoc_get_keys String.eqb String.eqb_eq). congruence.
    + intros k Hkx. rewrite (assoc_get_set String.eqb String.eqb_eq).
      rewrite (eqb_diff String.eqb String.eqb_eq) by congruence. now apply Hfr.
    + exists (Z.max da (dp + 1)).
      rewrite (assoc_get_set String.eqb String.eqb_eq), String.eqb_refl.
      split; [reflexivity|]. split; [lia|].
      split; [intros E; destruct l1; discriminate|]. split.
      * intros q Hq. apply in_app_or in Hq. destruct Hq as [Hq|[<-|[]]].
        -- destruct (Hlt q Hq) as (dq & Hdq & Hlq). exists dq. split; [assumption|lia].
        -- exists dp. split; [assumption|lia].
      * intros _. destruct (Z.max_spec da (dp + 1)) as [[Hc ->]|[Hc ->]].
        -- exists p, dp. split; [apply in_or_app; right; now left|]. auto.
        -- destruct l1 as [|q l1].
           ++ exists p, dp. split; [now left|]. split; [assumption|].
              rewrite (H0 eq_refl) in Hc. lia.
           ++ destruct Hatt as (q' & dq & Hq' & Hdq & ->); [discriminate|].
              exists q', dq. split; [apply in_or_app; now left|]. auto.
  - exists depth', da. repeat (split; [assumption|]). assumption.
Qed.

(** The depths promised for record [r] of activity [a]. *)
Lemma diagram_depth_topo (d : dict) :
  NoDup (keys d) -> topo_prop d ->
  exists depth,
    diagram_depth d = OK depth /\ map fst depth = keys d /\
    forall a r, dict_get d a = Some r ->
      exists da,
        assoc_get String.eqb depth a = Some da /\ 0 <= da /\
        (predecessors r = [] -> da = 0) /\
        (forall p, In p (predecessors r) ->
           exists dp, assoc_get String.eqb depth p = Some dp /\ dp < da) /\
        (predecessors r <> [] ->
         exists p dp, In p (predecessors r) /\
                      assoc_get String.eqb depth p = Some dp /\ da = dp + 1).
Proof.
  intros Hnd Ht. unfold diagram_depth.
  assert (Hk0 : map fst (initial_depth d) = keys d).
  { rewrite (initial_depth_zero d Hnd), map_map. simpl. apply map_id. }
  destruct (for_each_total
              (fun a depth => r <- getitem d a ;;
                              for_each (predecessors r) (depth_step a) depth)
              (keys d)
              (fun l dep =>
                 map fst dep = keys d /\
                 (forall a v, assoc_get String.eqb dep a = Some v -> 0 <= v) /\
                 (forall a, In a (keys d) -> ~ In a l ->
                            assoc_get String.eqb dep a = Some 0) /\
                 forall a r, In a l -> dict_get d a = Some r ->
                   exists da,
                     assoc_get String.eqb dep a = Some da /\ 0 <= da /\
                     (predecessors r = [] -> da = 0) /\
                     (forall p, In p (predecessors r) ->
                        exists dp, assoc_get String.eqb dep p = Some dp /\
                                   dp < da) /\
                     (predecessors r <> [] ->
                      exists p dp, In p (predecessors r) /\
                                   assoc_get String.eqb dep p = Some dp /\
                                   da = dp + 1))
              (initial_depth d))
    as (depth & Hrun & Hk & _ & _ & Hall).
  - split; [assumption|]. split; [|split].
    + intros a v Hv.
      assert (Ha : In a (keys d)).
      { rewrite <- Hk0. apply (assoc_get_keys String.eqb String.eqb_eq). congruence. }
      rewrite (initial_depth_get d a Hnd Ha) in Hv. injection Hv as <-. lia.
    + intros a Ha _. now apply initial_depth_get.
    + intros a r [].
  - intros l1 x l2 dep Hsplit (Hk & Hpos & Hun & Hvis).
    pose proof Hnd as Hnd'. rewrite Hsplit in Hnd'.
    destruct (NoDup_split_notin _ _ _ Hnd') as [Hx1 _].
    assert (Hxk : In x (keys d)).
    { rewrite Hsplit. apply in_or_app. right. now left. }
    destruct (keys_dict_get _ _ Hxk) as (r & Hr).
    assert (Hin1 : forall a ra p, In a (l1 ++ [x]) -> dict_get d a = Some ra ->
                                  In p (predecessors ra) -> In p l1).
    { intros a ra p. apply (topo_prefix d l1 l2 x Ht Hsplit). }
    assert (Hxin : In x (l1 ++ [x])) by (apply in_or_app; right; now left).
    destruct (depth_inner dep x (predecessors r) Hpos (Hun x Hxk Hx1))
      as (dep' & da & Hrun' & Hk' & Hfr & Hda & Hda0 & Hnil & Hlt & Hatt).
    { intros p Hp. pose proof (Hin1 x r p Hxin Hr Hp) as Hp1. split.
      - intros ->. contradiction.
      - apply (assoc_get_keys String.eqb String.eqb_eq). rewrite Hk, Hsplit.
        apply in_or_app. now left. }
    exists dep'. rewrite (getitem_some _ _ _ Hr). cbn [bind].
    split; [assumption|]. split; [congruence|]. split; [|split].
    + intros a v. destruct (String.eqb_spec a x) as [->|Hne].
      * rewrite Hda. intros [= <-]. assumption.
      * rewrite (Hfr a Hne). apply Hpos.
    + intros a Ha Hn. rewrite Hfr.
      * apply Hun; [assumption|]. intros Hin. apply Hn. apply in_or_app. now left.
      * intros ->. apply Hn. exact Hxin.
    + intros a ra Ha Hra.
      assert (Hframe : forall p, In p l1 ->
                assoc_get String.eqb dep' p = assoc_get String.eqb dep p).
      { intros p Hp. apply Hfr. intros ->. contradiction. }
      apply in_app_or in Ha. destruct Ha as [Ha|[<-|[]]].
      * destruct (Hvis a ra Ha Hra) as (da' & H1 & H2 & H3 & H4 & H5).
        assert (Hpa : forall p, In p (predecessors ra) -> In p l1).
        { intros p Hp. apply (Hin1 a ra p); [apply in_or_app; now left | assumption..]. }
        exists da'. rewrite (Hframe a Ha). repeat (split; [assumption|]). split.
        -- intros p Hp. rewrite (Hframe p (Hpa p Hp)). auto.
        -- intros Hne. destruct (H5 Hne) as (p & dp & Hp & Hdp & E).
           exists p, dp. rewrite (Hframe p (Hpa p Hp)). auto.
      * assert (ra = r) by congruence. subst ra.
        assert (Hpx : forall p, In p (predecessors r) -> In p l1).
        { intros p Hp. apply (Hin1 x r p Hxin Hr Hp). }
        exists da. repeat (split; [assumption|]). split.
        -- intros p Hp. rewrite (Hframe p (Hpx p Hp)). auto.
        -- intros Hne. destruct (Hatt Hne) as (p & dp & Hp & Hdp & E).
           exists p, dp. rewrite (Hframe p (Hpx p Hp)). auto.
  - exists depth. split; [assumption|]. split; [assumption|].
    intros a r Hr. apply (Hall a r); [|assumption].
    eapply dict_get_some_keys; eauto.
Qed.

Lemma diagram_depth_total (d : dict) :
  NoDup (keys d) -> closed_prop d ->
  exists depth, diagram_depth d = OK depth /\ map fst depth = keys d.
Proof.
  intros Hnd C. unfold diagram_depth.
  assert (Hk0 : map fst (initial_depth d) = keys d).
  { rewrite (initial_depth_zero d Hnd), map_map. simpl. apply map_id. }
  apply (for_each_total
           (fun a depth => r <- getitem d a ;;
                           for_each (predecessors r) (depth_step a) depth)
           (keys d) (fun _ dep => map fst dep = keys d) (initial_depth d) Hk0).
  intros l1 x l2 dep Hsplit Hk.
  assert (Hxk : In x (keys d)).
  { rewrite Hsplit. apply in_or_app. right. now left. }
  destruct (keys_dict_get _ _ Hxk) as (r & Hr).
  rewrite (getitem_some _ _ _ Hr). cbn [bind].
  apply (for_each_total (depth_step x) (predecessors r)
           (fun _ dep' => map fst dep' = keys d) dep Hk).
  intros p1 p p2 dep' Hps Hk'.
  assert (Hget : forall k, In k (keys d) ->
            exists v, assoc_get String.eqb dep' k = Some v).
  { intros k Hkk. rewrite <- Hk' in Hkk.
    apply (assoc_get_keys String.eqb String.eqb_eq) in Hkk.
    destruct (assoc_get String.eqb dep' k) as [v|]; [eauto | congruence]. }
  destruct (Hget x Hxk) as (da & Hda).
  assert (Hp : In p (keys d)).
  { apply dict_get_keys. apply (C x r p Hr).
    rewrite Hps. apply in_or_app. right. now left. }
  destruct (Hget p Hp) as (dp & Hdp).
  exists (assoc_set String.eqb dep' x (Z.max da (dp + 1))).
  split; [apply (depth_step_some _ _ _ _ _ Hda Hdp)|].
  rewrite <- Hk'. apply (assoc_keys_set_present String.eqb String.eqb_eq).
  now rewrite Hk'.
Qed.

(** ** Levels *)

Lemma members_cons (a : string) (dz lv : Z) (depth : list (string * Z)) :
  members ((a, dz) :: depth) lv
  = if dz =? lv then a :: members depth lv else members depth lv.
Proof. unfold members. simpl. now destruct (dz =? lv). Qed.

Lemma levels_fold_get (depth : list (string * Z)) :
  forall (acc : list (Z * list string)) (lv : Z),
    assoc_get Z.eqb
      (fold_left (fun levels ad =>
                    assoc_set Z.eqb levels (snd ad)
                      (get_default Z.eqb levels (snd ad) [] ++ [fst ad]))
                 depth acc) lv
    = match members depth lv with
      | [] => assoc_get Z.eqb acc lv
      | m => Some (get_default Z.eqb acc lv [] ++ m)
      end.
Proof.
  induction depth as [|[a dz] depth IH]; intros acc lv; [reflexivity|].
  cbn [fold_left fst snd]. rewrite IH, members_cons.
  rewrite (assoc_get_set Z.eqb Z.eqb_eq). unfold get_default.
  rewrite (assoc_get_set Z.eqb Z.eqb_eq).
  destruct (Z.eqb_spec dz lv) as [->|Hne].
  - destruct (members depth lv); [reflexivity|].
    now rewrite <- app_assoc.
  - reflexivity.
Qed.

Lemma levels_fold_nodup (depth : list (string * Z)) :
  forall acc : list (Z * list string),
    NoDup (map fst acc) ->
    NoDup (map fst
      (fold_left (fun levels ad =>
                    assoc_set Z.eqb levels (snd ad)
                      (get_default Z.eqb levels (snd ad) [] ++ [fst ad]))
                 depth acc)).
Proof.
  induction depth as [|[a dz] depth IH]; intros acc H; [assumption|].
  simpl. apply IH. now apply (assoc_keys_set_nodup Z.eqb Z.eqb_eq).
Qed.

Lemma diagram_levels_get (depth : list (string * Z)) (lv : Z) :
  assoc_get Z.eqb (diagram_levels depth) lv
  = match members depth lv with
    | [] => None
    | m => Some m
    end.
Proof. unfold diagram_levels. now rewrite levels_fold_get. Qed.

Lemma diagram_levels_nodup (depth : list (string * Z)) :
  NoDup (map fst (diagram_levels depth)).
Proof. apply levels_fold_nodup. constructor. Qed.

Lemma diagram_levels_In (depth : list (string * Z)) (lv : Z) (l : list string) :
  In (lv, l) (diagram_levels depth) -> l = members depth lv /\ l <> [].
Proof.
  intros H.
  apply (assoc_In_get Z.eqb Z.eqb_eq _ _ _ (diagram_levels_nodup depth)) in H.
  rewrite diagram_levels_get in H.
  destruct (members depth lv); [discriminate|]. injection H as <-.
  split; [reflexivity | discriminate].
Qed.

(** ** Positions *)

Lemma enumerate_length {A : Type} (xs : list A) :
  List.length (enumerate xs) = List.length xs.
Proof.
  unfold enumerate. rewrite length_combine, length_map, length_seq.
  apply Nat.min_id.
Qed.

Lemma combine_seq_snd {A : Type} (xs : list A) :
  forall k, map snd (combine (map Z.of_nat (seq k (List.length xs))) xs) = xs.
Proof.
  induction xs as [|x xs IH]; intros k; simpl; [reflexivity|]. now rewrite IH.
Qed.

Lemma enumerate_snd {A : Type} (xs : list A) : map snd (enumerate xs) = xs.
Proof. apply combine_seq_snd. Qed.

Lemma combine_seq_In {A : Type} (xs : list A) (a : A) :
  forall k i, nth_error xs i = Some a ->
    In (Z.of_nat (k + i), a) (combine (map Z.of_nat (seq k (List.length xs))) xs).
Proof.
  induction xs as [|x xs IH]; intros k [|i] H; simpl in *; try discriminate.
  - injection H as ->. left. now rewrite Nat.add_0_r.
  - right. replace (k + S i)%nat with (S k + i)%nat by lia. now apply IH.
Qed.

Lemma enumerate_In {A : Type} (xs : list A) (a : A) (i : nat) :
  nth_error xs i = Some a -> In (Z.of_nat i, a) (enumerate xs).
Proof. intros H. apply (combine_seq_In xs a 0 i H). Qed.

Lemma assoc_set_last (m : list (Z * Z)) (k v v' : Z) :
  ~ In k (map fst m) ->
  assoc_set Z.eqb (m ++ [(k, v)]) k v' = m ++ [(k, v')].
Proof.
  induction m as [|[k0 v0] m IH]; simpl; intros H.
  - now rewrite Z.eqb_refl.
  - destruct (Z.eqb_spec k0 k) as [->|Hne]; [tauto|]. f_equal. apply IH. tauto.
Qed.

Lemma assoc_get_last (m : list (Z * Z)) (k v : Z) :
  ~ In k (map fst m) -> assoc_get Z.eqb (m ++ [(k, v)]) k = Some v.
Proof.
  induction m as [|[k0 v0] m IH]; simpl; intros H.
  - now rewrite Z.eqb_refl.
  - destruct (Z.eqb_spec k0 k) as [->|Hne]; [tauto|]. apply IH. tauto.
Qed.

(** The counter of a level that is already last in [x_positions] grows by
    one for each further activity of the level. *)
Lemma place_fold_count (level : Z) (ias : list (Z * string)) :
  forall (y : list (string * Z)) (x : list (Z * Z)) (c : Z),
    ~ In level (map fst x) ->
    snd (fold_left (place level) ias (y, x ++ [(level, c)]))
    = x ++ [(level, c + Z.of_nat (List.length ias))].
Proof.
  induction ias as [|ia ias IH]; intros y x c Hn.
  - simpl. now rewrite Z.add_0_r.
  - cbn [fold_left]. unfold place at 2. cbn [fst snd]. unfold get_default.
    rewrite (assoc_get_last x level c Hn), (assoc_set_last x level c _ Hn).
    rewrite IH by assumption. f_equal. f_equal. f_equal.
    cbn [List.length]. lia.
Qed.

Lemma place_fold_first (level : Z) (ias : list (Z * string)) :
  forall (y : list (string * Z)) (x : list (Z * Z)),
    ~ In level (map fst x) -> ias <> [] ->
    snd (fold_left (place level) ias (y, x))
    = x ++ [(level, Z.of_nat (List.length ias))].
Proof.
  intros y x Hn Hne. destruct ias as [|ia ias]; [congruence|].
  cbn [fold_left]. unfold place at 2. cbn [fst snd]. unfold get_default.
  assert (E : assoc_get Z.eqb x level = None).
  { destruct (assoc_get Z.eqb x level) eqn:E; [|reflexivity].
    exfalso. apply Hn. apply (assoc_get_keys Z.eqb Z.eqb_eq). congruence. }
  rewrite E, (assoc_set_absent Z.eqb Z.eqb_eq _ _ _ Hn).
  rewrite place_fold_count by assumption. f_equal. f_equal. f_equal.
  cbn [List.length]. lia.
Qed.

Lemma first_positions_counts (levels : list (Z * list string)) :
  forall (y : list (string * Z)) (x : list (Z * Z)),
    NoDup (map fst x ++ map fst levels) ->
    (forall la, In la levels -> snd la <> []) ->
    snd (fold_left
           (fun yx la => fold_left (place (fst la)) (enumerate (snd la)) yx)
           levels (y, x))
    = x ++ map (fun la => (fst la, Z.of_nat (List.length (snd la)))) levels.
Proof.
  induction levels as [|[lv l] levels IH]; intros y x Hnd Hne.
  - simpl. now rewrite app_nil_r.
  - cbn [fold_left fst snd]. simpl in Hnd.
    assert (Hn : ~ In lv (map fst x)).
    { apply NoDup_remove_2 in Hnd. intros H. apply Hnd. apply in_or_app. now left. }
    assert (Hl : enumerate l <> []).
    { intros E. apply (f_equal (@List.length _)) in E.
      rewrite enumerate_length in E. specialize (Hne (lv, l) (or_introl eq_refl)).
      destruct l; [now apply Hne | discriminate]. }
    pose proof (place_fold_first lv (enumerate l) y x Hn Hl) as E.
    destruct (fold_left (place lv) (enumerate l) (y, x)) as [y' x'].
    simpl in E. subst x'. rewrite IH.
    + rewrite <- app_assoc. simpl. now rewrite enumerate_length.
    + rewrite map_app. simpl. rewrite <- app_assoc. exact Hnd.
    + intros la Hla. apply Hne. now right.
Qed.

Lemma fold_left_flat_map {A B S : Type} (f : S -> B -> S) (g : A -> list B)
      (xs : list A) :
  forall s, fold_left (fun s x => fold_left f (g x) s) xs s
            = fold_left f (flat_map g xs) s.
Proof.
  induction xs as [|x xs IH]; intros s; simpl; [reflexivity|].
  now rewrite fold_left_app, IH.
Qed.

(** The writes of lines 73-74 for one level. *)
Lemma spread_writes (levels : list (Z * list string)) (y : list (string * Z))
      (lc : Z * Z) :
  spread levels y lc
  = fold_left (fun m w => assoc_set String.eqb m (fst w) (snd w))
      (map (fun ia => (snd ia, (- ((snd lc - 1) * 5)) / 2 + fst ia * 5))
           (enumerate (get_default Z.eqb levels (fst lc) []))) y.
Proof.
  unfold spread. generalize (enumerate (get_default Z.eqb levels (fst lc) [])).
  intros l. revert y. induction l as [|ia l IH]; intros y; simpl; [reflexivity|].
  apply IH.
Qed.

Lemma members_In (depth : list (string * Z)) (a : string) (lv : Z) :
  In a (members depth lv) <-> In (a, lv) depth.
Proof.
  unfold members. rewrite in_map_iff. split.
  - intros ([a' dz] & E & H). simpl in E. subst a'.
    apply filter_In in H. destruct H as [H Hz]. simpl in Hz.
    apply Z.eqb_eq in Hz. now subst.
  - intros H. exists (a, lv). split; [reflexivity|].
    apply filter_In. split; [assumption|]. simpl. apply Z.eqb_refl.
Qed.

Lemma members_nodup (depth : list (string * Z)) (lv : Z) :
  NoDup (map fst depth) -> NoDup (members depth lv).
Proof.
  unfold members. induction depth as [|[a dz] depth IH]; simpl; intros H.
  - constructor.
  - inversion H as [|? ? Hn Hnd]; subst. destruct (dz =? lv); simpl; [|auto].
    constructor; [|auto]. intros Hin. apply Hn.
    apply in_map_iff in Hin. destruct Hin as (ad & E & Hf).
    apply filter_In in Hf. apply in_map_iff. exists ad. tauto.
Qed.

Lemma members_concat_nodup (depth : list (string * Z)) (lvs : list Z) :
  NoDup (map fst depth) -> NoDup lvs -> NoDup (flat_map (members depth) lvs).
Proof.
  intros Hd. induction lvs as [|lv lvs IH]; intros Hl; simpl; [constructor|].
  inversion Hl as [|? ? Hn Hl']; subst.
  apply NoDup_app; [now apply members_nodup | auto |].
  intros a Ha Hb. apply members_In in Ha.
  apply in_flat_map in Hb. destruct Hb as (lv' & Hlv' & Hb).
  apply members_In in Hb.
  apply (assoc_In_get String.eqb String.eqb_eq _ _ _ Hd) in Ha.
  apply (assoc_In_get String.eqb String.eqb_eq _ _ _ Hd) in Hb.
  assert (lv' = lv) by congruence. subst lv'. contradiction.
Qed.

Lemma fold_left_same {A S : Type} (f g : S -> A -> S) (xs : list A) :
  (forall s x, f s x = g s x) ->
  forall s, fold_left f xs s = fold_left g xs s.
Proof.
  intros H. induction xs as [|x xs IH]; intros s; simpl; [reflexivity|].
  now rewrite H, IH.
Qed.

Lemma flat_map_of_map {A B C : Type} (f : B -> list C) (g : A -> B)
      (xs : list A) :
  flat_map f (map g xs) = flat_map (fun x => f (g x)) xs.
Proof. induction xs as [|x xs IH]; simpl; [reflexivity | now rewrite IH]. Qed.

Lemma flat_map_same_in {A B : Type} (f g : A -> list B) (xs : list A) :
  (forall x, In x xs -> f x = g x) -> flat_map f xs = flat_map g xs.
Proof.
  induction xs as [|x xs IH]; intros H; simpl; [reflexivity|].
  rewrite (H x (or_introl eq_refl)), IH; [reflexivity|].
  intros y Hy. apply H. now right.
Qed.

Lemma map_of_flat_map {A B C : Type} (h : B -> C) (f : A -> list B)
      (xs : list A) :
  map h (flat_map f xs) = flat_map (fun x => map h (f x)) xs.
Proof.
  induction xs as [|x xs IH]; simpl; [reflexivity|].
  now rewrite map_app, IH.
Qed.

Lemma diagram_positions_writes (depth : list (string * Z)) :
  diagram_positions (diagram_levels depth)
  = fold_left (fun m w => assoc_set String.eqb m (fst w) (snd w))
              (spread_all (diagram_levels depth))
              (fst (first_positions (diagram_levels depth))).
Proof.
  unfold diagram_positions, first_positions.
  set (levels := diagram_levels depth).
  rewrite (first_positions_counts levels [] []).
  - cbn [app].
    rewrite (fold_left_same _ _ _ (spread_writes levels)).
    rewrite (fold_left_flat_map
               (fun m w => assoc_set String.eqb m (fst w) (snd w))
               (fun lc => map (fun ia => (snd ia,
                                          (- ((snd lc - 1) * 5)) / 2 + fst ia * 5))
                              (enumerate (get_default Z.eqb levels (fst lc) [])))).
    rewrite flat_map_of_map. f_equal. unfold spread_all.
    apply flat_map_same_in. intros [lv l] Hla. cbn [fst snd].
    unfold get_default, levels.
    now rewrite (assoc_In_get Z.eqb Z.eqb_eq _ _ _
                   (diagram_levels_nodup depth) Hla).
  - simpl. apply diagram_levels_nodup.
  - intros [lv l] Hla. simpl. apply (diagram_levels_In depth lv l Hla).
Qed.

Lemma spread_all_keys (depth : list (string * Z)) :
  map fst (spread_all (diagram_levels depth))
  = flat_map (members depth) (map fst (diagram_levels depth)).
Proof.
  unfold spread_all. rewrite map_of_flat_map, flat_map_of_map.
  apply flat_map_same_in. intros [lv l] Hla. cbn [fst snd].
  rewrite map_map. cbn [fst]. rewrite enumerate_snd.
  apply (diagram_levels_In depth lv l Hla).
Qed.

(** Where the loops of lines 62-74 leave an activity recorded at depth
    [lv]: at the offset of its rank among the activities of that depth. *)
Lemma diagram_positions_get (depth : list (string * Z)) (a : string) (lv : Z) :
  NoDup (map fst depth) ->
  assoc_get String.eqb depth a = Some lv ->
  exists i,
    nth_error (members depth lv) i = Some a /\
    assoc_get String.eqb (diagram_positions (diagram_levels depth)) a
    = Some (offset (List.length (members depth lv)) i).
Proof.
  intros Hnd Ha.
  assert (Hmem : In a (members depth lv)).
  { apply members_In. now apply (assoc_get_In String.eqb String.eqb_eq). }
  destruct (In_nth_error _ _ Hmem) as (i & Hi). exists i. split; [assumption|].
  rewrite diagram_positions_writes.
  apply (assoc_get_writes String.eqb String.eqb_eq).
  - rewrite spread_all_keys. apply members_concat_nodup; [assumption|].
    apply diagram_levels_nodup.
  - unfold spread_all. apply in_flat_map. exists (lv, members depth lv). split.
    + apply (assoc_get_In Z.eqb Z.eqb_eq). rewrite diagram_levels_get.
      destruct (members depth lv); [destruct Hmem | reflexivity].
    + cbn [fst snd]. apply in_map_iff. exists (Z.of_nat i, a).
      split; [reflexivity|]. now apply enumerate_In.
Qed.

(** ** Traces *)

Lemma dict_get_assoc (d : dict) (k : string) :
  dict_get d k = assoc_get String.eqb d k.
Proof. induction d as [|[k' v] d IH]; simpl; [reflexivity | now rewrite IH]. Qed.

Lemma edges_closed_form (d : dict) (cp : list string) (y : list (string * Z))
      (a : string) (details : activity) (ps : list string) :
  assoc_get String.eqb y a <> None ->
  (forall p, In p ps -> dict_get d p <> None /\ assoc_get String.eqb y p <> None) ->
  forall fig,
    for_each ps (edge_step d cp y a details) fig
    = OK (fig ++ map (fun p =>
            let both := (str_in p cp && str_in a cp)%bool in
            Line (match dict_get d p with
                  | Some rp => earliest_start rp
                  | None => 0
                  end)
                 (earliest_start details)
                 (get_default String.eqb y p 0) (get_default String.eqb y a 0)
                 (if both then "red" else "black") (if both then 2 else 1)) ps).
Proof.
  intros Ha. induction ps as [|p ps IH]; intros Hps fig.
  - simpl. now rewrite app_nil_r.
  - destruct (Hps p (or_introl eq_refl)) as [Hd Hy].
    destruct (dict_get d p) as [rp|] eqn:Ep; [|congruence].
    destruct (assoc_get String.eqb y p) as [yp|] eqn:Eyp; [|congruence].
    destruct (assoc_get String.eqb y a) as [ya|] eqn:Eya; [|congruence].
    cbn [for_each map]. unfold edge_step at 1.
    rewrite (getitem_some _ _ _ Ep). cbn [bind].
    rewrite (str_getitem_some _ _ _ Eyp), (str_getitem_some _ _ _ Eya).
    cbn [bind]. rewrite IH by (intros q Hq; apply Hps; now right).
    rewrite <- app_assoc. cbn [app]. unfold get_default.
    rewrite Ep, Eyp, Eya. cbn zeta.
    now destruct (str_in p cp && str_in a cp)%bool.
Qed.

Lemma str_int_cases (z : Z) :
  str_int z = if printable_int z then OK (decimal z)
              else Raise (ValueError digit_limit).
Proof.
  unfold str_int, printable_int.
  now destruct (max_str_digits <? digits_of z)%nat.
Qed.

(** The hover text is made when the four times can be written, and the
    conversion raises [ValueError] otherwise. *)
Lemma hover_cases (r : activity) :
  hover r = if printable_record r then OK (hover_text r)
            else Raise (ValueError digit_limit).
Proof.
  unfold hover, printable_record, hover_text, str_num, printable_num.
  rewrite !str_int_cases.
  destruct (printable_int (earliest_start r)); [|reflexivity].
  destruct (printable_int (earliest_finish r)); [|reflexivity].
  cbn [bind andb].
  destruct (latest_start r) as [ls|].
  - rewrite str_int_cases. destruct (printable_int ls); [|reflexivity].
    cbn [bind andb]. destruct (latest_finish r) as [lf|]; [|reflexivity].
    rewrite str_int_cases. now destruct (printable_int lf).
  - cbn [bind andb]. destruct (latest_finish r) as [lf|]; [|reflexivity].
    rewrite str_int_cases. now destruct (printable_int lf).
Qed.

Lemma nodes_cases (d : dict) (cp : list string) (y : list (string * Z)) :
  forall d' : dict,
    (forall a r, In (a, r) d' ->
       assoc_get String.eqb y a <> None /\
       forall p, In p (predecessors r) ->
                 dict_get d p <> None /\ assoc_get String.eqb y p <> None) ->
    forall fig,
      for_each d' (node_step d cp y) fig
      = if printable d'
        then OK (fig ++ flat_map
                   (traces_of d cp (fun k => get_default String.eqb y k 0)) d')
        else Raise (ValueError digit_limit).
Proof.
  induction d' as [|[a r] d' IH]; intros H fig.
  - simpl. now rewrite app_nil_r.
  - destruct (H a r (or_introl eq_refl)) as [Hy Hps].
    cbn [for_each flat_map printable forallb snd]. unfold node_step at 1.
    destruct (assoc_get String.eqb y a) as [ya|] eqn:Eya; [|congruence].
    rewrite (str_getitem_some _ _ _ Eya). cbn [bind].
    rewrite hover_cases. destruct (printable_record r); [|reflexivity].
    cbn [bind andb].
    rewrite (edges_closed_form d cp y a r (predecessors r)); [|congruence|assumption].
    cbn [bind]. fold (printable d').
    rewrite IH by (intros a' r' Hin; apply H; now right).
    destruct (printable d'); [|reflexivity].
    f_equal. rewrite <- !app_assoc. f_equal. cbn [app].
    unfold traces_of at 2. cbn [fst snd app]. f_equal.
    unfold get_default at 1. now rewrite Eya.
Qed.

Lemma In_dict_get (d : dict) (a : string) (r : activity) :
  NoDup (keys d) -> In (a, r) d -> dict_get d a = Some r.
Proof.
  intros Hnd Hin. rewrite dict_get_assoc.
  now apply (assoc_In_get String.eqb String.eqb_eq).
Qed.

(** What a returned schedule guarantees to the diagram. *)
Lemma schedule_shape (activities durations preds cp : list string) (d : dict) :
  calculate_cpm activities durations preds = OK (cp, d) ->
  NoDup (keys d) /\ closed_prop d /\
  exists d0, build activities durations preds = OK d0 /\
             keys d = keys d0 /\
             (topo_prop d0 -> topo_prop d).
Proof.
  intros H. destruct (calculate_cpm_inv _ _ _ _ _ H) as (d0 & d1 & Hb & H1 & H2 & _).
  destruct (build_facts _ _ _ _ Hb) as (Hnd & _ & _).
  pose proof (forward_pass_ok_lift _ _ H1) as L1.
  pose proof (backward_pass_ok_lift _ _ H2) as L2.
  assert (C0 : closed_prop d0).
  { destruct (forward_pass_cases d0) as [(C & _)|(a & r & p & Hr & _)];
      [assumption | congruence]. }
  assert (Hk : keys d = keys d0) by (now rewrite (proj1 L2), (proj1 L1)).
  split; [now rewrite Hk|]. split.
  - apply (closed_prop_lift bw_keeps d1 d bw_keeps_preds L2).
    apply (closed_prop_lift fw_keeps d0 d1 fw_keeps_preds L1 C0).
  - exists d0. split; [assumption|]. split; [assumption|]. intros T0.
    apply (topo_prop_lift bw_keeps d1 d bw_keeps_preds L2).
    apply (topo_prop_lift fw_keeps d0 d1 fw_keeps_preds L1 T0).
Qed.

Lemma diagram_layout (d : dict) :
  NoDup (keys d) -> closed_prop d ->
  exists depth,
    diagram_depth d = OK depth /\ map fst depth = keys d /\
    forall a lv, assoc_get String.eqb depth a = Some lv ->
      exists i,
        nth_error (members depth lv) i = Some a /\
        assoc_get String.eqb (diagram_positions (diagram_levels depth)) a
        = Some (offset (List.length (members depth lv)) i).
Proof.
  intros Hnd C. destruct (diagram_depth_total d Hnd C) as (depth & Hd & Hk).
  exists depth. split; [assumption|]. split; [assumption|].
  intros a lv. apply diagram_positions_get. now rewrite Hk.
Qed.

Lemma figure_cases (d : dict) (cp : list string) :
  NoDup (keys d) -> closed_prop d ->
  exists depth,
    diagram_depth d = OK depth /\
    network_figure d cp
    = if printable d
      then OK (flat_map
                 (traces_of d cp
                    (fun a => get_default String.eqb
                                (diagram_positions (diagram_levels depth)) a 0))
                 d)
      else Raise (ValueError digit_limit).
Proof.
  intros Hnd C. destruct (diagram_layout d Hnd C) as (depth & Hd & Hk & Hpos).
  exists depth. split; [assumption|]. unfold network_figure.
  rewrite Hd. cbn [bind]. rewrite nodes_cases; [reflexivity|].
  assert (Hy : forall a, In a (keys d) ->
             assoc_get String.eqb (diagram_positions (diagram_levels depth)) a
             <> None).
  { intros a Ha. rewrite <- Hk in Ha.
    apply (assoc_get_keys String.eqb String.eqb_eq) in Ha.
    destruct (assoc_get String.eqb depth a) as [lv|] eqn:E; [|congruence].
    destruct (Hpos a lv E) as (i & _ & ->). discriminate. }
  intros a r Hin. pose proof (In_dict_get d a r Hnd Hin) as Hr. split.
  - apply Hy. eapply dict_get_some_keys; eauto.
  - intros p Hp. pose proof (C a r p Hr Hp) as Hpd. split; [assumption|].
    apply Hy. now apply dict_get_keys.
Qed.

(** X11. On a schedule returned by the scheduler, the code that builds the
    figure has two outcomes. When one of the times of the schedule has
    more than 4300 digits, the hover text of line 87 raises
    [ValueError]. Otherwise no lookup fails and the figure handed to
    the plotting library holds, for each activity in order, a marker at
    x = ES labelled with the activity (red on the critical path, blue off
    it, with the four times as hover text) followed by one line per
    predecessor; each line runs from the marker position of the
    predecessor to the marker position of the activity, and is red with
    width 2 when both ends are on the critical path, black with width 1
    otherwise. [create_network_diagram] then answers what the plotting
    library makes of that figure. *)
Theorem diagram_of_schedule
        (activities durations preds cp : list string) (d : dict) :
  calculate_cpm activities durations preds = OK (cp, d) ->
  exists depth,
    diagram_depth d = OK depth /\
    (printable d = false ->
     network_figure d cp = Raise (ValueError digit_limit) /\
     forall to_html,
       create_network_diagram to_html d cp = Raise (ValueError digit_limit)) /\
    (printable d = true ->
     network_figure d cp
     = OK (flat_map
             (traces_of d cp
                (fun a => get_default String.eqb
                            (diagram_positions (diagram_levels depth)) a 0))
             d) /\
     forall to_html,
       create_network_diagram to_html d cp
       = to_html (flat_map
                    (traces_of d cp
                       (fun a => get_default String.eqb
                                   (diagram_positions (diagram_levels depth))
                                   a 0))
                    d)).
Proof.
  intros H. destruct (schedule_shape _ _ _ _ _ H) as (Hnd & C & _).
  destruct (figure_cases d cp Hnd C) as (depth & Hd & Hfig).
  exists depth. split; [assumption|]. split; intros Hp; rewrite Hp in Hfig.
  - split; [assumption|]. intros to_html. unfold create_network_diagram.
    now rewrite Hfig.
  - split; [assumption|]. intros to_html. unfold create_network_diagram.
    now rewrite Hfig.
Qed.

(** Scenario C. *)
Lemma diagram_of_schedule_witness :
  calculate_cpm scenario_names scenario_durations scenario_predecessors
  = OK (["B"; "C"], scenario_schedule) /\
  exists depth,
    diagram_depth scenario_schedule = OK depth /\
    (printable scenario_schedule = false ->
     network_figure scenario_schedule ["B"; "C"]
     = Raise (ValueError digit_limit) /\
     forall to_html,
       create_network_diagram to_html scenario_schedule ["B"; "C"]
       = Raise (ValueError digit_limit)) /\
    (printable scenario_schedule = true ->
     network_figure scenario_schedule ["B"; "C"]
     = OK (flat_map
             (traces_of scenario_schedule ["B"; "C"]
                (fun a => get_default String.eqb
                            (diagram_positions (diagram_levels depth)) a 0))
             scenario_schedule) /\
     forall to_html,
       create_network_diagram to_html scenario_schedule ["B"; "C"]
       = to_html (flat_map
                    (traces_of scenario_schedule ["B"; "C"]
                       (fun a => get_default String.eqb
                                   (diagram_positions (diagram_levels depth))
                                   a 0))
                    scenario_schedule)).
Proof.
  split; [reflexivity|].
  exact (diagram_of_schedule
           scenario_names scenario_durations scenario_predecessors
           ["B"; "C"] scenario_schedule eq_refl).
Defined.

(** X12. On a returned schedule, the vertical position of every marker is
    decided by the rank [i] of its activity among the [n] activities
    recorded at the same depth, in insertion order: it is
    [(-(5 * (n - 1))) // 2 + 5 * i]. The value [-level] written first
    (line 66) never survives. Hence two different activities of the same
    depth never share a vertical position: theirs differ by a non-zero
    multiple of 5. *)
Theorem diagram_level_offsets
        (activities durations preds cp : list string) (d : dict) :
  calculate_cpm activities durations preds = OK (cp, d) ->
  exists depth,
    diagram_depth d = OK depth /\ map fst depth = keys d /\
    (forall a lv, assoc_get String.eqb depth a = Some lv ->
       exists i,
         nth_error (members depth lv) i = Some a /\
         assoc_get String.eqb (diagram_positions (diagram_levels depth)) a
         = Some ((- ((Z.of_nat (List.length (members depth lv)) - 1) * 5)) / 2
                 + Z.of_nat i * 5)) /\
    (forall a b lv ya yb,
       a <> b ->
       assoc_get String.eqb depth a = Some lv ->
       assoc_get String.eqb depth b = Some lv ->
       assoc_get String.eqb (diagram_positions (diagram_levels depth)) a = Some ya ->
       assoc_get String.eqb (diagram_positions (diagram_levels depth)) b = Some yb ->
       ya <> yb /\ exists k, ya - yb = 5 * k).
Proof.
  intros H. destruct (schedule_shape _ _ _ _ _ H) as (Hnd & C & _).
  destruct (diagram_layout d Hnd C) as (depth & Hd & Hk & Hpos).
  exists depth. split; [assumption|]. split; [assumption|].
  split; [exact Hpos|].
  intros a b lv ya yb Hab Ha Hb Hya Hyb.
  destruct (Hpos a lv Ha) as (i & Hi & Ei).
  destruct (Hpos b lv Hb) as (j & Hj & Ej).
  assert (Hij : i <> j) by (intros ->; congruence).
  assert (Ea : ya = offset (List.length (members depth lv)) i) by congruence.
  assert (Eb : yb = offset (List.length (members depth lv)) j) by congruence.
  unfold offset in Ea, Eb. split.
  - lia.
  - exists (Z.of_nat i - Z.of_nat j). lia.
Qed.

(** Scenario C: A and B share depth 0. *)
Lemma diagram_level_offsets_witness :
  calculate_cpm scenario_names scenario_durations scenario_predecessors
  = OK (["B"; "C"], scenario_schedule) /\
  exists depth,
    diagram_depth scenario_schedule = OK depth /\
    map fst depth = keys scenario_schedule /\
    (forall a lv, assoc_get String.eqb depth a = Some lv ->
       exists i,
         nth_error (members depth lv) i = Some a /\
         assoc_get String.eqb (diagram_positions (diagram_levels depth)) a
         = Some ((- ((Z.of_nat (List.length (members depth lv)) - 1) * 5)) / 2
                 + Z.of_nat i * 5)) /\
    (forall a b lv ya yb,
       a <> b ->
       assoc_get String.eqb depth a = Some lv ->
       assoc_get String.eqb depth b = Some lv ->
       assoc_get String.eqb (diagram_positions (diagram_levels depth)) a = Some ya ->
       assoc_get String.eqb (diagram_positions (diagram_levels depth)) b = Some yb ->
       ya <> yb /\ exists k, ya - yb = 5 * k).
Proof.
  split; [reflexivity|].
  exact (diagram_level_offsets
           scenario_names scenario_durations scenario_predecessors
           ["B"; "C"] scenario_schedule eq_refl).
Defined.

(** X13. When the activities are supplied in a topological order, the
    depth computed for the diagram of the returned schedule is 0 for an
    activity without predecessors and one more than the largest depth
    among its predecessors otherwise: every predecessor lies at a
    strictly smaller depth. *)
Theorem diagram_depth_of_topological_schedule
        (activities durations preds : list string) (d0 : dict) :
  build activities durations preds = OK d0 ->
  topo_order d0 = true ->
  exists cp d depth,
    calculate_cpm activities durations preds = OK (cp, d) /\
    diagram_depth d = OK depth /\
    forall a r, dict_get d a = Some r ->
      exists da,
        assoc_get String.eqb depth a = Some da /\
        (predecessors r = [] -> da = 0) /\
        (forall p, In p (predecessors r) ->
           exists dp, assoc_get String.eqb depth p = Some dp /\ dp < da) /\
        (predecessors r <> [] ->
         exists p dp, In p (predecessors r) /\
                      assoc_get String.eqb depth p = Some dp /\ da = dp + 1).
Proof.
  intros Hb Ht. destruct (build_facts _ _ _ _ Hb) as (Hnd & _ & _).
  pose proof (topo_order_prop d0 Ht Hnd) as T0.
  destruct (passes_on_closed _ _ _ _ Hb (topo_closed d0 T0))
    as (d1 & d2 & H1 & H2 & _).
  pose proof (calculate_cpm_ok _ _ _ d0 d1 d2 Hb H1 H2) as Hc.
  destruct (schedule_shape _ _ _ _ _ Hc) as (Hnd2 & _ & d0' & Hb' & _ & HT).
  assert (d0' = d0) by congruence. subst d0'.
  destruct (diagram_depth_topo d2 Hnd2 (HT T0)) as (depth & Hd & _ & Hall).
  exists (filter (is_critical d2) (keys d2)), d2, depth.
  split; [assumption|]. split; [assumption|].
  intros a r Hr. destruct (Hall a r Hr) as (da & E & _ & H0 & Hlt & Hatt).
  exists da. auto.
Qed.

(** Scenario C. *)
Lemma diagram_depth_of_topological_schedule_witness :
  build scenario_names scenario_durations scenario_predecessors
  = OK scenario_built /\
  topo_order scenario_built = true /\
  exists cp d depth,
    calculate_cpm scenario_names scenario_durations scenario_predecessors
    = OK (cp, d) /\
    diagram_depth d = OK depth /\
    forall a r, dict_get d a = Some r ->
      exists da,
        assoc_get String.eqb depth a = Some da /\
        (predecessors r = [] -> da = 0) /\
        (forall p, In p (predecessors r) ->
           exists dp, assoc_get String.eqb depth p = Some dp /\ dp < da) /\
        (predecessors r <> [] ->
         exists p dp, In p (predecessors r) /\
                      assoc_get String.eqb depth p = Some dp /\ da = dp + 1).
Proof.
  split; [reflexivity|]. split; [reflexivity|].
  exact (diagram_depth_of_topological_schedule
           scenario_names scenario_durations scenario_predecessors
           scenario_built eq_refl eq_refl).
Defined.

(** * Further properties of the schedule *)

(** ** The project finish bounds every latest finish *)

Lemma run_op_bound (M : Z) (o : bw_op) (s s' : dict) :
  (forall k r, dict_get s k = Some r ->
     0 <= duration r /\ earliest_finish r <= M /\
     latest_start r = num_sub (latest_finish r) (duration r) /\
     (latest_finish r = Inf \/ num_le (latest_finish r) (Int M))) ->
  run_op o s = OK s' ->
  forall k r, dict_get s' k = Some r ->
    0 <= duration r /\ earliest_finish r <= M /\
    latest_start r = num_sub (latest_finish r) (duration r) /\
    (latest_finish r = Inf \/ num_le (latest_finish r) (Int M)).
Proof.
  intros Inv Ho k r Hr.
  destruct (run_op_written _ _ _ Ho) as (k0 & r0 & r1 & Hk0 & -> & Hw).
  rewrite dict_get_set in Hr. destruct (String.eqb k0 k); [|now apply (Inv k)].
  injection Hr as <-. destruct (Inv k0 r0 Hk0) as (Hd & He & Hls & Hlf).
  destruct Hw as [->|(a & ra & Ha & ->)].
  - unfold anchored. simpl. repeat (split; [assumption || reflexivity|]).
    destruct (latest_finish r0) as [lf|]; simpl in *; auto.
  - unfold tightened. simpl. repeat (split; [assumption || reflexivity|]).
    destruct (py_min_cases (latest_finish r0) (latest_start ra)) as [->| ->];
      [assumption|].
    destruct (Inv a ra Ha) as (Hda & _ & Hlsa & Hlfa). rewrite Hlsa.
    destruct (latest_finish ra) as [lf|]; simpl in *; [|now left].
    right. destruct Hlfa as [Hc|Hc]; [discriminate | lia].
Qed.

(** X14. In any order of the activities: when no duration is negative, no
    latest finish of a returned schedule exceeds the project finish, that
    is, any bound on all the earliest finishes; and no latest start
    exceeds its latest finish. *)
Theorem latest_finish_within_project_finish
        (activities durations preds cp : list string) (d0 d : dict) (M : Z) :
  build activities durations preds = OK d0 ->
  nonneg_durations d0 = true ->
  calculate_cpm activities durations preds = OK (cp, d) ->
  (forall k r, dict_get d k = Some r -> earliest_finish r <= M) ->
  forall a r, dict_get d a = Some r ->
    exists ls lf,
      latest_start r = Int ls /\ latest_finish r = Int lf /\
      ls <= lf /\ lf <= M.
Proof.
  intros Hb Hn H HM a r Hr.
  destruct (calculate_cpm_inv _ _ _ _ _ H) as (d0' & d1 & Hb' & H1 & H2 & _).
  assert (d0' = d0) by congruence. subst d0'.
  pose proof (forward_pass_ok_lift _ _ H1) as L1.
  pose proof (backward_pass_ok_lift _ _ H2) as L2.
  assert (C0 : closed_prop d0).
  { destruct (forward_pass_cases d0) as [(C & _)|(a' & r' & p & Hr' & _)];
      [assumption | congruence]. }
  destruct (passes_on_closed _ _ _ _ Hb C0)
    as (d1' & d2 & H1' & H2' & _ & _ & _ & _ & F1 & Hfinal).
  assert (d1' = d1) by congruence. subst d1'.
  assert (d2 = d) by congruence. subst d2.
  assert (Inv : forall k rk, dict_get d k = Some rk ->
            0 <= duration rk /\ earliest_finish rk <= M /\
            latest_start rk = num_sub (latest_finish rk) (duration rk) /\
            (latest_finish rk = Inf \/ num_le (latest_finish rk) (Int M))).
  { rewrite backward_pass_as_ops in H2. unfold run_ops in H2. revert H2.
    apply (for_each_partial run_op (backward_ops d1)
             (fun _ s => forall k rk, dict_get s k = Some rk ->
                0 <= duration rk /\ earliest_finish rk <= M /\
                latest_start rk = num_sub (latest_finish rk) (duration rk) /\
                (latest_finish rk = Inf \/ num_le (latest_finish rk) (Int M)))).
    - intros k r1 Hr1. destruct (F1 k r1 Hr1) as (_ & Hls & Hlf).
      destruct (lift_some_back _ _ _ _ _ L1 Hr1) as (r0 & Hr0 & K0).
      destruct (proj2 L2 k r1 Hr1) as (r2 & Hr2 & K2).
      split; [|split; [|split]].
      + destruct K0 as (-> & _). unfold nonneg_durations in Hn.
        rewrite forallb_forall in Hn.
        specialize (Hn (k, r0) (dict_get_In _ _ _ Hr0)). simpl in Hn. lia.
      + destruct K2 as (_ & _ & _ & Kef & _). rewrite <- Kef. apply (HM k r2 Hr2).
      + now rewrite Hls, Hlf.
      + now left.
    - intros l1 o l2 s s' _ Hs Ho. apply (run_op_bound M o s s' Hs Ho). }
  destruct (Hfinal a r Hr) as (_ & lf & Hlf & Hls).
  destruct (Inv a r Hr) as (Hd & _ & _ & Hb2).
  exists (lf - duration r), lf. repeat (split; [assumption|]).
  rewrite Hlf in Hb2. simpl in Hb2. destruct Hb2 as [Hc|Hc]; [discriminate|].
  split; lia.
Qed.

(** Scenario C, whose project finish is 8. *)
Lemma latest_finish_within_project_finish_witness :
  build scenario_names scenario_durations scenario_predecessors
  = OK scenario_built /\
  nonneg_durations scenario_built = true /\
  calculate_cpm scenario_names scenario_durations scenario_predecessors
  = OK (["B"; "C"], scenario_schedule) /\
  (forall k r, dict_get scenario_schedule k = Some r ->
               earliest_finish r <= 8) /\
  forall a r, dict_get scenario_schedule a = Some r ->
    exists ls lf,
      latest_start r = Int ls /\ latest_finish r = Int lf /\
      ls <= lf /\ lf <= 8.
Proof.
  assert (HM : forall k r, dict_get scenario_schedule k = Some r ->
                           earliest_finish r <= 8).
  { intros k r Hr. apply dict_get_In in Hr.
    destruct Hr as [E|[E|[E|[]]]]; injection E as <- <-;
      apply Z.leb_le; reflexivity. }
  split; [reflexivity|]. split; [reflexivity|]. split; [reflexivity|].
  split; [exact HM|].
  exact (latest_finish_within_project_finish
           scenario_names scenario_durations scenario_predecessors
           ["B"; "C"] scenario_built scenario_schedule 8
           eq_refl eq_refl eq_refl HM).
Defined.

(** ** The critical path leads back to a start *)

(** X15. When the activities are supplied in a topological order, every
    critical activity that has predecessors has a critical predecessor
    that finishes exactly when the activity starts: the critical path can
    be followed backwards, without a gap, to an activity without
    predecessors. *)
Theorem critical_activity_has_critical_predecessor
        (activities durations preds : list string) (d0 : dict) :
  build activities durations preds = OK d0 ->
  topo_order d0 = true ->
  exists cp d,
    calculate_cpm activities durations preds = OK (cp, d) /\
    forall a r, dict_get d a = Some r -> In a cp -> predecessors r <> [] ->
      exists p rp,
        In p (predecessors r) /\ dict_get d p = Some rp /\ In p cp /\
        earliest_finish rp = earliest_start r.
Proof.
  intros Hb Ht. destruct (build_facts _ _ _ _ Hb) as (Hnd & _ & _).
  pose proof (topo_order_prop d0 Ht Hnd) as T0.
  destruct (passes_on_closed _ _ _ _ Hb (topo_closed d0 T0))
    as (d1 & d2 & H1 & H2 & L1 & L2 & C1 & Hnd1 & F1 & Hfinal).
  destruct (forward_pass_topo d0 Hnd T0) as (d1' & H1' & _ & Hes).
  assert (d1' = d1) by congruence. subst d1'.
  pose proof (topo_prop_lift fw_keeps d0 d1 fw_keeps_preds L1 T0) as T1.
  destruct (backward_topo d1 Hnd1 T1) as (d2' & H2' & _ & Hedge).
  assert (d2' = d2) by congruence. subst d2'.
  assert (E : forall a ra p rp, dict_get d1 a = Some ra ->
                In p (predecessors ra) -> dict_get d1 p = Some rp ->
                earliest_finish rp <= earliest_start ra).
  { intros a ra p rp Ha Hp Hrp. destruct (Hes a ra Ha) as [_ Hne].
    destruct Hne as (Hub & _); [intros E; rewrite E in Hp; destruct Hp|].
    destruct (Hub p Hp) as (rp' & Hrp' & Hle). congruence. }
  assert (J : forall k r, dict_get d2 k = Some r ->
                num_le (Int (earliest_finish r)) (latest_finish r) /\
                latest_start r = num_sub (latest_finish r) (duration r) /\
                earliest_finish r = earliest_start r + duration r).
  { apply (run_ops_slack d1 E (backward_ops d1) d1 d2).
    - apply backward_ops_on_edges.
    - apply lift_refl, bw_keeps_refl.
    - intros k r Hr. destruct (F1 k r Hr) as (Hef & Hls & Hlf).
      rewrite Hls, Hlf. simpl. auto.
    - now rewrite <- backward_pass_as_ops. }
  exists (filter (is_critical d2) (keys d2)), d2.
  split; [apply (calculate_cpm_ok _ _ _ d0 d1 d2); assumption|].
  intros a r Hr Hcp Hne. apply filter_In in Hcp. destruct Hcp as [_ Hcrit].
  unfold is_critical in Hcrit. rewrite Hr in Hcrit.
  apply num_eqb_eq in Hcrit.
  destruct (lift_some_back _ _ _ _ _ L2 Hr) as (r1 & Hr1 & K).
  destruct K as (_ & Kp & Kes & _).
  destruct (Hes a r1 Hr1) as [_ Hmax]. rewrite <- Kp in Hmax.
  destruct (Hmax Hne) as (_ & (p & rp1 & Hp & Hrp1 & Heq) & _).
  destruct (proj2 L2 p rp1 Hrp1) as (rp & Hrp & Kq).
  destruct Kq as (_ & _ & _ & Kef & _).
  exists p, rp. split; [assumption|]. split; [assumption|].
  split; [|congruence].
  destruct (Hedge a r p Hr Hp) as (rp' & Hrp' & Hle).
  assert (rp' = rp) by congruence. subst rp'.
  destruct (J p rp Hrp) as (J1 & J2 & J3).
  apply filter_In. split; [eapply dict_get_some_keys; eauto|].
  unfold is_critical. rewrite Hrp. apply num_eqb_eq.
  rewrite <- Hcrit in Hle. rewrite J2.
  destruct (latest_finish rp) as [lf|]; simpl in *; [|contradiction].
  f_equal. lia.
Qed.

(** Scenario C: the critical C starts when the critical B finishes. *)
Lemma critical_activity_has_critical_predecessor_witness :
  build scenario_names scenario_durations scenario_predecessors
  = OK scenario_built /\
  topo_order scenario_built = true /\
  exists cp d,
    calculate_cpm scenario_names scenario_durations scenario_predecessors
    = OK (cp, d) /\
    forall a r, dict_get d a = Some r -> In a cp -> predecessors r <> [] ->
      exists p rp,
        In p (predecessors r) /\ dict_get d p = Some rp /\ In p cp /\
        earliest_finish rp = earliest_start r.
Proof.
  split; [reflexivity|]. split; [reflexivity|].
  exact (critical_activity_has_critical_predecessor
           scenario_names scenario_durations scenario_predecessors
           scenario_built eq_refl eq_refl).
Defined.

(** * Outcomes of the route *)

(** X1. The code of the route has five outcomes and no other: the
    rejection text; [ValueError] on a duration that [int] rejects;
    [KeyError] on a predecessor that is no activity; [ValueError] from
    the hover text when a time of the schedule has more than 4300 digits;
    or, with the figure built, whatever the plotting library and then the
    template return or raise, a returned page being the answer. In
    particular the length test rules out [IndexError], and the passes and
    the layout of the diagram raise nothing once the forward pass has
    returned. *)
Theorem calculate_outcomes
        (to_html : html_writer) (render_template : renderer)
        (activities durations preds : list string) :
  calculate to_html render_template activities durations preds
  = OK (Text "Error: Mismatch in input lengths.") \/
  (exists s,
      In s durations /\ py_int s = None /\
      calculate to_html render_template activities durations preds
      = Raise (ValueError s)) \/
  (exists d0 a r q,
      build activities durations preds = OK d0 /\
      dict_get d0 a = Some r /\ In q (predecessors r) /\
      dict_get d0 q = None /\
      calculate to_html render_template activities durations preds
      = Raise (KeyError q)) \/
  (exists cp d,
      calculate_cpm activities durations preds = OK (cp, d) /\
      printable d = false /\
      calculate to_html render_template activities durations preds
      = Raise (ValueError digit_limit)) \/
  (exists cp d fig,
      calculate_cpm activities durations preds = OK (cp, d) /\
      printable d = true /\
      network_figure d cp = OK fig /\
      calculate to_html render_template activities durations preds
      = (html <- to_html fig ;;
         page <- render_template cp d html activities durations preds ;;
         OK (ResultPage page))).
Proof.
  unfold calculate.
  destruct (Nat.eqb_spec (List.length activities) (List.length durations))
    as [H1|]; [|now left].
  destruct (Nat.eqb_spec (List.length durations) (List.length preds))
    as [H2|]; [|now left].
  cbn [andb]. right.
  destruct (durations_parse_or_not durations) as [Hp|(s & Hin & Hbad)].
  - destruct (build_zip_total activities durations preds [] H1 H2 Hp)
      as (d0 & Hb).
    rewrite <- build_is_zip in Hb. right.
    destruct (forward_pass_cases d0)
      as [(C & _)|(a & r & q & Hq & Ha & Hin & Hnone)].
    + right. destruct (passes_on_closed _ _ _ _ Hb C)
        as (d1 & d2 & F1 & F2 & _).
      pose proof (calculate_cpm_ok _ _ _ d0 d1 d2 Hb F1 F2) as Hc.
      destruct (schedule_shape _ _ _ _ _ Hc) as (Hnd & C2 & _).
      destruct (figure_cases d2 (filter (is_critical d2) (keys d2)) Hnd C2)
        as (depth & _ & Hfig).
      rewrite Hc. cbn [bind]. unfold create_network_diagram.
      destruct (printable d2) eqn:Ep.
      * right. eexists _, d2, _. split; [reflexivity|]. split; [assumption|].
        split; [exact Hfig|]. rewrite Hfig. cbn [bind].
        destruct (to_html _); reflexivity.
      * left. exists (filter (is_critical d2) (keys d2)), d2.
        split; [reflexivity|]. split; [assumption|]. now rewrite Hfig.
    + left. exists d0, a, r, q. repeat (split; [assumption|]).
      unfold calculate_cpm. rewrite Hb. cbn [bind]. now rewrite Hq.
  - left.
    destruct (build_zip_bad_duration activities durations preds [] H1 H2
                (ex_intro _ s (conj Hin Hbad))) as (s' & Hs' & Hin' & Hbad').
    rewrite <- build_is_zip in Hs'. exists s'. repeat (split; [assumption|]).
    unfold calculate_cpm. now rewrite Hs'.
Qed.
